(** * AudioCraft Plus (enhanced): the orchestration core of [app_enhanced.py]

    A shallow embedding of the pure and stateful parts of the generation
    front-end: the segment timing calculator ([s2t], [calc_time]), the
    expiring file registry ([FileCleaner]), the request validation and
    sample preprocessing of [predict_full] / [_do_predictions], the
    metadata encoder and decoder ([add_tags], [info_to_params]) and the
    collision-avoiding output naming of [save_outputs].

    Conventions.  Python integers are [Z]; Python floats that only carry
    seconds or sampling parameters are exact rationals [Q]; Python strings
    are [string]; dictionaries with string keys are [gmap string _];
    exceptions are [option] or an explicit error constructor. *)

From Stdlib Require Import ZArith QArith Qround Lia Lqa List Ascii String.
From Stdlib Require Import DecimalString DecimalZ.
From stdpp Require Import base tactics option list gmap strings.

Import ListNotations.
Local Open Scope Z_scope.

(** ** Python integer formatting *)

Module PyFormat.

(** [str(n)] for an integer [n]. *)
Definition py_str_int (z : Z) : string := NilZero.string_of_int (Z.to_int z).

(** ["%02d" % n]: decimal, zero-padded on the left to width two (a sign
    counts towards the width). *)
Definition fmt_02d (z : Z) : string :=
  let s := py_str_int z in
  if (String.length s <? 2)%nat then "0" +:+ s else s.

(** [int(s)] on the decimal strings that [str] produces. *)
Definition py_int (s : string) : option Z :=
  option_map Z.of_int (NilZero.int_of_string s).

End PyFormat.

(** ** Segment timing calculator *)

Module Timing.
Import PyFormat.

(** [s2t(seconds, seconds2)]: the window rendered as ["mm:ss - mm:ss"]. *)
Definition s2t (seconds seconds2 : Z) : string :=
  let m := seconds / 60 in
  let s := seconds mod 60 in
  let m2 := seconds2 / 60 in
  let s2 := seconds2 mod 60 in
  let s := if negb (seconds =? 0) && (seconds <? seconds2) then s + 1 else s in
  fmt_02d m +:+ ":" +:+ fmt_02d s +:+ " - " +:+ fmt_02d m2 +:+ ":" +:+ fmt_02d s2.

(** The right-hand half of a rendered window: the time at which it ends. *)
Definition mmss (t : Z) : string := fmt_02d (t / 60) +:+ ":" +:+ fmt_02d (t mod 60).

Definition max_limit_of (gen_type : string) : Z :=
  if String.eqb gen_type "music" then 30
  else if String.eqb gen_type "audio" then 10
  else 0.

(** [tracks]: the length each slot contributes. *)
Definition tracks_of (max_limit overlap : Z) (d_amount : list Z) : list Z :=
  let track_add := max_limit - overlap in
  (max_limit + (nth 0 d_amount 0 - 1) * track_add)
    :: map (fun i => nth i d_amount 0 * track_add) (seq 1 9).

(** The body of [for i in range(1, 10)], producing [calc] in order. *)
Fixpoint calc_loop (max_time s : Z) (tracks : list Z) (time : Z) (idx : list nat)
  : list string :=
  match idx with
  | [] => []
  | i :: rest =>
      let t := nth i tracks 0 in
      if (time + t >=? max_time) || (Z.of_nat i =? s)
      then s2t time max_time :: calc_loop max_time s tracks max_time rest
      else s2t time (time + t) :: calc_loop max_time s tracks (time + t) rest
  end.

(** [calc_time(gen_type, s, duration, overlap, d0, ..., d9)]; the ten
    returned strings are given as a list. *)
Definition calc_time (gen_type : string) (s duration overlap : Z)
  (d0 d1 d2 d3 d4 d5 d6 d7 d8 d9 : Z) : list string :=
  let d_amount := [d0; d1; d2; d3; d4; d5; d6; d7; d8; d9] in
  let time := 0 in
  let s := s - 1 in
  let max_time := duration in
  let max_limit := max_limit_of gen_type in
  let tracks := tracks_of max_limit overlap d_amount in
  if (nth 0 tracks 0 >=? max_time) || (s =? 0)
  then s2t time max_time :: calc_loop max_time s tracks max_time (seq 1 9)
  else s2t time (nth 0 tracks 0)
         :: calc_loop max_time s tracks (nth 0 tracks 0) (seq 1 9).

(** The same loop, keeping the numeric window [(time before, time after)]
    of every slot instead of its rendering. *)
Fixpoint window_loop (max_time s : Z) (tracks : list Z) (time : Z) (idx : list nat)
  : list (Z * Z) :=
  match idx with
  | [] => []
  | i :: rest =>
      let t := nth i tracks 0 in
      if (time + t >=? max_time) || (Z.of_nat i =? s)
      then (time, max_time) :: window_loop max_time s tracks max_time rest
      else (time, time + t) :: window_loop max_time s tracks (time + t) rest
  end.

Definition calc_windows (gen_type : string) (s duration overlap : Z)
  (d0 d1 d2 d3 d4 d5 d6 d7 d8 d9 : Z) : list (Z * Z) :=
  let d_amount := [d0; d1; d2; d3; d4; d5; d6; d7; d8; d9] in
  let s := s - 1 in
  let max_time := duration in
  let max_limit := max_limit_of gen_type in
  let tracks := tracks_of max_limit overlap d_amount in
  if (nth 0 tracks 0 >=? max_time) || (s =? 0)
  then (0, max_time) :: window_loop max_time s tracks max_time (seq 1 9)
  else (0, nth 0 tracks 0)
         :: window_loop max_time s tracks (nth 0 tracks 0) (seq 1 9).

Definition render (w : Z * Z) : string := s2t (fst w) (snd w).

(** The audio scenario: duration 10, overlap 2, repeats 3,1,...,1, for a
    prompt count [s]. *)

Definition scenario_windows (s : Z) : list (Z * Z) :=
  calc_windows "audio" s 10 2 3 1 1 1 1 1 1 1 1 1.

Definition scenario_calc (s : Z) : list string :=
  calc_time "audio" s 10 2 3 1 1 1 1 1 1 1 1 1.

(** Each window starts at the time the one before it ends, the first one
    at [start]. *)
Fixpoint contiguous (start : Z) (ws : list (Z * Z)) : Prop :=
  match ws with
  | [] => True
  | w :: rest => fst w = start /\ contiguous (snd w) rest
  end.

(** The seconds the windows span, added up. *)
Definition covered (ws : list (Z * Z)) : Z :=
  foldr (fun w acc => (snd w - fst w) + acc) 0 ws.

End Timing.

(** ** Expiring file registry *)

Module Cleaner.

Definition path := string.

(** One element of [self.files]: [(time_added, path)]. *)
Definition entry : Type := Z * path.

(** [path.unlink()]: raises when the file is missing. *)
Definition unlink (p : path) (disk : gset path) : option (gset path) :=
  if decide (p ∈ disk) then Some (disk ∖ {[p]}) else None.

(** [self.files.pop(0)]: raises on an empty list. *)
Definition pop0 (files : list entry) : option (list entry) :=
  match files with
  | [] => None
  | _ :: rest => Some rest
  end.

(** What one sweep did: the list left in [self.files], the disk after it,
    the entries it popped and the paths it really unlinked, in order. *)
Record Sweep := {
  kept : list entry;
  disk_after : gset path;
  popped : list entry;
  unlinked : list path
}.

(** The loop of [_cleanup] over the snapshot [list(self.files)]; [None] is
    an exception escaping the loop. *)
Fixpoint cleanup_loop (file_lifetime now : Z) (snapshot : list entry) (st : Sweep)
  : option Sweep :=
  match snapshot with
  | [] => Some st
  | (time_added, p) :: rest =>
      if now - time_added >? file_lifetime then
        let exists_p := bool_decide (p ∈ disk_after st) in
        disk' ← (if exists_p then unlink p (disk_after st) else Some (disk_after st));
        files' ← pop0 (kept st);
        cleanup_loop file_lifetime now rest
          {| kept := files'; disk_after := disk';
             popped := popped st ++ [(time_added, p)];
             unlinked := if exists_p then unlinked st ++ [p] else unlinked st |}
      else Some st
  end.

(** [_cleanup(self)], with [now] the value read from [time.time()]. *)
Definition _cleanup (file_lifetime now : Z) (files : list entry) (disk : gset path)
  : option Sweep :=
  cleanup_loop file_lifetime now files
    {| kept := files; disk_after := disk; popped := []; unlinked := [] |}.

(** [add(self, path)]: the sweep reads the clock ([now]), the append reads
    it again ([stamp]). *)
Definition add (file_lifetime now stamp : Z) (p : path)
  (files : list entry) (disk : gset path) : option (list entry * Sweep) :=
  sw ← _cleanup file_lifetime now files disk;
  Some (kept sw ++ [(stamp, p)], sw).

(** A run of the service as seen by the registry: calls of [add], and files
    appearing or disappearing on disk by other hands in between. *)
Inductive op :=
| OpAdd (now stamp : Z) (p : path)
| OpCreate (p : path)
| OpRemove (p : path).

(** One [add] call as recorded by the run. *)
Record CallLog := {
  call_now : Z;               (* the clock read by the sweep *)
  call_before : list entry;   (* self.files when the call starts *)
  call_disk : gset path;      (* the disk when the call starts *)
  call_sweep : Sweep;
  call_after : list entry     (* self.files when the call returns *)
}.

Record World := {
  files : list entry;        (* self.files *)
  disk : gset path;          (* the paths that exist *)
  registered : list entry;   (* every entry ever appended *)
  swept : list entry;        (* every entry ever popped *)
  calls : list CallLog       (* the add calls so far, oldest first *)
}.

Definition init : World :=
  {| files := []; disk := ∅; registered := []; swept := []; calls := [] |}.

Definition step (file_lifetime : Z) (w : World) (o : op) : option World :=
  match o with
  | OpAdd now stamp p =>
      '(files', sw) ← add file_lifetime now stamp p (files w) (disk w);
      Some {| files := files'; disk := disk_after sw;
              registered := registered w ++ [(stamp, p)];
              swept := swept w ++ popped sw;
              calls := calls w ++ [{| call_now := now; call_before := files w;
                                      call_disk := disk w; call_sweep := sw;
                                      call_after := files' |}] |}
  | OpCreate p =>
      Some {| files := files w; disk := disk w ∪ {[p]};
              registered := registered w; swept := swept w; calls := calls w |}
  | OpRemove p =>
      Some {| files := files w; disk := disk w ∖ {[p]};
              registered := registered w; swept := swept w; calls := calls w |}
  end.

Fixpoint run (file_lifetime : Z) (w : World) (ops : list op) : option World :=
  match ops with
  | [] => Some w
  | o :: rest => w' ← step file_lifetime w o; run file_lifetime w' rest
  end.

(** The clock never runs backwards: every reading is at least the one
    before it. *)
Fixpoint well_timed (clock : Z) (ops : list op) : Prop :=
  match ops with
  | [] => True
  | OpAdd now stamp _ :: rest => clock <= now /\ now <= stamp /\ well_timed stamp rest
  | _ :: rest => well_timed clock rest
  end.

Definition expired (file_lifetime now : Z) (e : entry) : bool :=
  now - fst e >? file_lifetime.

(** Non-decreasing registration stamps. *)
Fixpoint sorted_stamps (l : list entry) : Prop :=
  match l with
  | [] => True
  | e :: rest => Forall (fun e' => fst e <= fst e') rest /\ sorted_stamps rest
  end.

(** What one recorded call must satisfy for the sweep to be exact. *)
Definition exact_sweep (file_lifetime : Z) (c : CallLog) : Prop :=
  let sw := call_sweep c in
  call_before c = popped sw ++ kept sw /\
  popped sw = filter (fun e => expired file_lifetime (call_now c) e = true) (call_before c) /\
  kept sw = filter (fun e => expired file_lifetime (call_now c) e = false) (call_before c).

(** What every recorded call satisfies on a run whose clock never runs
    backwards. *)
Definition good_call (file_lifetime : Z) (c : CallLog) : Prop :=
  let sw := call_sweep c in
  sorted_stamps (call_before c) /\
  exact_sweep file_lifetime c /\
  (exists stamp p, call_now c <= stamp /\ call_after c = kept sw ++ [(stamp, p)]) /\
  sorted_stamps (call_after c) /\
  disk_after sw = call_disk c ∖ list_to_set ((popped sw).*2) /\
  (forall p, p ∈ unlinked sw <-> p ∈ (popped sw).*2 /\ p ∈ call_disk c).

(** The registry invariant, [clock] being the last reading of the clock. *)
Definition registry_inv (file_lifetime clock : Z) (w : World) : Prop :=
  sorted_stamps (files w) /\
  Forall (fun e => fst e <= clock) (files w) /\
  registered w = swept w ++ files w /\
  swept w = concat (map (fun c => popped (call_sweep c)) (calls w)) /\
  Forall (good_call file_lifetime) (calls w).

(** What a recorded call guarantees about expiry: unlinking happens only
    on behalf of an expired registration of the same path; young entries
    stay; expired entries are popped and their file is gone afterwards. *)
Definition expiry_respected (file_lifetime : Z) (c : CallLog) : Prop :=
  let sw := call_sweep c in
  let now := call_now c in
  (forall p, p ∈ unlinked sw ->
     p ∈ call_disk c /\ exists T, (T, p) ∈ call_before c /\ now - T > file_lifetime) /\
  (forall p, (forall T, (T, p) ∈ call_before c -> now - T <= file_lifetime) ->
     p ∉ unlinked sw /\ (p ∈ disk_after sw <-> p ∈ call_disk c)) /\
  (forall T p, (T, p) ∈ call_before c -> now - T <= file_lifetime ->
     (T, p) ∈ kept sw /\ (T, p) ∈ call_after c) /\
  (forall T p, (T, p) ∈ call_before c -> now - T > file_lifetime ->
     (T, p) ∈ popped sw /\ (T, p) ∉ kept sw /\ p ∉ disk_after sw /\
     (p ∈ call_disk c -> p ∈ unlinked sw)).

(** The reading of "a file registered at [T] is never unlinked while
    [now - T <= lifetime]" on paths: no call unlinks the path of an entry
    that is registered and still young at that call. *)
Definition never_unlinked_early (file_lifetime : Z) : Prop :=
  forall (clock0 : Z) (ops : list op) (w : World) (c : CallLog) (T : Z) (p : path),
    well_timed clock0 ops ->
    run file_lifetime init ops = Some w ->
    c ∈ calls w ->
    (T, p) ∈ call_before c ->
    call_now c - T <= file_lifetime ->
    p ∉ unlinked (call_sweep c).

(** The clock readings of the sweeps of a run, one per [add]. *)
Fixpoint add_times (ops : list op) : list Z :=
  match ops with
  | [] => []
  | OpAdd now _ _ :: rest => now :: add_times rest
  | _ :: rest => add_times rest
  end.

(** A path registered twice: at 0 and again at 3000; the third call comes
    at 3700. *)
Definition reregistered : list op :=
  [OpCreate "a.wav"; OpAdd 0 0 "a.wav"; OpAdd 3000 3000 "a.wav"; OpAdd 3700 3700 "b.wav"].

(** What a recorded call satisfies whatever the clock does: the sweep pops
    a prefix of the registry, all of it expired, stops at an entry that is
    not expired, and unlinks exactly the popped paths that were on disk. *)
Definition prefix_sweep (file_lifetime : Z) (c : CallLog) : Prop :=
  let sw := call_sweep c in
  call_before c = popped sw ++ kept sw /\
  Forall (fun e => expired file_lifetime (call_now c) e = true) (popped sw) /\
  match kept sw with
  | [] => True
  | e :: _ => expired file_lifetime (call_now c) e = false
  end /\
  (exists stamp p, call_after c = kept sw ++ [(stamp, p)]) /\
  disk_after sw = call_disk c ∖ list_to_set ((popped sw).*2) /\
  (forall p, p ∈ unlinked sw <-> p ∈ (popped sw).*2 /\ p ∈ call_disk c).

End Cleaner.

(** ** Sample preprocessing of [_do_predictions] *)

Module Preprocess.

(** [int(x)] on a float: truncation towards zero. *)
Definition py_trunc (x : Q) : Z :=
  if Qle_bool 0%Q x then Qfloor x else Qceiling x.




Local Open Scope Q_scope.



(** What the preprocessing of a continuation sample leaves behind. *)
Record Prepared (A : Type) := {
  trimmed : list A;          (* sampleM after line 497 *)
  sampleP : option (list A); (* the prepend buffer, [None] when not split *)
  sampleM : list A;          (* the prompt handed to the model *)
  cut_size : Q;
  sample_length : Q;         (* the trimmed length in seconds, also input_length *)
  duration : Q
}.
Arguments trimmed {A}. Arguments sampleP {A}. Arguments sampleM {A}.
Arguments cut_size {A}. Arguments sample_length {A}. Arguments duration {A}.


(** [if trim_start < 0: trim_start = 0] of [predict_full]. *)
Definition clamp_trim (x : Q) : Q := if Qle_bool 0 x then x else 0%Q.

(** What the model returns: a waveform, or a pair when tokens are asked. *)
Inductive ModelOutput (A T : Type) :=
| Wav (w : list A)
| WavTokens (w : list A) (tokens : T).
Arguments Wav {A T}. Arguments WavTokens {A T}.

(** [torch.cat([sampleP, outputs], 2)]: only tensors can be joined. *)
Definition cat_prepend {A T} (sampleP : list A) (outputs : ModelOutput A T)
  : option (list A) :=
  match outputs with
  | Wav w => Some (sampleP ++ w)
  | WavTokens _ _ => None
  end.

Section Continuation.
Context {A T : Type}.
(** The collaborators: resampling to the model rate, and the model. *)
Variable convert_audio : list A -> Z -> Z -> Z -> list A.
Variable model_wav : list A -> Z -> list string -> list A.
Variable model_tokens : list A -> Z -> list string -> T.

(** [MODEL.generate_continuation(prompt, sr, texts, return_tokens=...)]. *)
Definition generate_continuation (prompt : list A) (sr : Z) (texts : list string)
  (return_tokens : bool) : ModelOutput A T :=
  if return_tokens then WavTokens (model_wav prompt sr texts) (model_tokens prompt sr texts)
  else Wav (model_wav prompt sr texts).

Definition target_sr_of (gen_type : string) : Z :=
  if String.eqb gen_type "music" then 32000%Z else 16000%Z.

(** Lines 528-564: the continuation branch, for a prepared sample. *)
Definition continuation_outputs (gen_type : string) (USE_DIFFUSION : bool)
  (globalSR : Z) (texts : list string) (pr : Prepared A)
  : option (ModelOutput A T) :=
  let return_tokens := String.eqb gen_type "music" && USE_DIFFUSION in
  let outputs := generate_continuation (sampleM pr) globalSR texts return_tokens in
  match sampleP pr with
  | None => Some outputs
  | Some sP =>
      let sP := convert_audio sP globalSR (target_sr_of gen_type) 1%Z in
      Wav <$> cat_prepend sP outputs
  end.
End Continuation.

Local Close Scope Q_scope.

Local Open Scope Q_scope.

Local Close Scope Q_scope.

End Preprocess.

(** ** The request handler [predict_full] *)

Module Orchestrator.
Import PyFormat Preprocess.

(** An uploaded audio clip: [(sample_rate, samples)]. *)
Record Audio := { audio_sr : Z; audio_frames : list (list Z) }.

(** The arguments of [predict_full], in the order of its signature. *)
Record Args := {
  gen_type : string;
  model : string;
  decoder : string;
  custom_model : string;
  prompt_amount : Z;
  struc_prompt : bool;
  bpm : Z;
  key : string;
  scale : string;
  global_prompt : string;
  prompts : list string;     (* p0 .. p9 *)
  repeats : list Z;          (* d0 .. d9, after int() *)
  audio : option Audio;
  mode : string;
  trim_start : Q;
  trim_end : Q;
  duration : Z;
  topk : Q;
  topp : Q;
  temperature : Q;
  cfg_coef : Q;
  seed : Z;
  overlap : Z;
  image : option string;
  channel : string;
  sr_select : string;
  instrument : string;
  generate_bg_image : bool
}.

(** How the image side job ends; every failure is swallowed by its
    [try/except] and yields [None]. *)
Inductive ImageOutcome :=
| ImageLoadFails
| ImageGenerationFails
| ImageSaved (png : string).

(** Process-wide state and the answers of the collaborators. *)
Record Env := {
  MODEL_name : option string;   (* MODEL.name, [None] when nothing is loaded *)
  MOVE_TO_CPU : bool;
  max_duration : Z;             (* MODEL.max_duration *)
  image_outcome : ImageOutcome;
  random_seed : Z;              (* random.randint(0, 0xffff_ffff_ffff) *)
  outs : string;                (* the rendered video *)
  outs_audio : string;
  outs_backup : string;
  targets : string * string * string   (* what save_outputs returns *)
}.

(** What the handler does to the world, in order. *)
Inductive event :=
| SetInterrupting (b : bool)
| LoadImagePipeline (model_id : string)
| GenerateImage (prompt : string)
| CreateTempFile (name : string)
| RegisterTempFile (name : string)
| LoadDiffusion
| UnloadDiffusion
| LoadModel (version : string) (custom : option string) (gen : string)
| ModelToCuda
| ManualSeed (seed : Z)
| SetProgressCallback
| DoPredictions (gen : string) (texts : list string)
    (melody sample : option Audio) (trim_start trim_end : Q) (duration : Z)
    (image : option string) (top_k : Z) (top_p temperature cfg_coef : Q)
    (extend_stride : Z)
| SaveOutputs (mp4 wav : string) (seed : Z) (gen : string)
| RemoveFile (name : string).

Inductive error :=
| GrError (msg : string)       (* raise gr.Error(msg) *)
| PyError (kind : string).     (* an uncaught built-in exception *)

(** Computations that log events and may raise. *)
Definition M (A : Type) : Type := list event * (error + A).

Definition ret {A} (x : A) : M A := ([], inr x).

Definition bind {A B} (m : M A) (k : A -> M B) : M B :=
  match m with
  | (log, inl e) => (log, inl e)
  | (log, inr x) => let '(log', r) := k x in (log ++ log', r)
  end.

Definition emit (e : event) : M unit := ([e], inr tt).
Definition raise {A} (e : error) : M A := ([], inl e).

#[export] Instance M_ret : MRet M := @ret.
#[export] Instance M_bind : MBind M := fun A B k m => bind m k.

(** [generate_image_from_prompt(prompt)]. *)
Definition generate_image_from_prompt (env : Env) (prompt : string) : M (option string) :=
  emit (LoadImagePipeline "sd-legacy/stable-diffusion-v1-5") ;;
  match image_outcome env with
  | ImageLoadFails => ret None
  | ImageGenerationFails => emit (GenerateImage prompt) ;; ret None
  | ImageSaved png =>
      emit (GenerateImage prompt) ;;
      emit (CreateTempFile png) ;;
      emit (RegisterTempFile png) ;;
      ret (Some png)
  end.

(** Truthiness of a string. *)
Definition nonempty (s : string) : bool := negb (String.eqb s "").

(** The text between the first ["("] and the next [")"] or ["("]:
    [instrument.split("(")[1].split(")")[0]]. *)
Fixpoint until_paren (s : string) : string :=
  match s with
  | EmptyString => EmptyString
  | String c rest =>
      if Ascii.eqb c "(" || Ascii.eqb c ")" then EmptyString
      else String c (until_paren rest)
  end.

Fixpoint after_open (s : string) : option string :=
  match s with
  | EmptyString => None
  | String c rest => if Ascii.eqb c "(" then Some rest else after_open rest
  end.

Fixpoint has_char (a : ascii) (s : string) : bool :=
  match s with
  | EmptyString => false
  | String c rest => Ascii.eqb c a || has_char a rest
  end.

(** The dropdown entry that stands for "no instrument". *)
Definition no_instrument : string := "无乐器".

Definition instrument_text_of (instrument : string) : string :=
  if String.eqb instrument no_instrument then ""
  else if has_char "(" instrument && has_char ")" instrument
       then match after_open instrument with
            | Some rest => until_paren rest
            | None => instrument
            end
       else instrument.

(** One prompt as sent to the model, for segment text [p]. *)
Definition rendered_prompt (a : Args) (instrument_text p : string) : string :=
  let with_instrument :=
    if nonempty instrument_text && nonempty p
    then p +:+ ", " +:+ instrument_text else p in
  if negb (struc_prompt a) then with_instrument
  else
    let bpm_str :=
      if String.eqb (gen_type a) "music" then py_str_int (bpm a) +:+ " bpm" else "" in
    let key_str :=
      if String.eqb (gen_type a) "music" then ", " +:+ key a +:+ " " +:+ scale a else "" in
    let global_str :=
      if nonempty (global_prompt a)
      then (if String.eqb (gen_type a) "music" then ", " +:+ global_prompt a
            else global_prompt a)
      else "" in
    let texts_str := if nonempty with_instrument then ", " +:+ with_instrument else "" in
    bpm_str +:+ key_str +:+ global_str +:+ texts_str.

(** [for ind2 in range(int(drag_cat[ind]))]: [n] copies. *)
Definition copies {A} (n : Z) (x : A) : list A := replicate (Z.to_nat n) x.

(** The [while ind < prompt_amount] loop, for the segments still to visit:
    the prompts for the model and the raw texts kept for the metadata. *)
Fixpoint assemble (a : Args) (instrument_text : string) (ind : nat) (todo : nat)
  : option (list string * list string) :=
  match todo with
  | O => Some ([], [])
  | S todo' =>
      p ← prompts a !! ind;
      d ← repeats a !! ind;
      '(texts, raw_texts) ← assemble a instrument_text (S ind) todo';
      Some (copies d (rendered_prompt a instrument_text p) ++ texts,
            copies d p ++ raw_texts)
  end.

Definition Result : Type := string * string * string * (string * string * string) * Z.

(** Lines 851-858: the optional background image. *)
Definition maybe_generate_image (env : Env) (a : Args) : M (option string) :=
  if generate_bg_image a && negb (bool_decide (is_Some (image a))) then
    let prompt_to_use :=
      if nonempty (global_prompt a) then global_prompt a
      else default "" (prompts a !! 0%nat) in
    if nonempty prompt_to_use then generate_image_from_prompt env prompt_to_use
    else ret (image a)
  else ret (image a).

(** Lines 867-872: the three checks on the sampling parameters. *)
Definition validate_sampling (a : Args) : M unit :=
  (if Qle_bool 0 (temperature a) then ret tt
   else raise (GrError "Temperature must be >= 0.")) ;;
  (if Qle_bool 0 (topk a) then ret tt
   else raise (GrError "Topk must be non-negative.")) ;;
  (if Qle_bool 0 (topp a) then ret tt
   else raise (GrError "Topp must be non-negative.")).

(** Lines 874-985: everything after the checks.  A generator kind other
    than the two known ones leaves variables unbound; that is reported
    where the model name is first needed. *)
Definition generate (env : Env) (a : Args) (image : option string) : M Result :=
  let is_audio := String.eqb (gen_type a) "audio" in
  let is_music := String.eqb (gen_type a) "music" in
  let custom_model' :=
    if is_audio then None else Some ("models/" +:+ custom_model a) in
  let trim_start := clamp_trim (trim_start a) in
  let trim_end := clamp_trim (trim_end a) in
  let topk := py_trunc (topk a) in
  let USE_DIFFUSION := String.eqb (decoder a) "MultiBand_Diffusion" in
  (if USE_DIFFUSION then emit LoadDiffusion else emit UnloadDiffusion) ;;
  (if is_music || is_audio then ret tt else raise (PyError "UnboundLocalError")) ;;
  let model' :=
    if is_music then "GrandaddyShmax/musicgen-" +:+ model a
    else "GrandaddyShmax/audiogen-" +:+ model a in
  (if bool_decide (MODEL_name env = Some model') then
     (if MOVE_TO_CPU env then emit ModelToCuda else ret tt)
   else emit (LoadModel model' custom_model' (gen_type a))) ;;
  let seed := if seed a <? 0 then random_seed env else seed a in
  emit (ManualSeed seed) ;;
  emit SetProgressCallback ;;
  let sample :=
    match audio a with
    | Some au => if String.eqb (mode a) "sample" then Some au else None
    | None => None
    end in
  let melody :=
    match audio a with
    | Some au =>
        if String.eqb (mode a) "sample" then None
        else if String.eqb (mode a) "melody" then Some au else None
    | None => None
    end in
  match assemble a (instrument_text_of (instrument a)) 0 (Z.to_nat (prompt_amount a)) with
  | None => raise (PyError "IndexError")
  | Some (texts, raw_texts) =>
      emit (DoPredictions (gen_type a) texts melody sample trim_start trim_end
              (duration a) image topk (topp a) (temperature a) (cfg_coef a)
              (max_duration env - overlap a)) ;;
      emit (SaveOutputs (outs env) (outs_audio env) seed (gen_type a)) ;;
      emit (RemoveFile (outs env)) ;;
      emit (RemoveFile (outs_audio env)) ;;
      let '(wav_target, mp4_target, json_target) := targets env in
      ret (mp4_target, wav_target, outs_backup env,
           (mp4_target, wav_target, json_target), seed)
  end.

(** [predict_full(...)]. *)
Definition predict_full (env : Env) (a : Args) : M Result :=
  emit (SetInterrupting false) ;;
  image ← maybe_generate_image env a;
  validate_sampling a ;;
  generate env a image.



(** The same request with other trim bounds. *)
Definition with_trims (a : Args) (ts te : Q) : Args :=
  {| gen_type := gen_type a; model := model a; decoder := decoder a;
     custom_model := custom_model a; prompt_amount := prompt_amount a;
     struc_prompt := struc_prompt a; bpm := bpm a; key := key a; scale := scale a;
     global_prompt := global_prompt a; prompts := prompts a; repeats := repeats a;
     audio := audio a; mode := mode a; trim_start := ts; trim_end := te;
     duration := duration a; topk := topk a; topp := topp a;
     temperature := temperature a; cfg_coef := cfg_coef a; seed := seed a;
     overlap := overlap a; image := image a; channel := channel a;
     sr_select := sr_select a; instrument := instrument a;
     generate_bg_image := generate_bg_image a |}.

(** Whether the request triggers the image side job. *)
Definition wants_image (a : Args) : bool :=
  generate_bg_image a && negb (bool_decide (is_Some (image a))) &&
  nonempty (if nonempty (global_prompt a) then global_prompt a
            else default "" (prompts a !! 0%nat)).

(** The requests whose sampling parameters are refused. *)
Definition invalid_sampling (a : Args) : Prop :=
  (temperature a < 0)%Q \/ (topk a < 0)%Q \/ (topp a < 0)%Q.

(** Events that load a model, run a generation or touch a file: all but
    the reset of the interrupt flag. *)
Definition heavy (e : event) : bool :=
  match e with
  | SetInterrupting _ => false
  | _ => true
  end.

(** "Rejected before any model work and before any side effect". *)
Definition fails_fast (env : Env) (a : Args) : Prop :=
  exists msg, snd (predict_full env a) = inl (GrError msg) /\
              Forall (fun e => heavy e = false) (fst (predict_full env a)).

(** A request with negative sampling temperature that also asks for a
    generated background image. *)
Definition bad_request : Args :=
  {| gen_type := "music"; model := "large"; decoder := "Default";
     custom_model := "my_model"; prompt_amount := 1; struc_prompt := false;
     bpm := 120; key := "C"; scale := "Major"; global_prompt := "";
     prompts := ["lofi piano"; ""; ""; ""; ""; ""; ""; ""; ""; ""];
     repeats := [1; 1; 1; 1; 1; 1; 1; 1; 1; 1];
     audio := None; mode := "sample"; trim_start := 0; trim_end := 0;
     duration := 10; topk := 250; topp := 0; temperature := -1; cfg_coef := 3;
     seed := -1; overlap := 12; image := None; channel := "stereo";
     sr_select := "48000"; instrument := no_instrument;
     generate_bg_image := true |}.

Definition some_env : Env :=
  {| MODEL_name := None; MOVE_TO_CPU := false; max_duration := 30;
     image_outcome := ImageSaved "/tmp/tmpabc.png"; random_seed := 42;
     outs := "BgnJtr4Pn1AJ.mp4"; outs_audio := "/tmp/tmp1.wav";
     outs_backup := "/tmp/tmp2.wav";
     targets := ("output/wav/42.wav", "output/mp4/42.mp4", "output/json/42.json") |}.


(** The prompts an event hands to [_do_predictions]. *)
Definition texts_passed (e : event) : option (list string) :=
  match e with
  | DoPredictions _ texts _ _ _ _ _ _ _ _ _ _ _ => Some texts
  | _ => None
  end.

(** The sampling parameters an event hands to [_do_predictions]:
    [top_k], [top_p] and [temperature]. *)
Definition sampling_passed (e : event) : option (Z * Q * Q) :=
  match e with
  | DoPredictions _ _ _ _ _ _ _ _ top_k top_p temperature _ _ =>
      Some (top_k, top_p, temperature)
  | _ => None
  end.


End Orchestrator.

(** ** Python strings: [repr], [str] of a list, [re.findall] *)

Module PyString.

Definition quote : ascii := "'"%char.
Definition dquote : ascii := "034"%char.
Definition backslash : ascii := "\"%char.
Definition newline : ascii := "010"%char.

(** Hexadecimal digit of a number below 16. *)
Definition hex_digit (n : N) : ascii :=
  (if n <? 10 then ascii_of_N (48 + n) else ascii_of_N (87 + n))%N.

(** One character inside [repr(s)], [q] being the quote chosen for it.
    Bytes above 127 belong to printable non-ASCII characters and are kept. *)
Definition repr_char (q c : ascii) : string :=
  let n := N_of_ascii c in
  if Ascii.eqb c backslash then "\\"
  else if Ascii.eqb c q then String backslash (String q "")
  else if (n =? 9)%N then "\t"
  else if (n =? 10)%N then "\n"
  else if (n =? 13)%N then "\r"
  else if ((n <? 32) || (n =? 127))%N
       then String backslash
              (String "x" (String (hex_digit (n / 16)) (String (hex_digit (n mod 16)) "")))
  else String c "".

Fixpoint repr_body (q : ascii) (s : string) : string :=
  match s with
  | EmptyString => EmptyString
  | String c rest => repr_char q c +:+ repr_body q rest
  end.

Fixpoint contains (a : ascii) (s : string) : bool :=
  match s with
  | EmptyString => false
  | String c rest => Ascii.eqb c a || contains a rest
  end.

(** [repr(s)]: single quotes, unless [s] holds a single quote and no
    double quote. *)
Definition py_repr (s : string) : string :=
  let q := if contains quote s && negb (contains dquote s) then dquote else quote in
  String q (repr_body q s +:+ String q "").

Fixpoint join_items (items : list string) : string :=
  match items with
  | [] => ""
  | [x] => x
  | x :: rest => x +:+ ", " +:+ join_items rest
  end.

(** [str(l)] for a list of strings. *)
Definition py_str_list (l : list string) : string :=
  "[" +:+ join_items (map py_repr l) +:+ "]".

(** [re.findall(r"'(.*?)'", s)]: scanning left to right, the text between
    a quote and the next one, provided no newline lies in between ([.] does
    not match it); [cur] is the text gathered since the opening quote,
    last character first. *)
Fixpoint findall_go (cur : option string) (s : string) : list string :=
  match s with
  | EmptyString => []
  | String c rest =>
      match cur with
      | None =>
          if Ascii.eqb c quote then findall_go (Some "") rest
          else findall_go None rest
      | Some acc =>
          if Ascii.eqb c quote then String.rev acc :: findall_go None rest
          else if Ascii.eqb c newline then findall_go None rest
          else findall_go (Some (String c acc)) rest
      end
  end.

Definition findall_quoted (s : string) : list string := findall_go None s.

(** ASCII white space, as [str.strip] sees it. *)
Definition is_space (c : ascii) : bool :=
  let n := N_of_ascii c in
  ((n =? 32) || ((9 <=? n) && (n <=? 13)) || ((28 <=? n) && (n <=? 31)))%N.

(** Truth value of [elem.strip()]: some character is not white space. *)
Fixpoint strip_truthy (s : string) : bool :=
  match s with
  | EmptyString => false
  | String c rest => negb (is_space c) || strip_truthy rest
  end.



End PyString.

(** ** Persisted metadata: [add_tags] and [info_to_params] *)

Module Metadata.
Import PyFormat PyString Preprocess Orchestrator.

(** [repeat[-1] += 1]: raises on an empty list. *)
Definition bump_last (repeat : list Z) : option (list Z) :=
  match reverse repeat with
  | [] => None
  | r :: front => Some (reverse front ++ [r + 1])
  end.

(** The loop [for elem in s] of the decoder, at index [i] with [rest] the
    elements still to visit. *)
Fixpoint collapse_loop (s : list string) (i : nat) (rest : list string)
  (text : list string) (repeat : list Z) : option (list string * list Z) :=
  match rest with
  | [] => Some (text, repeat)
  | elem :: rest' =>
      if strip_truthy elem then
        if (i =? 0)%nat || negb (String.eqb elem (nth (i - 1) s ""))
        then collapse_loop s (S i) rest' (text ++ [elem]) (repeat ++ [1])
        else repeat' ← bump_last repeat;
             collapse_loop s (S i) rest' text repeat'
      else collapse_loop s (S i) rest' text repeat
  end.

(** [l.extend([x] * (10 - len(l)))]. *)
Definition pad10 {A} (x : A) (l : list A) : list A :=
  l ++ replicate (10 - length l) x.

(** The branch [if 'texts' not in data ... else ...]: the ten texts, the
    ten repeat counts and [unique_prompts]. *)
Definition decode_texts (texts : option string)
  : option (list string * list Z * Z) :=
  match texts with
  | None => Some (replicate 10 "", replicate 10 1, 1)
  | Some s =>
      let s := findall_quoted s in
      '(text, repeat) ← collapse_loop s 0 s [] [];
      let text := pad10 "" text in
      let repeat := pad10 1 repeat in
      let unique_prompts := Z.of_nat (length (filter (fun t => nonempty t = true) text)) in
      Some (take 10 text, take 10 repeat, unique_prompts)
  end.

(** What [info_to_params] returns. *)
Record Params := {
  p_decoder : string;
  p_struc_prompt : bool;
  p_global_prompt : string;
  p_bpm : Z;
  p_key : string;
  p_scale : string;
  p_model : string;
  p_custom_model : option string;
  p_unique_prompts : Z;
  p_text : list string;
  p_repeat : list Z;
  p_audio_mode : string;
  p_duration : Z;
  p_topk : Q;
  p_topp : Q;
  p_temperature : Q;
  p_cfg_coef : Q;
  p_seed : Z;
  p_overlap : Z;
  p_channel : string;
  p_sr_select : string
}.

(** The tuple returned when there is nothing to decode. *)
Definition default_params : Params :=
  {| p_decoder := "Default"; p_struc_prompt := false; p_global_prompt := "";
     p_bpm := 120; p_key := "C"; p_scale := "Major"; p_model := "large";
     p_custom_model := None; p_unique_prompts := 1;
     p_text := replicate 10 ""; p_repeat := replicate 10 1;
     p_audio_mode := "sample"; p_duration := 10; p_topk := 250; p_topp := 0;
     p_temperature := 1; p_cfg_coef := 5; p_seed := -1; p_overlap := 12;
     p_channel := "stereo"; p_sr_select := "48000" |}.

(** What the uploaded file gives the decoder. *)
Inductive Source :=
| NoFile                              (* audio_path is None *)
| Unsupported                         (* not .wav, .mp4 or .json *)
| NoComment                           (* a .wav/.mp4 without COMMENT tag *)
| Data (data : gmap string string).   (* the decoded JSON object *)

Section Codec.
(** The built-ins [int(s)], [float(s)] and [str(x)] for a float. *)
Variable py_int_of : string -> option Z.
Variable py_float_of : string -> option Q.
Variable py_str_float : Q -> string.

(** [f(data[k]) if k in data else d]. *)
Definition field {A} (data : gmap string string) (k : string)
  (f : string -> option A) (d : A) : option A :=
  match data !! k with
  | Some v => f v
  | None => Some d
  end.

Arguments field : simpl never.

Definition unless_none (d : string) (v : string) : option string :=
  Some (if String.eqb v "none" then d else v).

(** [info_to_params(audio_path)]; [folders] is what
    [get_available_folders()] returns, [None] when listing raises. *)
Definition info_to_params (folders : option (list string)) (src : Source)
  : option Params :=
  match src with
  | NoFile | Unsupported | NoComment => Some default_params
  | Data data =>
      struc_prompt ← field data "bpm" (fun v => Some (negb (String.eqb v "none"))) false;
      global_prompt ← field data "global_prompt" Some "";
      bpm ← field data "bpm"
              (fun v => if String.eqb v "none" then Some 120 else py_int_of v) 120;
      key ← field data "key" (unless_none "C") "C";
      scale ← field data "scale" (unless_none "Major") "Major";
      model ← field data "model" Some "large";
      custom_model ← field data "custom_model"
              (fun v => fs ← folders;
                        Some (if bool_decide (v ∈ fs) then Some v else None)) None;
      decoder ← field data "decoder" Some "Default";
      '(text, repeat, unique_prompts) ← decode_texts (data !! "texts");
      audio_mode ← field data "audio_mode" (unless_none "sample") "sample";
      duration ← field data "duration" py_int_of 10;
      topk ← field data "topk" py_float_of 250%Q;
      topp ← field data "topp" py_float_of 0%Q;
      temperature ← field data "temperature" py_float_of 1%Q;
      cfg_coef ← field data "cfg_coef" py_float_of 5%Q;
      seed ← field data "seed" py_int_of (-1);
      overlap ← field data "overlap" py_int_of 12;
      channel ← field data "channel" Some "stereo";
      sr_select ← field data "sr_select" Some "48000";
      Some {| p_decoder := decoder; p_struc_prompt := struc_prompt;
              p_global_prompt := global_prompt; p_bpm := bpm; p_key := key;
              p_scale := scale; p_model := model; p_custom_model := custom_model;
              p_unique_prompts := unique_prompts; p_text := text; p_repeat := repeat;
              p_audio_mode := audio_mode; p_duration := duration; p_topk := topk;
              p_topp := topp; p_temperature := temperature; p_cfg_coef := cfg_coef;
              p_seed := seed; p_overlap := overlap; p_channel := channel;
              p_sr_select := sr_select |}
  end.

(** Whether the body of the prompt loop runs at least once. *)
Definition loop_ran (a : Args) : bool :=
  existsb (fun d => 0 <? d) (take (Z.to_nat (prompt_amount a)) (repeats a)).

(** The dictionary [data] of [add_tags(filename, tags)]; a list of fewer
    than twenty tags raises. *)
Definition add_tags_data (tags : list string) : option (gmap string string) :=
  match tags with
  | [t0; t1; t2; t3; t4; t5; t6; t7; t8; t9;
     t10; t11; t12; t13; t14; t15; t16; t17; t18; t19] =>
      Some (list_to_map
        [("global_prompt", t0); ("bpm", t1); ("key", t2); ("scale", t3);
         ("texts", t4); ("duration", t5); ("overlap", t6); ("seed", t7);
         ("audio_mode", t8); ("input_length", t9); ("channel", t10);
         ("sr_select", t11); ("model", t12); ("custom_model", t13);
         ("decoder", t14); ("topk", t15); ("topp", t16); ("temperature", t17);
         ("cfg_coef", t18); ("generator", t19); ("version", "2.0.1")])
  | _ => None
  end.

(** The [tags] of [predict_full] (line 977), for the seed actually used
    and the [input_length] returned by [_do_predictions]; [None] when the
    prompt loop raises. *)
Definition tags_of (a : Args) (seed_used : Z) (input_length : Q)
  : option (list string) :=
  '(_, raw_texts) ←
     assemble a (instrument_text_of (instrument a)) 0 (Z.to_nat (prompt_amount a));
  let unstructured := negb (struc_prompt a) && loop_ran a in
  let none_or (v : string) := if unstructured then "none" else v in
  let is_music := String.eqb (gen_type a) "music" in
  let model_name :=
    (if is_music then "GrandaddyShmax/musicgen-" else "GrandaddyShmax/audiogen-")
    +:+ model a in
  let custom_model_shrt :=
    if String.eqb model_name "GrandaddyShmax/musicgen-custom"
    then (if is_music then custom_model a else "none") else "none" in
  let audio_mode := match audio a with Some _ => mode a | None => "none" end in
  Some [none_or (global_prompt a); none_or (py_str_int (bpm a)); none_or (key a);
        none_or (scale a); py_str_list raw_texts; py_str_int (duration a);
        py_str_int (overlap a); py_str_int seed_used; audio_mode;
        py_str_float input_length; channel a; sr_select a; model a;
        custom_model_shrt; decoder a; py_str_int (py_trunc (topk a));
        py_str_float (topp a); py_str_float (temperature a);
        py_str_float (cfg_coef a); gen_type a].

(** The record persisted for a request. *)
Definition encode (a : Args) (seed_used : Z) (input_length : Q)
  : option (gmap string string) :=
  tags_of a seed_used input_length ≫= add_tags_data.

End Codec.

(** A key that is present with a value the decoder cannot read: the only
    way for [info_to_params] to raise. *)
Definition rejected_value (py_int_of : string -> option Z)
  (py_float_of : string -> option Q) (folders : option (list string))
  (k v : string) : Prop :=
  (k ∈ ["bpm"; "duration"; "seed"; "overlap"] /\ py_int_of v = None) \/
  (k ∈ ["topk"; "topp"; "temperature"; "cfg_coef"] /\ py_float_of v = None) \/
  (k = "custom_model" /\ folders = None).

(** The defaults substituted for the keys that are missing in [data]. *)
Definition defaults_substituted (data : gmap string string) (r : Params) : Prop :=
  (data !! "bpm" = None -> p_bpm r = 120 /\ p_struc_prompt r = false) /\
  (data !! "decoder" = None -> p_decoder r = "Default") /\
  (data !! "duration" = None -> p_duration r = 10) /\
  (data !! "topk" = None -> p_topk r = 250%Q) /\
  (data !! "topp" = None -> p_topp r = 0%Q) /\
  (data !! "temperature" = None -> p_temperature r = 1%Q) /\
  (data !! "cfg_coef" = None -> p_cfg_coef r = 5%Q) /\
  (data !! "seed" = None -> p_seed r = -1) /\
  (data !! "overlap" = None -> p_overlap r = 12) /\
  (data !! "channel" = None -> p_channel r = "stereo") /\
  (data !! "sr_select" = None -> p_sr_select r = "48000") /\
  (data !! "texts" = None ->
     p_text r = replicate 10 "" /\ p_repeat r = replicate 10 1 /\
     p_unique_prompts r = 1) /\
  (data !! "global_prompt" = None -> p_global_prompt r = "") /\
  (data !! "key" = None -> p_key r = "C") /\
  (data !! "scale" = None -> p_scale r = "Major") /\
  (data !! "model" = None -> p_model r = "large") /\
  (data !! "custom_model" = None -> p_custom_model r = None) /\
  (data !! "audio_mode" = None -> p_audio_mode r = "sample").

(** The prompt segments a request describes: its first [prompt_amount]
    texts with their repeat counts. *)
Definition segments (a : Args) : list (string * Z) :=
  take (Z.to_nat (prompt_amount a)) (zip (prompts a) (repeats a)).

(** [raw_texts] for a list of segments: every text once per repeat. *)
Definition flat (segs : list (string * Z)) : list string :=
  concat (map (fun seg => copies (snd seg) (fst seg)) segs).


(** First binding of a key in an association list. *)
Fixpoint assoc (k : string) (l : list (string * string)) : option string :=
  match l with
  | [] => None
  | (k', v) :: rest => if String.eqb k' k then Some v else assoc k rest
  end.




(** A request whose only prompt holds an apostrophe. *)
Definition apostrophe_request : Args :=
  {| gen_type := "music"; model := "large"; decoder := "Default";
     custom_model := "my_model"; prompt_amount := 1; struc_prompt := false;
     bpm := 120; key := "C"; scale := "Major"; global_prompt := "";
     prompts := ["80's rock"; ""; ""; ""; ""; ""; ""; ""; ""; ""];
     repeats := [2; 1; 1; 1; 1; 1; 1; 1; 1; 1];
     audio := None; mode := "sample"; trim_start := 0; trim_end := 0;
     duration := 10; topk := 250; topp := 0; temperature := 1; cfg_coef := 3;
     seed := 7; overlap := 12; image := None; channel := "stereo";
     sr_select := "48000"; instrument := no_instrument;
     generate_bg_image := false |}.


(** A concrete stand-in for the float built-ins, exact on integers. *)
Definition int_float_of (s : string) : option Q := inject_Z <$> py_int s.
Definition int_str_float (q : Q) : string := py_str_int (Qfloor q).


(** What [info_to_params_a] returns. *)
Record ParamsA := {
  a_decoder : string;
  a_struc_prompt : bool;
  a_global_prompt : string;
  a_unique_prompts : Z;
  a_text : list string;
  a_repeat : list Z;
  a_duration : Z;
  a_topk : Q;
  a_topp : Q;
  a_temperature : Q;
  a_cfg_coef : Q;
  a_seed : Z;
  a_overlap : Z;
  a_channel : string;
  a_sr_select : string
}.

(** The tuple returned when there is nothing to decode. *)
Definition default_params_a : ParamsA :=
  {| a_decoder := "Default"; a_struc_prompt := false; a_global_prompt := "";
     a_unique_prompts := 1; a_text := replicate 10 ""; a_repeat := replicate 10 1;
     a_duration := 10; a_topk := 250; a_topp := 0; a_temperature := 1;
     a_cfg_coef := 5; a_seed := -1; a_overlap := 12; a_channel := "stereo";
     a_sr_select := "48000" |}.

Section CodecA.
Variable py_int_of : string -> option Z.
Variable py_float_of : string -> option Q.

(** [info_to_params_a(audio_path)], the decoder of the audio tab. *)
Definition info_to_params_a (src : Source) : option ParamsA :=
  match src with
  | NoFile | Unsupported | NoComment => Some default_params_a
  | Data data =>
      struc_prompt ← field data "global_prompt"
                       (fun v => Some (negb (String.eqb v ""))) false;
      global_prompt ← field data "global_prompt" Some "";
      decoder ← field data "decoder" Some "Default";
      '(text, repeat, unique_prompts) ← decode_texts (data !! "texts");
      duration ← field data "duration" py_int_of 10;
      topk ← field data "topk" py_float_of 250%Q;
      topp ← field data "topp" py_float_of 0%Q;
      temperature ← field data "temperature" py_float_of 1%Q;
      cfg_coef ← field data "cfg_coef" py_float_of 5%Q;
      seed ← field data "seed" py_int_of (-1);
      overlap ← field data "overlap" py_int_of 12;
      channel ← field data "channel" Some "stereo";
      sr_select ← field data "sr_select" Some "48000";
      Some {| a_decoder := decoder; a_struc_prompt := struc_prompt;
              a_global_prompt := global_prompt;
              a_unique_prompts := unique_prompts; a_text := text; a_repeat := repeat;
              a_duration := duration; a_topk := topk; a_topp := topp;
              a_temperature := temperature; a_cfg_coef := cfg_coef;
              a_seed := seed; a_overlap := overlap; a_channel := channel;
              a_sr_select := sr_select |}
  end.
End CodecA.

(** A record with a global prompt and a printed list of texts. *)
Definition sample_record : gmap string string :=
  list_to_map [("global_prompt", "dreamy"); ("duration", "40");
               ("texts", "['lofi', 'lofi', 'jazz']"); ("seed", "7")].

(** The fields the two decoders have in common hold the same values. *)
Definition same_shared_fields (r : Params) (r' : ParamsA) : Prop :=
  a_decoder r' = p_decoder r /\ a_global_prompt r' = p_global_prompt r /\
  a_unique_prompts r' = p_unique_prompts r /\
  a_text r' = p_text r /\ a_repeat r' = p_repeat r /\
  a_duration r' = p_duration r /\ a_topk r' = p_topk r /\ a_topp r' = p_topp r /\
  a_temperature r' = p_temperature r /\ a_cfg_coef r' = p_cfg_coef r /\
  a_seed r' = p_seed r /\ a_overlap r' = p_overlap r /\
  a_channel r' = p_channel r /\ a_sr_select r' = p_sr_select r.

End Metadata.

(** ** The information panel: [get_audio_info] *)

Module AudioInfo.
Import PyString Metadata.

(** What the uploaded file gives [get_audio_info]: the values of the
    decoded JSON object are taken to be strings, as [add_tags] writes
    them. *)
Inductive InfoSource :=
| InfoNone                                  (* audio_path is None *)
| InfoUnsupported                           (* not .wav, .mp4 or .json *)
| InfoUntagged                              (* a .wav/.mp4 without COMMENT tag *)
| InfoMedia (data : gmap string string)     (* the COMMENT tag of a .wav/.mp4 *)
| InfoJson (data : gmap string string).     (* the content of a .json *)

Definition no_tags_media : string :=
  "No tags found. Either the file is not generated by MusicGen+ V1.2.7 and higher or the tags are corrupted. (Discord removes metadata from mp4 and wav files, so you can't use them)".

Definition no_tags_json : string :=
  "No tags found. Either the file is not generated by MusicGen+ V1.2.7 and higher or the tags are corrupted.".

Definition unsupported : string := "Only .wav ,.mp4 and .json files are supported".

(** ["\n" + label + data[key]] when the key is present, [""] otherwise. *)
Definition info_line (data : gmap string string) (label key : string) : string :=
  match data !! key with
  | Some v => String newline (label +:+ v)
  | None => ""
  end.

(** The text [info] built from the record. *)
Definition info_text (data : gmap string string) : string :=
  let global_prompt :=
    match data !! "global_prompt" with
    | Some v => String newline ("Global Prompt: " +:+ (if String.eqb v "" then "none" else v))
    | None => ""
    end in
  let bpm := info_line data "BPM: " "bpm" in
  let key := info_line data "Key: " "key" in
  let scale := info_line data "Scale: " "scale" in
  let prompts :=
    match data !! "texts" with
    | Some v => String newline ("Prompts: " +:+ (if String.eqb v "['']" then "none" else v))
    | None => ""
    end in
  let duration := info_line data "Duration: " "duration" in
  let overlap := info_line data "Overlap: " "overlap" in
  let seed := info_line data "Seed: " "seed" in
  let audio_mode := info_line data "Audio Mode: " "audio_mode" in
  let input_length := info_line data "Input Length: " "input_length" in
  let channel := info_line data "Channel: " "channel" in
  let sr_select := info_line data "Sample Rate: " "sr_select" in
  let gen_type :=
    match data !! "generator" with
    | Some v => v +:+ "gen-"
    | None => ""
    end in
  let model :=
    match data !! "model" with
    | Some v => String newline ("Model: " +:+ gen_type +:+ v)
    | None => ""
    end in
  let custom_model := info_line data "Custom Model: " "custom_model" in
  let decoder := info_line data "Decoder: " "decoder" in
  let topk := info_line data "Topk: " "topk" in
  let topp := info_line data "Topp: " "topp" in
  let temperature := info_line data "Temperature: " "temperature" in
  let cfg_coef := info_line data "Classifier Free Guidance: " "cfg_coef" in
  let version :=
    match data !! "version" with
    | Some v => "Version: " +:+ v
    | None => "Version: Unknown"
    end in
  version +:+ global_prompt +:+ bpm +:+ key +:+ scale +:+ prompts +:+ duration
    +:+ overlap +:+ seed +:+ audio_mode +:+ input_length +:+ channel +:+ sr_select
    +:+ model +:+ custom_model +:+ decoder +:+ topk +:+ topp +:+ temperature
    +:+ cfg_coef.

(** [get_audio_info(audio_path)]. *)
Definition get_audio_info (src : InfoSource) : option string :=
  match src with
  | InfoNone => None
  | InfoUnsupported => Some unsupported
  | InfoUntagged => Some no_tags_media
  | InfoMedia data =>
      let info := info_text data in
      if String.eqb info "" then Some no_tags_media else Some info
  | InfoJson data =>
      let info := info_text data in
      if String.eqb info "" then Some no_tags_json else Some info
  end.

(** The lines shown for the twenty tags of [add_tags], the version first. *)
Definition shown_tags (t : list string) : string :=
  let tag i := default "" (t !! i) in
  let nl label v := String newline (label +:+ v) in
  "Version: 2.0.1"
  +:+ nl "Global Prompt: " (if String.eqb (tag 0%nat) "" then "none" else tag 0%nat)
  +:+ nl "BPM: " (tag 1%nat) +:+ nl "Key: " (tag 2%nat) +:+ nl "Scale: " (tag 3%nat)
  +:+ nl "Prompts: " (if String.eqb (tag 4%nat) "['']" then "none" else tag 4%nat)
  +:+ nl "Duration: " (tag 5%nat) +:+ nl "Overlap: " (tag 6%nat)
  +:+ nl "Seed: " (tag 7%nat) +:+ nl "Audio Mode: " (tag 8%nat)
  +:+ nl "Input Length: " (tag 9%nat) +:+ nl "Channel: " (tag 10%nat)
  +:+ nl "Sample Rate: " (tag 11%nat)
  +:+ nl "Model: " (tag 19%nat +:+ "gen-" +:+ tag 12%nat)
  +:+ nl "Custom Model: " (tag 13%nat) +:+ nl "Decoder: " (tag 14%nat)
  +:+ nl "Topk: " (tag 15%nat) +:+ nl "Topp: " (tag 16%nat)
  +:+ nl "Temperature: " (tag 17%nat)
  +:+ nl "Classifier Free Guidance: " (tag 18%nat).
End AudioInfo.

(** ** Output persistence: [save_outputs] and [add_tags]

    The file system is a finite map from path names to nodes, with the
    path functions of [posixpath]; a path name stands for one file (no
    links, and a relative name is not another spelling of an absolute
    one).  A directory node is recorded where [os.makedirs] made one; its
    ancestors are not tracked. *)

Module Persistence.
Import PyFormat PyString.

(** [s.replace(old, new)] for a non-empty [old]: the matches are taken
    from left to right and do not overlap; [skip] counts the characters of
    the current match that are still to be passed over. *)
Fixpoint replace_from (old new : string) (skip : nat) (s : string) : string :=
  match s with
  | EmptyString => EmptyString
  | String c rest =>
      match skip with
      | S k => replace_from old new k rest
      | O =>
          if String.prefix old s
          then new +:+ replace_from old new (String.length old - 1) rest
          else String c (replace_from old new 0 rest)
      end
  end.

Definition str_replace (old new s : string) : string := replace_from old new 0 s.

Definition sep : ascii := "/"%char.

Definition starts_with_sep (s : string) : bool :=
  match s with
  | String c _ => Ascii.eqb c sep
  | EmptyString => false
  end.

Fixpoint ends_with_sep (s : string) : bool :=
  match s with
  | EmptyString => false
  | String c EmptyString => Ascii.eqb c sep
  | String _ rest => ends_with_sep rest
  end.

(** One step of [os.path.join(path, b)]. *)
Definition join2 (path b : string) : string :=
  if starts_with_sep b then b
  else match path with
       | EmptyString => b
       | _ => if ends_with_sep path then path +:+ b else path +:+ String sep b
       end.

(** [os.path.join(a, *p)]. *)
Definition path_join (a : string) (p : list string) : string := fold_left join2 p a.

(** [p[:p.rfind('/') + 1]]. *)
Fixpoint head_of (p : string) : string :=
  match p with
  | EmptyString => EmptyString
  | String c rest =>
      match head_of rest with
      | EmptyString => if Ascii.eqb c sep then String c EmptyString else EmptyString
      | h => String c h
      end
  end.

Fixpoint all_sep (s : string) : bool :=
  match s with
  | EmptyString => true
  | String c rest => Ascii.eqb c sep && all_sep rest
  end.

(** [s.rstrip('/')]. *)
Fixpoint rstrip_sep (s : string) : string :=
  match s with
  | EmptyString => EmptyString
  | String c rest =>
      match rstrip_sep rest with
      | EmptyString => if Ascii.eqb c sep then EmptyString else String c EmptyString
      | t => String c t
      end
  end.

(** [os.path.dirname(p)]. *)
Definition dirname (p : string) : string :=
  let head := head_of p in
  match head with
  | EmptyString => head
  | _ => if all_sep head then head else rstrip_sep head
  end.

(** A node of the file system: a directory, or a file with its payload
    and its COMMENT tag. *)
Inductive node :=
| Dir
| File (payload : string) (comment : option string).

Abbreviation fsys := (gmap string node).

Inductive oserror :=
| FileNotFoundError
| FileExistsError
| IsADirectoryError
| SameFileError
| IndexError
| TagError          (* taglib cannot open the file *)
| Unbounded.        (* the name search ran out of steps *)

(** Computations on the file system that may raise; the state reached
    when an exception escapes is kept. *)
Definition IO (A : Type) : Type := fsys -> fsys * (oserror + A).

#[export] Instance IO_ret : MRet IO := fun A x fs => (fs, inr x).
#[export] Instance IO_bind : MBind IO := fun A B k m fs =>
  match m fs with
  | (fs', inl e) => (fs', inl e)
  | (fs', inr x) => k x fs'
  end.

Definition throw {A} (e : oserror) : IO A := fun fs => (fs, inl e).

Definition from_option {A} (e : oserror) (o : option A) : IO A :=
  match o with
  | Some x => mret x
  | None => throw e
  end.

(** [os.path.exists(p)]. *)
Definition path_exists (p : string) : IO bool :=
  fun fs => (fs, inr (bool_decide (is_Some (fs !! p)))).

(** The directory a new file would go to is there; the empty directory
    name is the working directory. *)
Definition has_parent (fs : fsys) (p : string) : bool :=
  match dirname p with
  | EmptyString => true
  | d => match fs !! d with
         | Some Dir => true
         | _ => false
         end
  end.

(** [os.makedirs(p, exist_ok=True)]. *)
Definition makedirs (p : string) : IO unit := fun fs =>
  match fs !! p with
  | Some (File _ _) => (fs, inl FileExistsError)
  | Some Dir => (fs, inr tt)
  | None => (<[p := Dir]> fs, inr tt)
  end.

(** Creating or truncating the file [p] with the given content. *)
Definition write_file (p payload : string) (comment : option string) : IO unit := fun fs =>
  match fs !! p with
  | Some Dir => (fs, inl IsADirectoryError)
  | _ => if has_parent fs p then (<[p := File payload comment]> fs, inr tt)
         else (fs, inl FileNotFoundError)
  end.

(** [shutil.copyfile(src, dst)]. *)
Definition copyfile (src dst : string) : IO unit := fun fs =>
  match fs !! src with
  | Some (File payload comment) =>
      if String.eqb src dst then (fs, inl SameFileError)
      else write_file dst payload comment fs
  | Some Dir => (fs, inl IsADirectoryError)
  | None => (fs, inl FileNotFoundError)
  end.

(** [with taglib.File(p, save_on_exit=True) as song: song.tags = {'COMMENT': value}]. *)
Definition set_comment (p value : string) : IO unit := fun fs =>
  match fs !! p with
  | Some (File payload _) => (<[p := File payload (Some value)]> fs, inr tt)
  | _ => (fs, inl TagError)
  end.

(** [os.remove(p)]. *)
Definition remove (p : string) : IO unit := fun fs =>
  match fs !! p with
  | Some (File _ _) => (delete p fs, inr tt)
  | Some Dir => (fs, inl IsADirectoryError)
  | None => (fs, inl FileNotFoundError)
  end.

(** The dictionary [data] of [add_tags]: the first twenty tags and the
    version; fewer than twenty tags raise. *)
Definition tag_data (tags : list string) : option (gmap string string) :=
  match tags with
  | t0 :: t1 :: t2 :: t3 :: t4 :: t5 :: t6 :: t7 :: t8 :: t9
    :: t10 :: t11 :: t12 :: t13 :: t14 :: t15 :: t16 :: t17 :: t18 :: t19 :: _ =>
      Some (list_to_map
        [("global_prompt", t0); ("bpm", t1); ("key", t2); ("scale", t3);
         ("texts", t4); ("duration", t5); ("overlap", t6); ("seed", t7);
         ("audio_mode", t8); ("input_length", t9); ("channel", t10);
         ("sr_select", t11); ("model", t12); ("custom_model", t13);
         ("decoder", t14); ("topk", t15); ("topp", t16); ("temperature", t17);
         ("cfg_coef", t18); ("generator", t19); ("version", "2.0.1")])
  | _ => None
  end.

Section Save.
(** [json.dumps], the working directory and today's date as
    [strftime("%Y%m%d")] gives it. *)
Variable json_dumps : gmap string string -> string.
Variables (cwd current_date : string).

(** [add_tags(filename, tags)]; returns the name of the JSON file it
    wrote. *)
Definition add_tags (filename : string) (tags : list string) : IO string :=
  data ← from_option IndexError (tag_data tags);
  let json_string := json_dumps data in
  present ← path_exists filename;
  (if present : bool then set_comment filename json_string else mret tt) ;;
  seed_tag ← from_option IndexError (tags !! 7%nat);
  let json_file := seed_tag +:+ ".json" in
  write_file json_file json_string None ;;
  mret json_file.

(** The [while os.path.exists(target)] loop, for at most [fuel] tests. *)
Fixpoint while_exists (fuel : nat) (wav_directory seed_tag target : string)
  (counter : Z) : IO string :=
  match fuel with
  | O => throw Unbounded
  | S fuel' =>
      present ← path_exists target;
      if present : bool then
        let filename := seed_tag +:+ "(" +:+ py_str_int counter +:+ ")" +:+ ".wav" in
        while_exists fuel' wav_directory seed_tag (join2 wav_directory filename)
          (counter + 1)
      else mret target
  end.

Definition output_directory (gen_type kind : string) : string :=
  path_join cwd ["output"; current_date; gen_type; kind].

(** The state after the three [os.makedirs]: nothing that was there has
    changed, and only the three directories can be new. *)
Definition after_makedirs (gen_type : string) (fs fs1 : fsys) : Prop :=
  (forall p, is_Some (fs !! p) -> fs1 !! p = fs !! p) /\
  (forall p, p ∉ [output_directory gen_type "wav"; output_directory gen_type "mp4";
                  output_directory gen_type "json"] ->
             fs1 !! p = fs !! p).

(** Lines 705-711: the search for a free name.  It tests pairwise
    different names, so one test more than there are nodes is enough. *)
Definition find_target (wav_directory seed_tag : string) : IO string := fun fs =>
  let filename := seed_tag +:+ ".wav" in
  let target := join2 wav_directory filename in
  while_exists (S (size fs)) wav_directory seed_tag target 1 fs.

(** Lines 713-732: what is stored once the target is known. *)
Definition store_outputs (mp4 wav_tmp : string) (tags : list string) (target : string)
  : IO (string * string * string) :=
  copyfile wav_tmp target ;;
  json_file ← add_tags target tags;
  let wav_target := target in
  let target := str_replace "wav" "mp4" target in
  let mp4_target := target in
  let mp4 := "./" +:+ mp4 in
  copyfile mp4 target ;;
  _ ← add_tags target tags;
  let target := str_replace "mp4" "json" target in
  let json_target := target in
  write_file target "" None ;;
  copyfile json_file target ;;
  remove json_file ;;
  mret (wav_target, mp4_target, json_target).

(** [save_outputs(mp4, wav_tmp, tags, gen_type)]. *)
Definition save_outputs (mp4 wav_tmp : string) (tags : list string) (gen_type : string)
  : IO (string * string * string) :=
  let wav_directory := output_directory gen_type "wav" in
  let mp4_directory := output_directory gen_type "mp4" in
  let json_directory := output_directory gen_type "json" in
  makedirs wav_directory ;;
  makedirs mp4_directory ;;
  makedirs json_directory ;;
  seed_tag ← from_option IndexError (tags !! 7%nat);
  target ← find_target wav_directory seed_tag;
  store_outputs mp4 wav_tmp tags target.
End Save.

(** What [join2] puts in front of a name that does not start with the
    separator. *)
Definition dir_prefix (path : string) : string :=
  match path with
  | EmptyString => EmptyString
  | _ => if ends_with_sep path then path else path +:+ String sep EmptyString
  end.

(** The characters of a printed integer: digits and the sign. *)
Definition numeric (c : ascii) : bool :=
  let n := N_of_ascii c in ((48 <=? n) && (n <=? 57) || (n =? 45))%N.

Fixpoint all_numeric (s : string) : bool :=
  match s with
  | EmptyString => true
  | String c rest => numeric c && all_numeric rest
  end.

(** The [n]-th name tried for a seed: bare for [n = 0], with ["(n)"]
    after the seed otherwise. *)
Definition suffix (n : Z) : string :=
  if n =? 0 then "" else "(" +:+ py_str_int n +:+ ")".

Definition wav_name (wav_directory seed_tag : string) (n : Z) : string :=
  join2 wav_directory (seed_tag +:+ suffix n +:+ ".wav").

Definition mp4_name (wav_directory seed_tag : string) (n : Z) : string :=
  str_replace "wav" "mp4" (wav_name wav_directory seed_tag n).

Definition json_name (wav_directory seed_tag : string) (n : Z) : string :=
  str_replace "mp4" "json" (mp4_name wav_directory seed_tag n).

(** The computation leaves the node at [p] alone, if there is one. *)
Definition keeps {A} (p : string) (m : IO A) : Prop :=
  forall fs : fsys, is_Some (fs !! p) -> fst (m fs) !! p = fs !! p.

(** Whenever the computation returns, its result satisfies [Q]. *)
Definition yields {A} (m : IO A) (Q : A -> Prop) : Prop :=
  forall (fs fs' : fsys) (x : A), m fs = (fs', inr x) -> Q x.

(** A working directory with a rendered video and a temporary wav file,
    before anything was saved. *)
Definition fresh_disk : fsys :=
  list_to_map [("./BgnJtr4Pn1AJ.mp4", File "video" None);
               ("/tmp/tmp4ermrebs.wav", File "audio" None)].

Definition sample_tags : list string :=
  ["none"; "none"; "none"; "none"; "['lofi']"; "10"; "12"; "195123182343465";
   "none"; "0"; "stereo"; "48000"; "large"; "none"; "Default";
   "250"; "0"; "1.0"; "3.0"; "music"].

(** A stand-in for [json.dumps] that only shows the seed. *)
Definition seed_only (data : gmap string string) : string :=
  "{seed: " +:+ default "" (data !! "seed") +:+ "}".

(** One call for the sample tags, in [/home/u/app] on 2026-11-04. *)
Definition sample_save : IO (string * string * string) :=
  save_outputs seed_only "/home/u/app" "20261104"
    "BgnJtr4Pn1AJ.mp4" "/tmp/tmp4ermrebs.wav" sample_tags "music".

Definition sample_directory : string :=
  output_directory "/home/u/app" "20261104" "music" "wav".

End Persistence.

(** ** The model cache: [load_model]

    A loaded model is an object with an identity: [MODEL] and the entries
    of [MODELS] are references into the list of objects, so that moving
    [MODEL] also moves the cached entry it is.  [get_pretrained] puts a
    new object on the accelerator and [.to(device)] moves an object and
    returns it. *)

Module ModelCache.

Inductive device := Cpu | Cuda.

Record model := {
  family : string;       (* the class: MusicGen or AudioGen *)
  name : string;         (* what get_pretrained was given *)
  placed : device
}.

Inductive pyerror := KeyError | UnboundLocalError.

Record State := {
  objects : list model;               (* every model object made so far *)
  MODEL : option nat;
  MODELS : option (gmap string nat);  (* [None]: the cache is switched off *)
  disk_loads : list (string * string) (* the calls of get_pretrained: class, name *)
}.

Definition custom : string := "GrandaddyShmax/musicgen-custom".

(** [objects[r].to(d)]. *)
Definition move (r : nat) (d : device) (st : State) : State :=
  {| objects := alter (fun m => {| family := family m; name := name m; placed := d |})
                  r (objects st);
     MODEL := MODEL st; MODELS := MODELS st; disk_loads := disk_loads st |}.

(** [cls.get_pretrained(nm)]: the reference of the new object. *)
Definition get_pretrained (cls nm : string) (st : State) : nat * State :=
  (length (objects st),
   {| objects := objects st ++ [{| family := cls; name := nm; placed := Cuda |}];
      MODEL := MODEL st; MODELS := MODELS st;
      disk_loads := disk_loads st ++ [(cls, nm)] |}).

Definition set_MODEL (r : nat) (st : State) : State :=
  {| objects := objects st; MODEL := Some r; MODELS := MODELS st;
     disk_loads := disk_loads st |}.

Definition set_MODELS (cache : gmap string nat) (st : State) : State :=
  {| objects := objects st; MODEL := MODEL st; MODELS := Some cache;
     disk_loads := disk_loads st |}.

(** [load_model(version, custom_model, gen_type)]; the state reached when
    an exception escapes is kept. *)
Definition load_model (version custom_model gen_type : string) (st : State)
  : State * (pyerror + unit) :=
  match MODELS st with
  | None =>
      if String.eqb version custom then
        let '(r, st) := get_pretrained "MusicGen" custom_model st in
        (set_MODEL r st, inr tt)
      else if String.eqb gen_type "music" then
        let '(r, st) := get_pretrained "MusicGen" version st in
        (set_MODEL r st, inr tt)
      else if String.eqb gen_type "audio" then
        let '(r, st) := get_pretrained "AudioGen" version st in
        (set_MODEL r st, inr tt)
      else (st, inr tt)
  | Some cache =>
      let st := match MODEL st with
                | Some r => move r Cpu st
                | None => st
                end in
      if negb (String.eqb version custom) && negb (bool_decide (is_Some (cache !! version)))
      then
        if String.eqb gen_type "music" then
          let '(r, st) := get_pretrained "MusicGen" version st in
          (set_MODEL r (set_MODELS (<[version := r]> cache) st), inr tt)
        else if String.eqb gen_type "audio" then
          let '(r, st) := get_pretrained "AudioGen" version st in
          (set_MODEL r (set_MODELS (<[version := r]> cache) st), inr tt)
        else (st, inl UnboundLocalError)
      else
        match cache !! version with
        | Some r => (set_MODEL r (move r Cuda st), inr tt)
        | None => (st, inl KeyError)
        end
  end.

(** The process as started with [--cache]: nothing loaded, an empty
    cache. *)
Definition started_with_cache : State :=
  {| objects := []; MODEL := None; MODELS := Some ∅; disk_loads := [] |}.

(** One call of [load_model]: version, custom model, generator kind. *)
Definition request : Type := string * string * string.

(** The calls of a run, one after the other; a call that raises leaves
    its state to the next one. *)
Definition serve (st : State) (reqs : list request) : State :=
  fold_left (fun st '(version, custom_model, gen_type) =>
               fst (load_model version custom_model gen_type st)) reqs st.


(** What holds of the cache along a run: every entry is an object loaded
    under the name of its key, whatever sits on the accelerator is the
    current model, the custom model has no entry, and the names loaded
    from disk are the keys of the cache, each loaded once. *)
Definition cache_inv (st : State) : Prop :=
  exists cache : gmap string nat,
    MODELS st = Some cache /\
    (forall v r, cache !! v = Some r ->
       exists m, objects st !! r = Some m /\ name m = v) /\
    (forall r m, objects st !! r = Some m -> placed m = Cuda -> MODEL st = Some r) /\
    cache !! custom = None /\
    NoDup (map snd (disk_loads st)) /\
    (forall v, v ∈ map snd (disk_loads st) <-> is_Some (cache !! v)).

(** Nothing is on the accelerator. *)
Definition all_parked (st : State) : Prop :=
  forall r m, objects st !! r = Some m -> placed m = Cpu.

End ModelCache.

(** ** The rates of the written files: the end of [_do_predictions] and
    [make_pseudo_stereo]

    Of a sound only the rate its samples were made at and the number of
    its channels are kept: played at any other rate it changes speed and
    pitch.  A wav file declares a rate in its header, and that is the rate
    it is played at. *)

Module Output.
Import PyFormat.

Record sound := {
  sampled_at : Q;      (* samples that make one second of the sound *)
  channels : Z
}.

Record wavfile := {
  header : Z;          (* the rate the file declares *)
  content : sound
}.

(** Lines 511-514; on another generator kind the name is unbound. *)
Definition target_sr (gen_type : string) : option Z :=
  if String.eqb gen_type "music" then Some 32000
  else if String.eqb gen_type "audio" then Some 16000
  else None.

(** What the model returns: one channel at [MODEL.sample_rate]. *)
Definition generated (MODEL_sample_rate : Z) : sound :=
  {| sampled_at := inject_Z MODEL_sample_rate; channels := 1 |}.

(** [convert_audio(wav, from_rate, to_rate, to_channels)]: [to_rate]
    samples for every [from_rate] of them. *)
Definition convert_audio (wav : sound) (from_rate to_rate to_channels : Z) : sound :=
  {| sampled_at := (sampled_at wav * inject_Z to_rate / inject_Z from_rate)%Q;
     channels := to_channels |}.

(** [audio_write(name, wav, sample_rate, ...)]. *)
Definition audio_write (wav : sound) (sample_rate : Z) : wavfile :=
  {| header := sample_rate; content := wav |}.

(** [segment.set_frame_rate(rate)] on the segment read from a file. *)
Definition set_frame_rate (f : wavfile) (rate : Z) : wavfile :=
  {| header := rate;
     content := {| sampled_at := (sampled_at (content f) * inject_Z rate
                                  / inject_Z (header f))%Q;
                   channels := channels (content f) |} |}.

(** [make_pseudo_stereo(filename, sr_select, pan, delay)].  Panning gives
    the segment two channels.  The delayed copy is the first channel
    shifted by [int(0.01 * sample_rate)] samples; with a shift of zero
    [waveform[0][:-0]] is empty and [torch.stack] refuses the two rows. *)
Definition make_pseudo_stereo (f : wavfile) (sr_select : string) (pan delay : bool)
  : option wavfile :=
  f ← (if pan then
         temp ← (if negb (String.eqb sr_select "32000")
                 then set_frame_rate f <$> py_int sr_select
                 else Some f);
         Some {| header := header temp;
                 content := {| sampled_at := sampled_at (content temp); channels := 2 |} |}
       else Some f);
  if delay then
    let sample_rate := header f in
    let delay_samples := Qfloor ((1 # 100) * inject_Z sample_rate) in
    if delay_samples =? 0 then None
    else Some {| header := sample_rate;
                 content := {| sampled_at := sampled_at (content f); channels := 2 |} |}
  else Some f.

(** Lines 594-608, for one of the outputs: the file handed to the user. *)
Definition written (MODEL_sample_rate : Z) (gen_type channel sr_select : string)
  : option wavfile :=
  let outputs := generated MODEL_sample_rate in
  outputs ←
    (if String.eqb channel "stereo" then
       from_rate ← target_sr gen_type;
       to_rate ← py_int sr_select;
       Some (convert_audio outputs from_rate to_rate 2)
     else if String.eqb channel "mono" && negb (String.eqb sr_select "32000") then
       from_rate ← target_sr gen_type;
       to_rate ← py_int sr_select;
       Some (convert_audio outputs from_rate to_rate 1)
     else Some outputs);
  if String.eqb channel "stereo effect" then
    make_pseudo_stereo (audio_write outputs MODEL_sample_rate) sr_select true true
  else
    audio_write outputs <$> py_int sr_select.

(** Lines 613-619: the backup, always the model's own output. *)
Definition backup (MODEL_sample_rate : Z) : wavfile :=
  audio_write (generated MODEL_sample_rate) MODEL_sample_rate.

(** The file plays its sound at the speed it was made for. *)
Definition plays_true (f : wavfile) : Prop :=
  (inject_Z (header f) == sampled_at (content f))%Q.

End Output.

(** * Verification *)

Module PyFormatFacts.
Import PyFormat.

Lemma append_assoc (a b c : string) : (a +:+ b) +:+ c = a +:+ (b +:+ c).
Proof. induction a as [|x a IH]; [done|]. change (String x ((a +:+ b) +:+ c) = String x (a +:+ b +:+ c)). by f_equal. Qed.

Lemma to_int_not_nil (z : Z) :
  Z.to_int z <> Decimal.Pos Decimal.Nil /\ Z.to_int z <> Decimal.Neg Decimal.Nil.
Proof.
  destruct z as [|p|p]; cbn; split; try discriminate.
  - intros [= H]. revert H. apply (DecimalPos.Unsigned.to_uint_nonnil p).
  - intros [= H]. revert H. apply (DecimalPos.Unsigned.to_uint_nonnil p).
Qed.

Lemma py_int_str_int (z : Z) : py_int (py_str_int z) = Some z.
Proof.
  unfold py_int, py_str_int.
  destruct (to_int_not_nil z) as [H1 H2].
  rewrite NilZero.isi by assumption. cbn. now rewrite DecimalZ.of_to.
Qed.

Lemma py_str_int_inj (a b : Z) : py_str_int a = py_str_int b -> a = b.
Proof.
  intros H. pose proof (py_int_str_int a) as Ha.
  rewrite H, py_int_str_int in Ha. congruence.
Qed.

End PyFormatFacts.

Module TimingFacts.
Import PyFormat PyFormatFacts Timing.

Section Loop.
Variables (max_time s : Z) (tracks : list Z).

Definition nonneg_on (idx : list nat) : Prop :=
  Forall (fun i => 0 <= nth i tracks 0) idx.

Lemma calc_loop_render time idx :
  calc_loop max_time s tracks time idx
  = map render (window_loop max_time s tracks time idx).
Proof.
  revert time. induction idx as [|i rest IH]; intros time; simpl; [done|].
  destruct (_ || _); simpl; by rewrite IH.
Qed.

Lemma window_loop_length time idx :
  length (window_loop max_time s tracks time idx) = length idx.
Proof.
  revert time. induction idx as [|i rest IH]; intros time; simpl; [done|].
  destruct (_ || _); simpl; by rewrite IH.
Qed.

(** Once the clock sits at [max_time] every further slot is collapsed. *)
Lemma window_loop_collapsed idx :
  nonneg_on idx ->
  window_loop max_time s tracks max_time idx
  = replicate (length idx) (max_time, max_time).
Proof.
  induction 1 as [|i rest Hi _ IH]; simpl; [done|].
  replace (max_time + nth i tracks 0 >=? max_time) with true by lia.
  simpl. by rewrite IH.
Qed.

(** A slot whose window ends at [max_time] leaves the clock there. *)
Lemma window_loop_after_end idx : forall time k j wk wj,
  nonneg_on idx ->
  window_loop max_time s tracks time idx !! k = Some wk ->
  snd wk = max_time -> (k < j)%nat ->
  window_loop max_time s tracks time idx !! j = Some wj ->
  wj = (max_time, max_time).
Proof.
  induction idx as [|i rest IH]; intros time k j wk wj Hnn Hk Hend Hlt Hj;
    simpl in *; [done|].
  apply Forall_cons in Hnn as [Hi Hrest].
  destruct j as [|j]; [lia|].
  destruct k as [|k].
  - destruct ((time + nth i tracks 0 >=? max_time) || (Z.of_nat i =? s)) eqn:Hc;
      simpl in *.
    + rewrite window_loop_collapsed in Hj by done.
      apply lookup_replicate in Hj. by destruct Hj.
    + injection Hk as <-. simpl in Hend.
      apply orb_false_iff in Hc. lia.
  - destruct (_ || _); simpl in *; eapply (IH _ k j); eauto; lia.
Qed.

(** The slot whose index equals [s] always ends at [max_time]. *)
Lemma window_loop_at_s n : forall a time k w,
  s = Z.of_nat (a + k) -> (k < n)%nat ->
  window_loop max_time s tracks time (seq a n) !! k = Some w ->
  snd w = max_time.
Proof.
  induction n as [|n IH]; intros a time k w Hs Hk Hw; [lia|].
  simpl in Hw. destruct k as [|k].
  - replace (Z.of_nat a =? s) with true in Hw by lia.
    rewrite orb_true_r in Hw. simpl in Hw. by injection Hw as <-.
  - destruct (_ || _); simpl in Hw;
      (eapply (IH (S a) _ k); [lia | lia | exact Hw]).
Qed.

(** Every window is well formed and stays below [max_time]. *)
Lemma window_loop_bounds idx : forall time,
  nonneg_on idx -> 0 <= time <= max_time ->
  Forall (fun w => 0 <= fst w <= snd w /\ snd w <= max_time)
         (window_loop max_time s tracks time idx).
Proof.
  induction idx as [|i rest IH]; intros time Hnn Ht; simpl; [constructor|].
  apply Forall_cons in Hnn as [Hi Hrest].
  destruct ((time + nth i tracks 0 >=? max_time) || (Z.of_nat i =? s)) eqn:Hc.
  - constructor; [simpl; lia|]. apply IH; [done|lia].
  - apply orb_false_iff in Hc. constructor; [simpl; lia|]. apply IH; [done|lia].
Qed.
End Loop.

Lemma s2t_ends_at (a b : Z) :
  exists start, s2t a b = start +:+ " - " +:+ mmss b.
Proof.
  unfold s2t, mmss.
  eexists (fmt_02d (a / 60) +:+ ":" +:+ fmt_02d _).
  by rewrite !append_assoc.
Qed.

Lemma lookup_map {A B} (f : A -> B) (l : list A) (i : nat) :
  map f l !! i = f <$> (l !! i).
Proof. revert i. induction l as [|x l IH]; intros [|i]; simpl; auto. Qed.

Section Calc.
Variables (gen_type : string) (s duration overlap : Z).
Variables (d0 d1 d2 d3 d4 d5 d6 d7 d8 d9 : Z).

Let tracks :=
  tracks_of (max_limit_of gen_type) overlap [d0; d1; d2; d3; d4; d5; d6; d7; d8; d9].
Let ws := calc_windows gen_type s duration overlap d0 d1 d2 d3 d4 d5 d6 d7 d8 d9.
Let calc := calc_time gen_type s duration overlap d0 d1 d2 d3 d4 d5 d6 d7 d8 d9.

Lemma calc_time_render : calc = map render ws.
Proof.
  unfold calc, ws, calc_time, calc_windows. cbv zeta.
  destruct (_ || _); cbn [map]; unfold render at 1; cbn [fst snd];
    by rewrite calc_loop_render.
Qed.

Lemma calc_windows_length : length ws = 10%nat.
Proof.
  unfold ws, calc_windows. cbv zeta.
  destruct (_ || _); cbn [length]; by rewrite window_loop_length.
Qed.

Hypothesis Hgen : gen_type = "music" \/ gen_type = "audio".
Hypothesis Hdur : 1 <= duration.
Hypothesis Hov : overlap <= max_limit_of gen_type.
Hypothesis Hd : Forall (fun d => 1 <= d) [d0; d1; d2; d3; d4; d5; d6; d7; d8; d9].

Lemma max_limit_pos : 0 < max_limit_of gen_type.
Proof. destruct Hgen as [-> | ->]; by vm_compute. Qed.

Lemma tracks_nonneg : nonneg_on tracks (seq 1 9).
Proof.
  pose proof max_limit_pos.
  repeat (apply Forall_cons in Hd as [? Hd]).
  unfold nonneg_on, tracks, tracks_of. simpl.
  repeat constructor; nia.
Qed.

Lemma track0_ge : max_limit_of gen_type <= nth 0 tracks 0.
Proof.
  apply Forall_cons in Hd as [? _].
  unfold tracks, tracks_of. simpl. nia.
Qed.

(** The head slot, then the loop started from its end. *)
Lemma calc_windows_split :
  exists t0, 0 <= t0 <= duration /\
    ((t0 = duration) \/ (s - 1 <> 0)) /\
    ws = (0, t0) :: window_loop duration (s - 1) tracks t0 (seq 1 9).
Proof.
  pose proof max_limit_pos. pose proof track0_ge.
  unfold ws, calc_windows. cbv zeta. fold tracks.
  destruct ((nth 0 tracks 0 >=? duration) || (s - 1 =? 0)) eqn:Hc.
  - exists duration. repeat split; [lia|lia|by left].
  - apply orb_false_iff in Hc. exists (nth 0 tracks 0).
    repeat split; [lia|lia|right; lia].
Qed.

Lemma calc_windows_bounds :
  Forall (fun w => 0 <= fst w <= snd w /\ snd w <= duration) ws.
Proof.
  destruct calc_windows_split as (t0 & Ht0 & _ & ->).
  constructor; [simpl; lia|].
  apply window_loop_bounds; [apply tracks_nonneg | lia].
Qed.

(** Once a slot ends at [duration], all later slots are collapsed. *)
Lemma calc_windows_after_end (k j : nat) (wk : Z * Z) :
  ws !! k = Some wk -> snd wk = duration -> (k < j < 10)%nat ->
  ws !! j = Some (duration, duration).
Proof.
  intros Hk Hend Hkj.
  destruct (lookup_lt_is_Some_2 ws j) as [wj Hj];
    [rewrite calc_windows_length; lia|].
  rewrite Hj. f_equal.
  destruct calc_windows_split as (t0 & Ht0 & _ & Hws).
  rewrite Hws in Hk, Hj.
  pose proof tracks_nonneg as Hnn.
  remember (seq 1 9) as idx eqn:Hidx.
  destruct j as [|j]; [lia|]. simpl in Hj.
  destruct k as [|k]; simpl in Hk.
  - injection Hk as <-. simpl in Hend. subst t0.
    rewrite window_loop_collapsed in Hj by exact Hnn.
    apply lookup_replicate in Hj. by destruct Hj.
  - eapply (window_loop_after_end duration (s - 1) tracks idx _ k j);
      eauto. lia.
Qed.

Hypothesis Hs : 1 <= s <= 10.

(** The last active slot, index [s - 1], ends at [duration]. *)
Lemma calc_windows_at_s (w : Z * Z) :
  ws !! Z.to_nat (s - 1) = Some w -> snd w = duration.
Proof.
  destruct calc_windows_split as (t0 & Ht0 & Hor & ->).
  destruct (Z.to_nat (s - 1)) as [|k] eqn:Hk.
  - intros [= <-]. simpl. destruct Hor; [done|lia].
  - change (window_loop duration (s - 1) tracks t0 (seq 1 9) !! k = Some w ->
            snd w = duration).
    apply window_loop_at_s; lia.
Qed.

Lemma calc_windows_from_s (j : nat) :
  s <= Z.of_nat j < 10 -> ws !! j = Some (duration, duration).
Proof.
  intros Hj.
  destruct (lookup_lt_is_Some_2 ws (Z.to_nat (s - 1))) as [w Hw];
    [rewrite calc_windows_length; lia|].
  eapply calc_windows_after_end; [exact Hw | by apply calc_windows_at_s | lia].
Qed.

Lemma calc_windows_last :
  exists t, 0 <= t <= duration /\ ws !! 9%nat = Some (t, duration).
Proof.
  destruct (decide (s = 10)) as [Heq|Hne].
  - destruct (lookup_lt_is_Some_2 ws 9) as [[a b] Hw];
      [rewrite calc_windows_length; lia|].
    assert (Hb : snd (a, b) = duration).
    { apply calc_windows_at_s. by replace (Z.to_nat (s - 1)) with 9%nat by lia. }
    simpl in Hb. rewrite Hb in Hw.
    pose proof calc_windows_bounds as Hall.
    rewrite Forall_lookup in Hall. specialize (Hall _ _ Hw). simpl in Hall.
    exists a. split; [lia|done].
  - exists duration. split; [lia|]. apply calc_windows_from_s. lia.
Qed.
End Calc.

(** C1.  For either generator kind, a duration of at least one second, an
    overlap not above the first-segment capacity, a prompt count between 1
    and 10 and repeat counts of at least 1, the tenth string returned by
    [calc_time] renders a window that ends exactly at [duration]; a slot
    that follows one whose window reached [duration], and every slot whose
    index has reached the prompt count, reports the collapsed window
    [duration, duration]. *)
Theorem calc_time_last_window_ends_at_duration
  (gen_type : string) (s duration overlap : Z) (d0 d1 d2 d3 d4 d5 d6 d7 d8 d9 : Z) :
  gen_type = "music" \/ gen_type = "audio" ->
  1 <= duration ->
  overlap <= max_limit_of gen_type ->
  1 <= s <= 10 ->
  Forall (fun d => 1 <= d) [d0; d1; d2; d3; d4; d5; d6; d7; d8; d9] ->
  let calc := calc_time gen_type s duration overlap d0 d1 d2 d3 d4 d5 d6 d7 d8 d9 in
  let ws := calc_windows gen_type s duration overlap d0 d1 d2 d3 d4 d5 d6 d7 d8 d9 in
  calc = map render ws /\ length calc = 10%nat /\
  (exists t start, 0 <= t <= duration /\
     ws !! 9%nat = Some (t, duration) /\
     calc !! 9%nat = Some (s2t t duration) /\
     s2t t duration = start +:+ " - " +:+ mmss duration) /\
  (forall (k j : nat) (wk : Z * Z),
     ws !! k = Some wk -> snd wk = duration -> (k < j < 10)%nat ->
     ws !! j = Some (duration, duration) /\
     calc !! j = Some (s2t duration duration)) /\
  (forall j : nat, s <= Z.of_nat j < 10 ->
     ws !! j = Some (duration, duration) /\
     calc !! j = Some (s2t duration duration)).
Proof.
  intros Hgen Hdur Hov Hs Hd calc ws.
  assert (Hr : calc = map render ws) by apply calc_time_render.
  assert (Hlook : forall j w, ws !! j = Some w -> calc !! j = Some (render w)).
  { intros j w Hw. by rewrite Hr, lookup_map, Hw. }
  split; [exact Hr|]. split.
  { rewrite Hr, length_map. apply calc_windows_length. }
  split; [|split].
  - destruct (calc_windows_last gen_type s duration overlap
                d0 d1 d2 d3 d4 d5 d6 d7 d8 d9 Hgen Hdur Hov Hd Hs) as (t & Ht & Hw).
    destruct (s2t_ends_at t duration) as [start Hstart].
    exists t, start. repeat split; try lia; try done.
    exact (Hlook _ _ Hw).
  - intros k j wk Hk Hend Hkj.
    pose proof (calc_windows_after_end gen_type s duration overlap
                  d0 d1 d2 d3 d4 d5 d6 d7 d8 d9 Hgen Hdur Hov Hd k j wk Hk Hend Hkj) as Hj.
    split; [exact Hj | exact (Hlook _ _ Hj)].
  - intros j Hj.
    pose proof (calc_windows_from_s gen_type s duration overlap
                  d0 d1 d2 d3 d4 d5 d6 d7 d8 d9 Hgen Hdur Hov Hd Hs j Hj) as Hw.
    split; [exact Hw | exact (Hlook _ _ Hw)].
Qed.

Lemma calc_time_last_window_witness :
  let calc := calc_time "music" 3 100 12 1 2 1 1 1 1 1 1 1 1 in
  calc !! 9%nat = Some "01:40 - 01:40" /\
  exists t start, 0 <= t <= 100 /\ calc !! 9%nat = Some (s2t t 100) /\
                  s2t t 100 = start +:+ " - " +:+ mmss 100.
Proof.
  split; [reflexivity|].
  destruct (calc_time_last_window_ends_at_duration "music" 3 100 12 1 2 1 1 1 1 1 1 1 1)
    as (_ & _ & (t & start & Ht & _ & Hc & Hs) & _).
  - by left.
  - lia.
  - vm_compute. discriminate.
  - lia.
  - repeat constructor; lia.
  - exists t, start. auto.
Defined.

(** ** The audio scenario: duration 10, overlap 2, repeats 3,1,...,1 *)

Lemma scenario_windows_eq (s : Z) :
  scenario_windows s = (0, 10) :: replicate 9 (10, 10).
Proof. reflexivity. Qed.

Lemma scenario_calc_eq (s : Z) :
  scenario_calc s = "00:00 - 00:10" :: replicate 9 "00:10 - 00:10".
Proof. reflexivity. Qed.

(** C8, as stated, fails: whatever the prompt count, the ten windows of the
    scenario never contain four distinct ones. *)
Lemma scenario_not_four_windows :
  ~ (exists s : Z,
       length (remove_dups (scenario_windows s)) = 4%nat
       \/ length (remove_dups (scenario_calc s)) = 4%nat).
Proof.
  intros [s [H | H]].
  - rewrite scenario_windows_eq in H. vm_compute in H. discriminate.
  - rewrite scenario_calc_eq in H. vm_compute in H. discriminate.
Qed.

(** C8 (amended).  For the audio generator with duration 10, overlap 2 and
    repeat counts 3,1,1,1,1,1,1,1,1,1, whatever the prompt count, the ten
    reported windows are [0,10] followed by nine times [10,10]: exactly two
    distinct windows, none starting before an earlier one ends, the tenth
    being [10,10]. *)
Theorem scenario_two_windows (s : Z) :
  scenario_calc s = "00:00 - 00:10" :: replicate 9 "00:10 - 00:10" /\
  scenario_calc s = map render (scenario_windows s) /\
  remove_dups (scenario_windows s) = [(0, 10); (10, 10)] /\
  length (remove_dups (scenario_calc s)) = 2%nat /\
  scenario_windows s !! 9%nat = Some (10, 10) /\
  scenario_calc s !! 9%nat = Some (s2t 10 10) /\
  (forall (i j : nat) (wi wj : Z * Z),
     (i < j)%nat -> scenario_windows s !! i = Some wi ->
     scenario_windows s !! j = Some wj -> snd wi <= fst wj).
Proof.
  rewrite scenario_calc_eq, scenario_windows_eq.
  repeat split; try reflexivity.
  intros i j wi wj Hij Hi Hj.
  assert (Hj' : wj = (10, 10)).
  { destruct j as [|j]; [lia|].
    change (replicate 9 (10, 10) !! j = Some wj) in Hj.
    apply lookup_replicate in Hj. by destruct Hj. }
  subst wj. simpl.
  destruct i as [|i].
  - injection Hi as <-. simpl. lia.
  - change (replicate 9 (10, 10) !! i = Some wi) in Hi.
    apply lookup_replicate in Hi. destruct Hi as [-> _]. simpl. lia.
Qed.

Lemma window_loop_contiguous (max_time s : Z) (tracks : list Z) (idx : list nat) :
  forall time, contiguous time (window_loop max_time s tracks time idx).
Proof.
  induction idx as [|i idx IH]; intros time; [done|].
  cbn [window_loop]. case_match; cbn [contiguous fst snd]; split; auto.
Qed.

Lemma contiguous_covered (ws : list (Z * Z)) : forall start,
  contiguous start ws ->
  covered ws = default start (snd <$> last ws) - start.
Proof.
  induction ws as [|w ws IH]; intros start Hc; [simpl; unfold covered; simpl; lia|].
  destruct Hc as [Hw Hc]. unfold covered in *. cbn [foldr].
  rewrite (IH _ Hc). destruct ws as [|w' ws]; [simpl; lia|].
  change (last (w :: w' :: ws)) with (last (w' :: ws)).
  destruct (last (w' :: ws)) as [e|] eqn:E; [simpl; lia|].
  by apply last_None in E.
Qed.

(** X1.  The ten windows of [calc_time] tile the requested duration: the
    first starts at 0, every later one starts at the second the one before
    it ends, none runs backwards or past [duration], and their lengths add
    up to [duration]. *)
Theorem calc_time_windows_tile
  (gen_type : string) (s duration overlap : Z) (d0 d1 d2 d3 d4 d5 d6 d7 d8 d9 : Z) :
  gen_type = "music" \/ gen_type = "audio" ->
  1 <= duration ->
  overlap <= max_limit_of gen_type ->
  1 <= s <= 10 ->
  Forall (fun d => 1 <= d) [d0; d1; d2; d3; d4; d5; d6; d7; d8; d9] ->
  let ws := calc_windows gen_type s duration overlap d0 d1 d2 d3 d4 d5 d6 d7 d8 d9 in
  calc_time gen_type s duration overlap d0 d1 d2 d3 d4 d5 d6 d7 d8 d9 = map render ws /\
  contiguous 0 ws /\
  Forall (fun w => 0 <= fst w <= snd w /\ snd w <= duration) ws /\
  covered ws = duration.
Proof.
  intros Hgen Hdur Hov Hs Hd ws.
  split; [apply calc_time_render|].
  assert (Hc : contiguous 0 ws).
  { subst ws. unfold calc_windows. case_match; cbn [contiguous fst snd];
      (split; [done|apply window_loop_contiguous]). }
  split; [exact Hc|].
  split; [by apply calc_windows_bounds|].
  rewrite (contiguous_covered ws 0 Hc).
  destruct (calc_windows_last gen_type s duration overlap d0 d1 d2 d3 d4 d5 d6 d7 d8 d9
              Hgen Hdur Hov Hd Hs) as (t & _ & Hlast).
  fold ws in Hlast.
  rewrite last_lookup.
  replace (pred (length ws)) with 9%nat
    by (subst ws; by rewrite calc_windows_length).
  rewrite Hlast. simpl. lia.
Qed.

Lemma calc_time_windows_tile_witness :
  let ws := calc_windows "music" 3 100 12 1 2 1 1 1 1 1 1 1 1 in
  ws = [(0, 30); (30, 66); (66, 100); (100, 100); (100, 100); (100, 100);
        (100, 100); (100, 100); (100, 100); (100, 100)] /\
  contiguous 0 ws /\ covered ws = 100.
Proof.
  intros ws.
  destruct (calc_time_windows_tile "music" 3 100 12 1 2 1 1 1 1 1 1 1 1)
    as (_ & Hc & _ & Hsum).
  - by left.
  - lia.
  - vm_compute. discriminate.
  - lia.
  - repeat constructor; lia.
  - split; [reflexivity|]. split; [exact Hc|exact Hsum].
Defined.

End TimingFacts.

Module CleanerFacts.
Import Cleaner.

Section Sweep.
Variables (file_lifetime now : Z).

Local Abbreviation is_expired := (fun e : entry => expired file_lifetime now e = true).
Local Abbreviation is_young := (fun e : entry => expired file_lifetime now e = false).

(** The loop pops a prefix of the snapshot, unlinking what is on disk, and
    stops in front of the first young entry; it never raises. *)
Lemma cleanup_loop_spec (snapshot : list entry) : forall st : Sweep,
  kept st = snapshot ->
  exists st' pre,
    cleanup_loop file_lifetime now snapshot st = Some st' /\
    snapshot = pre ++ kept st' /\
    popped st' = popped st ++ pre /\
    Forall is_expired pre /\
    match kept st' with [] => True | e :: _ => expired file_lifetime now e = false end /\
    disk_after st' = disk_after st ∖ list_to_set (pre.*2) /\
    (forall p, p ∈ unlinked st' <->
               p ∈ unlinked st \/ (p ∈ pre.*2 /\ p ∈ disk_after st)).
Proof.
  induction snapshot as [|[t p] rest IH]; intros st Hk.
  - exists st, []. simpl. rewrite Hk, app_nil_r.
    split; [done|]. split; [done|]. split; [done|]. split; [constructor|].
    split; [done|]. clear. split; set_solver.
  - simpl. destruct (now - t >? file_lifetime) eqn:Hexp.
    + set (st1 := {| kept := rest;
                     disk_after := disk_after st ∖ {[p]};
                     popped := popped st ++ [(t, p)];
                     unlinked := if bool_decide (p ∈ disk_after st)
                                 then unlinked st ++ [p] else unlinked st |}).
      destruct (IH st1 eq_refl)
        as (st' & pre & Hrun & Hsplit & Hpop & Hall & Hhd & Hdisk & Hunl).
      exists st', ((t, p) :: pre).
      split.
      { rewrite Hk. unfold unlink. simpl.
        destruct (decide (p ∈ disk_after st)) as [Hin|Hout].
        - rewrite (bool_decide_eq_true_2 _ Hin). simpl.
          rewrite <- Hrun. unfold st1.
          by rewrite (bool_decide_eq_true_2 _ Hin).
        - rewrite (bool_decide_eq_false_2 _ Hout). simpl.
          rewrite <- Hrun. unfold st1.
          rewrite (bool_decide_eq_false_2 _ Hout).
          by replace (disk_after st ∖ {[p]}) with (disk_after st) by (clear -Hout; set_solver). }
      split; [simpl; by rewrite <- Hsplit|].
      split; [rewrite Hpop; simpl; by rewrite <- app_assoc|].
      split; [constructor; [exact Hexp|done]|].
      split; [done|].
      split.
      { rewrite Hdisk. simpl. clear. set_solver. }
      intros q. rewrite Hunl. simpl. unfold st1. simpl.
      rewrite elem_of_cons, elem_of_difference, elem_of_singleton.
      destruct (decide (p ∈ disk_after st)) as [Hin|Hout].
      * rewrite (bool_decide_eq_true_2 _ Hin).
        rewrite elem_of_app, list_elem_of_singleton.
        clear -Hin. destruct (decide (q = p)); naive_solver.
      * rewrite (bool_decide_eq_false_2 _ Hout).
        clear -Hout. destruct (decide (q = p)); naive_solver.
    + exists st, []. simpl. rewrite Hk, app_nil_r.
      split; [done|]. split; [done|]. split; [done|]. split; [constructor|].
      split; [exact Hexp|]. clear. split; set_solver.
Qed.

Lemma cleanup_spec (fl : list entry) (dk : gset path) :
  exists sw,
    _cleanup file_lifetime now fl dk = Some sw /\
    fl = popped sw ++ kept sw /\
    Forall is_expired (popped sw) /\
    match kept sw with [] => True | e :: _ => expired file_lifetime now e = false end /\
    disk_after sw = dk ∖ list_to_set ((popped sw).*2) /\
    (forall p, p ∈ unlinked sw <-> p ∈ (popped sw).*2 /\ p ∈ dk).
Proof.
  unfold _cleanup.
  edestruct (cleanup_loop_spec fl
               {| kept := fl; disk_after := dk; popped := []; unlinked := [] |})
    as (st' & pre & Hrun & Hsplit & Hpop & Hall & Hhd & Hdisk & Hunl); [done|].
  simpl in *. subst pre. exists st'. repeat split; auto.
  - apply Hunl in H. set_solver.
  - apply Hunl in H. set_solver.
  - intros [? ?]. apply Hunl. auto.
Qed.

(** On a list sorted by stamp, a young head makes everything young. *)
Lemma sorted_young_head (e : entry) (l : list entry) :
  sorted_stamps (e :: l) -> expired file_lifetime now e = false ->
  Forall is_young (e :: l).
Proof.
  intros [Hle _] He. constructor; [done|].
  eapply Forall_impl; [exact Hle|]. intros e' Hee'. simpl in Hee'.
  unfold expired in *. lia.
Qed.

Lemma sorted_app_r (l1 l2 : list entry) :
  sorted_stamps (l1 ++ l2) -> sorted_stamps l2.
Proof.
  induction l1 as [|e l1 IH]; simpl; [done|]. intros [_ H]. auto.
Qed.

Lemma filter_all {A} (P : A -> Prop) `{!forall x, Decision (P x)} (l : list A) :
  Forall P l -> filter P l = l.
Proof.
  induction 1 as [|x l Hx _ IH]; [done|].
  rewrite filter_cons_True by done. by rewrite IH.
Qed.

Lemma filter_none {A} (P : A -> Prop) `{!forall x, Decision (P x)} (l : list A) :
  Forall (fun x => ~ P x) l -> filter P l = [].
Proof.
  induction 1 as [|x l Hx _ IH]; [done|].
  by rewrite filter_cons_False.
Qed.

(** With sorted stamps the early exit loses nothing: the popped prefix is
    exactly the expired entries and what is kept exactly the young ones. *)
Lemma cleanup_exact (fl : list entry) (dk : gset path) (sw : Sweep) :
  sorted_stamps fl ->
  _cleanup file_lifetime now fl dk = Some sw ->
  popped sw = filter is_expired fl /\ kept sw = filter is_young fl /\
  Forall is_young (kept sw).
Proof.
  intros Hsorted Hrun.
  destruct (cleanup_spec fl dk) as (sw' & Hrun' & Hsplit & Hexp & Hhd & _).
  rewrite Hrun in Hrun'. injection Hrun' as <-.
  assert (Hyoung : Forall is_young (kept sw)).
  { destruct (kept sw) as [|e l] eqn:Hk; [constructor|].
    apply sorted_young_head; [|done].
    rewrite Hsplit in Hsorted. by apply sorted_app_r in Hsorted. }
  rewrite Hsplit at 1 2. rewrite !filter_app.
  rewrite (filter_all is_expired (popped sw)) by done.
  rewrite (filter_none is_expired (kept sw)).
  2:{ eapply Forall_impl; [exact Hyoung|]. intros e He. simpl in *. congruence. }
  rewrite (filter_none is_young (popped sw)).
  2:{ eapply Forall_impl; [exact Hexp|]. intros e He. simpl in *. congruence. }
  rewrite (filter_all is_young (kept sw)) by done.
  by rewrite app_nil_r.
Qed.
End Sweep.

Section Run.
Variable file_lifetime : Z.

Lemma sorted_snoc (l : list entry) (e : entry) :
  sorted_stamps l -> Forall (fun e' => fst e' <= fst e) l -> sorted_stamps (l ++ [e]).
Proof.
  induction l as [|x l IH]; simpl; [by repeat constructor|].
  intros [Hx Hl] Hle. apply Forall_cons in Hle as [Hxe Hle]. split.
  - apply Forall_app. split; [done|]. by repeat constructor.
  - auto.
Qed.

Lemma registry_inv_init (clock : Z) : registry_inv file_lifetime clock init.
Proof. unfold registry_inv, init; simpl. repeat split; constructor. Qed.

Lemma registry_inv_mono (clock clock' : Z) (w : World) :
  clock <= clock' -> registry_inv file_lifetime clock w ->
  registry_inv file_lifetime clock' w.
Proof.
  intros Hle (Hs & Hc & Hr & Hsw & Hcalls). repeat split; auto.
  eapply Forall_impl; [exact Hc|]. intros e He. simpl in He. lia.
Qed.

(** [add] never raises and re-establishes the invariant. *)
Lemma step_add_inv (w : World) (clock now stamp : Z) (p : path) :
  registry_inv file_lifetime clock w -> clock <= now -> now <= stamp ->
  exists w', step file_lifetime w (OpAdd now stamp p) = Some w' /\
             registry_inv file_lifetime stamp w'.
Proof.
  intros (Hs & Hc & Hr & Hsw & Hcalls) Hnow Hstamp.
  destruct (cleanup_spec file_lifetime now (files w) (disk w))
    as (sw & Hrun & Hsplit & Hexp & Hhd & Hdisk & Hunl).
  destruct (cleanup_exact file_lifetime now (files w) (disk w) sw Hs Hrun)
    as (Hpop & Hkept & Hyoung).
  assert (Hks : sorted_stamps (kept sw)).
  { rewrite Hsplit in Hs. by apply sorted_app_r in Hs. }
  assert (Hkc : Forall (fun e => fst e <= stamp) (kept sw)).
  { rewrite Hsplit in Hc. apply Forall_app in Hc as [_ Hc].
    eapply Forall_impl; [exact Hc|]. intros e He. simpl in He. lia. }
  assert (Hafter : sorted_stamps (kept sw ++ [(stamp, p)])).
  { by apply sorted_snoc. }
  eexists. split.
  { simpl. unfold add. rewrite Hrun. simpl. reflexivity. }
  unfold registry_inv. simpl. split; [done|]. split.
  { apply Forall_app. split; [done|]. repeat constructor. simpl. lia. }
  split.
  { rewrite Hr. rewrite Hsplit at 1. by rewrite <- !app_assoc. }
  split.
  { rewrite map_app, concat_app, Hsw. simpl. by rewrite app_nil_r. }
  apply Forall_app. split; [done|]. constructor; [|constructor].
  unfold good_call, exact_sweep. simpl.
  split; [done|]. split; [done|]. split; [by exists stamp, p|].
  split; [done|]. split; [done|]. exact Hunl.
Qed.

(** No well-timed run raises, and every state it reaches satisfies the
    invariant. *)
Lemma run_inv (ops : list op) : forall (w : World) (clock : Z),
  registry_inv file_lifetime clock w -> well_timed clock ops ->
  exists w' clock', run file_lifetime w ops = Some w' /\
                    registry_inv file_lifetime clock' w'.
Proof.
  induction ops as [|o ops IH]; intros w clock Hinv Hwt.
  - exists w, clock. by split.
  - destruct o as [now stamp p|p|p].
    + destruct Hwt as (Hnow & Hstamp & Hwt).
      destruct (step_add_inv w clock now stamp p Hinv Hnow Hstamp) as (w1 & Hstep & Hinv1).
      destruct (IH w1 stamp Hinv1 Hwt) as (w' & clock' & Hrun & Hinv').
      exists w', clock'. split; [|done].
      change (run file_lifetime w (OpAdd now stamp p :: ops))
        with (step file_lifetime w (OpAdd now stamp p) ≫= fun w' => run file_lifetime w' ops).
      by rewrite Hstep.
    + simpl. apply (IH _ clock); [exact Hinv|exact Hwt].
    + simpl. apply (IH _ clock); [exact Hinv|exact Hwt].
Qed.
End Run.

Lemma run_calls (file_lifetime : Z) (ops : list op) : forall w w' : World,
  run file_lifetime w ops = Some w' ->
  map call_now (calls w') = map call_now (calls w) ++ add_times ops.
Proof.
  induction ops as [|o ops IH]; intros w w' Hrun; simpl in Hrun.
  - injection Hrun as <-. by rewrite app_nil_r.
  - destruct (step file_lifetime w o) as [w1|] eqn:Hstep; [|done].
    simpl in Hrun. rewrite (IH _ _ Hrun).
    destruct o as [now stamp p|p|p]; simpl in Hstep.
    + destruct (add file_lifetime now stamp p (files w) (disk w)) as [[f sw]|];
        [|done].
      simpl in Hstep. injection Hstep as <-. simpl.
      by rewrite map_app, <- app_assoc.
    + by injection Hstep as <-.
    + by injection Hstep as <-.
Qed.



Lemma expired_true (file_lifetime now : Z) (e : entry) :
  expired file_lifetime now e = true <-> now - fst e > file_lifetime.
Proof. unfold expired. lia. Qed.

Lemma expired_false (file_lifetime now : Z) (e : entry) :
  expired file_lifetime now e = false <-> now - fst e <= file_lifetime.
Proof. unfold expired. lia. Qed.

Lemma good_call_expiry (file_lifetime : Z) (c : CallLog) :
  good_call file_lifetime c -> expiry_respected file_lifetime c.
Proof.
  intros (_ & (Hsplit & Hpop & Hkept) & (stamp & q & _ & Hafter) & _ & Hdisk & Hunl).
  assert (Hpopped : forall T p, (T, p) ∈ popped (call_sweep c) <->
            (T, p) ∈ call_before c /\ call_now c - T > file_lifetime).
  { intros T p. rewrite Hpop, list_elem_of_filter, expired_true. simpl. tauto. }
  assert (Hkeptin : forall T p, (T, p) ∈ kept (call_sweep c) <->
            (T, p) ∈ call_before c /\ call_now c - T <= file_lifetime).
  { intros T p. rewrite Hkept, list_elem_of_filter, expired_false. simpl. tauto. }
  assert (Hpaths : forall p, p ∈ (popped (call_sweep c)).*2 <->
            exists T, (T, p) ∈ call_before c /\ call_now c - T > file_lifetime).
  { intros p. rewrite list_elem_of_fmap. split.
    - intros [[T p'] [-> Hin]]. exists T. by apply Hpopped.
    - intros [T HT]. exists (T, p). split; [done|]. by apply Hpopped. }
  unfold expiry_respected. cbv zeta. split; [|split; [|split]].
  - intros p Hp. apply Hunl in Hp as [Hp Hd]. split; [done|]. by apply Hpaths.
  - intros p Hyoung.
    assert (Hnot : p ∉ (popped (call_sweep c)).*2).
    { intros Hp. apply Hpaths in Hp as (T & Hin & Hexp).
      specialize (Hyoung T Hin). lia. }
    split.
    + intros Hp. apply Hunl in Hp as [Hp _]. done.
    + rewrite Hdisk, elem_of_difference, elem_of_list_to_set. tauto.
  - intros T p Hin Hy. assert ((T, p) ∈ kept (call_sweep c)) by by apply Hkeptin.
    split; [done|]. rewrite Hafter, elem_of_app. by left.
  - intros T p Hin Hexp. split; [by apply Hpopped|]. split.
    { intros Hk. apply Hkeptin in Hk as [_ Hk]. lia. }
    assert (Hp : p ∈ (popped (call_sweep c)).*2) by (apply Hpaths; eauto).
    split.
    + rewrite Hdisk, elem_of_difference, elem_of_list_to_set. tauto.
    + intros Hd. apply Hunl. done.
Qed.

(** C2, as stated on paths, fails: a path registered again before its first
    registration expires is unlinked when the first one expires, although
    its second registration is still young. *)
Lemma reregistered_unlinked_early : ~ never_unlinked_early 3600.
Proof.
  intros Hclaim.
  set (sw := {| kept := [(3000, "a.wav")]; disk_after := ∅;
                popped := [(0, "a.wav")]; unlinked := ["a.wav"] |}).
  set (c := {| call_now := 3700;
               call_before := [(0, "a.wav"); (3000, "a.wav")];
               call_disk := {["a.wav"]};
               call_sweep := sw;
               call_after := [(3000, "a.wav"); (3700, "b.wav")] |}).
  destruct (run 3600 init reregistered) as [w|] eqn:Hrun; [|by vm_compute in Hrun].
  assert (Hc : calls w !! 2%nat = Some c).
  { vm_compute in Hrun. injection Hrun as <-. reflexivity. }
  apply (Hclaim 0 reregistered w c 3000 "a.wav").
  - simpl. lia.
  - exact Hrun.
  - by eapply list_elem_of_lookup_2.
  - simpl. set_solver.
  - simpl. lia.
  - simpl. set_solver.
Qed.

(** C2 (amended).  On every run whose clock never runs backwards no call
    raises; a call at time [now] unlinks a path only if that path exists and
    has a registration [T] with [now - T > lifetime], so a path all of whose
    registrations are young is left alone; a young entry stays registered;
    an entry with [now - T > lifetime] is popped during the call and its file
    does not exist afterwards; and the entries ever popped followed by those
    still registered are exactly the entries ever registered, so none is
    popped twice. *)
Theorem registry_expiry (file_lifetime clock0 : Z) (ops : list op) :
  well_timed clock0 ops ->
  exists w : World,
    run file_lifetime init ops = Some w /\
    map call_now (calls w) = add_times ops /\
    registered w = swept w ++ files w /\
    swept w = concat (map (fun c => popped (call_sweep c)) (calls w)) /\
    Forall (expiry_respected file_lifetime) (calls w).
Proof.
  intros Hwt.
  destruct (run_inv file_lifetime ops init clock0 (registry_inv_init _ _) Hwt)
    as (w & clock' & Hrun & _ & _ & Hreg & Hsw & Hcalls).
  exists w. split; [done|]. split.
  { by rewrite (run_calls _ _ _ _ Hrun). }
  split; [done|]. split; [done|].
  eapply Forall_impl; [exact Hcalls|]. apply good_call_expiry.
Qed.

Lemma registry_expiry_witness :
  exists w : World,
    run 3600 init reregistered = Some w /\
    registered w = [(0, "a.wav"); (3000, "a.wav"); (3700, "b.wav")] /\
    swept w = [(0, "a.wav")] /\
    Forall (expiry_respected 3600) (calls w).
Proof.
  destruct (registry_expiry 3600 0 reregistered) as (w & Hrun & _ & _ & _ & Hc).
  - simpl. lia.
  - exists w. split; [done|].
    assert (Hrun' := Hrun). vm_compute in Hrun'. injection Hrun' as <-.
    split; [reflexivity|]. split; [reflexivity|]. exact Hc.
Defined.

Lemma run_any_clock (file_lifetime : Z) (ops : list op) : forall w : World,
  registered w = swept w ++ files w ->
  Forall (prefix_sweep file_lifetime) (calls w) ->
  exists w', run file_lifetime w ops = Some w' /\
    registered w' = swept w' ++ files w' /\
    Forall (prefix_sweep file_lifetime) (calls w') /\
    map call_now (calls w') = map call_now (calls w) ++ add_times ops.
Proof.
  induction ops as [|o ops IH]; intros w Hreg Hcalls.
  { exists w. by rewrite app_nil_r. }
  destruct o as [now stamp p|p|p]; cbn [run step add_times].
  - destruct (cleanup_spec file_lifetime now (files w) (disk w))
      as (sw & Hsw & Hsplit & Hexp & Hhead & Hdisk & Hunl).
    unfold add. rewrite Hsw. cbn.
    edestruct IH as (w' & Hrun & Hreg' & Hcalls' & Htimes); [| |exists w'; split; [exact Hrun|]].
    + cbn. rewrite Hreg, Hsplit. by rewrite !app_assoc.
    + cbn. apply Forall_app. split; [exact Hcalls|].
      apply Forall_singleton. unfold prefix_sweep. cbn.
      split; [exact Hsplit|]. split; [exact Hexp|]. split; [exact Hhead|].
      split; [by exists stamp, p|]. split; [exact Hdisk|exact Hunl].
    + split; [exact Hreg'|]. split; [exact Hcalls'|].
      rewrite Htimes. cbn. rewrite map_app. cbn. by rewrite <- app_assoc.
  - destruct (IH {| files := files w; disk := disk w ∪ {[p]};
                    registered := registered w; swept := swept w;
                    calls := calls w |} Hreg Hcalls) as (w' & Hrun & H');
      by exists w'.
  - destruct (IH {| files := files w; disk := disk w ∖ {[p]};
                    registered := registered w; swept := swept w;
                    calls := calls w |} Hreg Hcalls) as (w' & Hrun & H');
      by exists w'.
Qed.

(** X2.  Whatever the clock readings are, and whatever appears on or
    vanishes from the disk between the calls, [FileCleaner.add] never
    raises: every sweep pops a prefix of the registry made of expired
    entries only, stops at the first entry that is not expired, and
    unlinks exactly the popped paths that exist; every entry ever
    registered is still registered or was popped, in registration order. *)
Theorem add_never_raises (file_lifetime : Z) (ops : list op) :
  exists w : World,
    run file_lifetime init ops = Some w /\
    registered w = swept w ++ files w /\
    map call_now (calls w) = add_times ops /\
    Forall (prefix_sweep file_lifetime) (calls w).
Proof.
  destruct (run_any_clock file_lifetime ops init) as (w & Hrun & Hreg & Hcalls & Ht);
    [done|constructor|].
  exists w. by repeat split.
Qed.

End CleanerFacts.

Module PreprocessFacts.
Import Preprocess.







Lemma py_trunc_nonneg (x : Q) : (0 <= x)%Q -> py_trunc x = Qfloor x.
Proof. intros H. unfold py_trunc. by rewrite (proj2 (Qle_bool_iff 0 x) H). Qed.



#[export] Instance py_trunc_comp : Proper (Qeq ==> eq) py_trunc.
Proof.
  intros x y Hxy. unfold py_trunc.
  rewrite (Qleb_comp 0%Q 0%Q (Qeq_refl 0%Q) x y Hxy).
  by rewrite (Qfloor_comp x y Hxy), (Qceiling_comp x y Hxy).
Qed.






Section Trims.
Variables (globalSR n : Z).
Hypothesis HSR : 0 < globalSR.
Hypothesis Hn : 0 < n.






End Trims.




Section Split.
Context {A : Type}.
Variables (gen_type : string) (globalSR : Z) (frames : list A) (ts te dur : Q).
Hypothesis Hgen : gen_type = "music" \/ gen_type = "audio".
Hypothesis HSR : 0 < globalSR.
Hypothesis Hts : (0 <= ts)%Q.
Hypothesis Hte : (0 <= te)%Q.


End Split.


(** With the diffusion decoder the music model returns a pair, which
    [torch.cat] refuses: the prepend path raises. *)
Lemma continuation_outputs_tokens_fail {A T}
  (convert_audio : list A -> Z -> Z -> Z -> list A)
  (model_wav : list A -> Z -> list string -> list A)
  (model_tokens : list A -> Z -> list string -> T)
  (globalSR : Z) (texts : list string) (pr : Prepared A) (P : list A) :
  sampleP pr = Some P ->
  continuation_outputs convert_audio model_wav model_tokens "music" true
    globalSR texts pr = None.
Proof.
  intros HP. unfold continuation_outputs, generate_continuation.
  rewrite HP. reflexivity.
Qed.








End PreprocessFacts.

Module OrchestratorFacts.
Import Preprocess PreprocessFacts Orchestrator.

Lemma bind_inl {A B} (log : list event) (e : error) (k : A -> M B) :
  ((log, inl e) : M A) ≫= k = (log, inl e).
Proof. reflexivity. Qed.

Lemma log_bind {A B} (P : event -> Prop) (m : M A) (k : A -> M B) :
  Forall P (fst m) -> (forall x, Forall P (fst (k x))) -> Forall P (fst (m ≫= k)).
Proof.
  intros Hm Hk. destruct m as [log [e|x]]; simpl in *; [done|].
  specialize (Hk x). unfold mbind, M_bind, bind.
  destruct (k x) as [log' r]. simpl in *. by apply Forall_app.
Qed.

(** The image side job only logs events of its own and never raises. *)
Lemma maybe_generate_image_ok (env : Env) (a : Args) :
  exists log img, maybe_generate_image env a = (log, inr img) /\
    (wants_image a = false -> log = [] /\ img = image a) /\
    (wants_image a = true ->
       exists rest, log = LoadImagePipeline "sd-legacy/stable-diffusion-v1-5" :: rest).
Proof.
  unfold maybe_generate_image, wants_image.
  destruct (generate_bg_image a && negb (bool_decide (is_Some (image a)))); simpl.
  2:{ eexists _, _. split; [reflexivity|]. split; [done|discriminate]. }
  destruct (nonempty _); simpl.
  2:{ eexists _, _. split; [reflexivity|]. split; [done|discriminate]. }
  unfold generate_image_from_prompt.
  destruct (image_outcome env); eexists _, _;
    (split; [reflexivity|]); (split; [discriminate|]); intros _; eexists; reflexivity.
Qed.

Lemma validate_sampling_invalid (a : Args) :
  invalid_sampling a -> exists msg, validate_sampling a = ([], inl (GrError msg)).
Proof.
  intros Hbad. unfold validate_sampling.
  destruct (Qle_bool 0 (temperature a)) eqn:E1; [|eexists; reflexivity].
  destruct (Qle_bool 0 (topk a)) eqn:E2; [|eexists; reflexivity].
  destruct (Qle_bool 0 (topp a)) eqn:E3; [|eexists; reflexivity].
  apply Qle_bool_iff in E1, E2, E3. exfalso.
  destruct Hbad as [H|[H|H]]; revert H; by apply Qle_not_lt.
Qed.

Lemma validate_sampling_log (a : Args) : fst (validate_sampling a) = [].
Proof.
  unfold validate_sampling.
  destruct (Qle_bool 0 (temperature a)); [|done].
  destruct (Qle_bool 0 (topk a)); [|done].
  by destruct (Qle_bool 0 (topp a)).
Qed.

(** Invalid sampling parameters are always refused with a validation
    error, and nothing of the generation itself has run by then: the log
    holds the reset of the interrupt flag and the image side job only. *)
Lemma invalid_sampling_rejected (env : Env) (a : Args) :
  invalid_sampling a ->
  exists msg log,
    predict_full env a = (SetInterrupting false :: log, inl (GrError msg)) /\
    (wants_image a = false -> log = []) /\
    (wants_image a = true ->
       exists rest, log = LoadImagePipeline "sd-legacy/stable-diffusion-v1-5" :: rest).
Proof.
  intros Hbad.
  destruct (maybe_generate_image_ok env a) as (log & img & Himg & Hno & Hyes).
  destruct (validate_sampling_invalid a Hbad) as [msg Hval].
  exists msg, log. unfold predict_full. rewrite Himg, Hval. simpl.
  rewrite app_nil_r. split; [done|]. split; [|done].
  intros H. by destruct (Hno H).
Qed.

(** Without the image side job the claim of C3 holds. *)
Lemma fails_fast_without_image (env : Env) (a : Args) :
  invalid_sampling a -> wants_image a = false -> fails_fast env a.
Proof.
  intros Hbad Hno.
  destruct (invalid_sampling_rejected env a Hbad) as (msg & log & Hrun & Hlog & _).
  rewrite (Hlog Hno) in Hrun. exists msg. rewrite Hrun. simpl.
  split; [done|]. by repeat constructor.
Qed.

(** C3 at the failing input: a request with temperature -1 that asks for a
    generated background image loads the image pipeline, generates and
    saves an image and registers the file before the validation error is
    raised. *)
Theorem bad_request_runs_image_job_first :
  predict_full some_env bad_request
  = ([SetInterrupting false;
      LoadImagePipeline "sd-legacy/stable-diffusion-v1-5";
      GenerateImage "lofi piano";
      CreateTempFile "/tmp/tmpabc.png";
      RegisterTempFile "/tmp/tmpabc.png"],
     inl (GrError "Temperature must be >= 0."))
  /\ invalid_sampling bad_request
  /\ ~ fails_fast some_env bad_request.
Proof.
  split; [reflexivity|]. split; [left; reflexivity|].
  intros (msg & _ & Hall). vm_compute in Hall.
  apply Forall_cons in Hall as [_ Hall]. apply Forall_cons in Hall as [H _].
  discriminate.
Qed.




Lemma assemble_with_trims (a : Args) (ts te : Q) (it : string) (todo : nat) :
  forall ind, assemble (with_trims a ts te) it ind todo = assemble a it ind todo.
Proof.
  induction todo as [|todo IH]; intros ind; [done|].
  simpl. by rewrite IH.
Qed.





Lemma validate_sampling_passes (a : Args) :
  snd (validate_sampling a) = inr tt ->
  (0 <= temperature a)%Q /\ (0 <= topk a)%Q /\ (0 <= topp a)%Q.
Proof.
  unfold validate_sampling.
  destruct (Qle_bool 0 (temperature a)) eqn:E1; [|discriminate].
  destruct (Qle_bool 0 (topk a)) eqn:E2; [|discriminate].
  destruct (Qle_bool 0 (topp a)) eqn:E3; [|discriminate].
  intros _. by apply Qle_bool_iff in E1, E2, E3.
Qed.




Lemma log_bind_ok {A B} (P : event -> Prop) (m : M A) (k : A -> M B) :
  Forall P (fst m) -> (forall x, snd m = inr x -> Forall P (fst (k x))) ->
  Forall P (fst (m ≫= k)).
Proof.
  intros Hm Hk. destruct m as [log [e|x]]; simpl in *; [done|].
  specialize (Hk x eq_refl). unfold mbind, M_bind, bind.
  destruct (k x) as [log' r]. simpl in *. by apply Forall_app.
Qed.


Lemma py_trunc_sign (x : Q) : (0 <= x)%Q -> 0 <= py_trunc x.
Proof.
  intros H. rewrite py_trunc_nonneg by done.
  change 0 with (Qfloor 0). by apply Qfloor_resp_le.
Qed.

Ltac sampling_leaf :=
  repeat case_match; simpl;
  repeat (apply List.Forall_cons; [by (intros ? ? ? [=]) |]);
  apply List.Forall_nil.

(** X5.  No generation ever runs with a negative sampling parameter: every
    call of [_do_predictions] made by [predict_full] carries the request's
    top-k truncated to an integer, its top-p and its temperature, and all
    three are non-negative. *)
Theorem sampling_checked_before_generation (env : Env) (a : Args) :
  Forall (fun ev => forall (k : Z) (p t : Q),
            sampling_passed ev = Some (k, p, t) ->
            k = py_trunc (topk a) /\ 0 <= k /\
            p = topp a /\ (0 <= p)%Q /\
            t = temperature a /\ (0 <= t)%Q)
         (fst (predict_full env a)).
Proof.
  unfold predict_full.
  apply log_bind; [sampling_leaf|intros ?].
  apply log_bind.
  { unfold maybe_generate_image, generate_image_from_prompt. sampling_leaf. }
  intros img. apply log_bind_ok; [rewrite validate_sampling_log; constructor|].
  intros [] Hv. destruct (validate_sampling_passes a Hv) as (Ht & Hk & Hp).
  unfold generate.
  repeat (apply log_bind; [sampling_leaf|intros ?]).
  destruct (assemble _ _ _ _) as [[texts raw]|]; [|constructor].
  apply log_bind.
  { apply List.Forall_cons; [|constructor]. intros k p t [= <- <- <-].
    repeat split; try done. by apply py_trunc_sign. }
  intros ?. repeat (apply log_bind; [sampling_leaf|intros ?]).
  destruct (targets env) as [[? ?] ?]. constructor.
Qed.

Lemma has_char_app (c : ascii) (s t : string) :
  has_char c (s +:+ t) = has_char c s || has_char c t.
Proof.
  induction s as [|x s IH]; [done|].
  change (String x s +:+ t) with (String x (s +:+ t)). cbn [has_char].
  by rewrite IH, orb_assoc.
Qed.

Lemma after_open_app (pre rest : string) :
  has_char "(" pre = false -> after_open (pre +:+ String "(" rest) = Some rest.
Proof.
  induction pre as [|x pre IH]; [done|].
  cbn [has_char]. intros [Hx Hpre]%orb_false_iff.
  change (String x pre +:+ String "(" rest) with (String x (pre +:+ String "(" rest)).
  cbn [after_open]. rewrite Hx. by apply IH.
Qed.

Lemma until_paren_app (mid post : string) :
  has_char "(" mid = false -> has_char ")" mid = false ->
  until_paren (mid +:+ String ")" post) = mid.
Proof.
  induction mid as [|x mid IH]; [done|].
  cbn [has_char]. intros [Hx Ho]%orb_false_iff [Hy Hc]%orb_false_iff.
  change (String x mid +:+ String ")" post) with (String x (mid +:+ String ")" post)).
  cbn [until_paren]. rewrite Hx, Hy. cbn. by rewrite IH.
Qed.

(** X6.  For a dropdown entry of the form [name(english)rest], the text
    added to the prompts is exactly [english]: what stands between the
    first opening parenthesis and the closing one. *)
Theorem instrument_text_between_parentheses (name english rest : string) :
  has_char "(" name = false ->
  has_char "(" english = false -> has_char ")" english = false ->
  instrument_text_of (name +:+ String "(" (english +:+ String ")" rest)) = english.
Proof.
  intros Hname Ho Hc. unfold instrument_text_of.
  set (instrument := name +:+ String "(" (english +:+ String ")" rest)).
  assert (Hopen : has_char "(" instrument = true).
  { unfold instrument. rewrite has_char_app. cbn. by rewrite orb_true_r. }
  assert (Hclose : has_char ")" instrument = true).
  { unfold instrument. rewrite has_char_app. cbn [has_char].
    rewrite has_char_app. cbn. by rewrite !orb_true_r. }
  destruct (String.eqb_spec instrument no_instrument) as [Heq|_].
  { rewrite Heq in Hopen. vm_compute in Hopen. discriminate. }
  rewrite Hopen, Hclose. cbn [andb]. unfold instrument.
  rewrite after_open_app by done. by apply until_paren_app.
Qed.

Lemma instrument_text_between_parentheses_witness :
  instrument_text_of "钢琴(piano)" = "piano".
Proof.
  apply (instrument_text_between_parentheses "钢琴" "piano" ""); reflexivity.
Defined.

End OrchestratorFacts.

Module PyStringFacts.
Import PyFormatFacts PyString.

Lemma append_cons (c : ascii) (s t : string) :
  String c s +:+ t = String c (s +:+ t).
Proof. reflexivity. Qed.

Lemma append_nil_l (t : string) : "" +:+ t = t.
Proof. reflexivity. Qed.












End PyStringFacts.

Module MetadataFacts.
Import PyFormat PyFormatFacts PyString Preprocess Orchestrator Metadata.

Lemma field_missing {A} (data : gmap string string) (k : string)
  (f : string -> option A) (d x : A) :
  field data k f d = Some x -> data !! k = None -> x = d.
Proof. unfold field. intros H E. rewrite E in H. congruence. Qed.

Lemma field_raises {A} (data : gmap string string) (k : string)
  (f : string -> option A) (d : A) :
  field data k f d = None -> exists v, data !! k = Some v /\ f v = None.
Proof. unfold field. destruct (data !! k) as [v|]; [eauto|done]. Qed.

(** [repeat[-1] += 1] is never reached with an empty list: a prompt equal
    to its non-blank predecessor comes after an append. *)
Lemma collapse_loop_total (s : list string) (rest : list string) :
  forall (seen : list string) (text : list string) (repeat : list Z),
    s = seen ++ rest ->
    (repeat <> [] \/ Forall (fun e => strip_truthy e = false) seen) ->
    is_Some (collapse_loop s (length seen) rest text repeat).
Proof.
  induction rest as [|elem rest IH]; intros seen text repeat Hs Hinv; simpl; [done|].
  assert (Hs' : s = (seen ++ [elem]) ++ rest) by by rewrite <- app_assoc.
  assert (Hlen : S (length seen) = length (seen ++ [elem])).
  { rewrite length_app. simpl. lia. }
  destruct (strip_truthy elem) eqn:Ht.
  - destruct ((length seen =? 0)%nat || negb (String.eqb elem (nth (length seen - 1) s "")))
      eqn:Hc.
    + rewrite Hlen. apply IH; [done|]. left. by destruct repeat.
    + apply orb_false_iff in Hc as [Hz Heq].
      apply Nat.eqb_neq in Hz. apply negb_false_iff, String.eqb_eq in Heq.
      assert (Hne : repeat <> []).
      { destruct Hinv as [|Hall]; [done|]. exfalso.
        destruct (lookup_lt_is_Some_2 seen (length seen - 1)) as [e He]; [lia|].
        assert (nth (length seen - 1) s "" = e) as Hnth.
        { rewrite Hs. apply nth_lookup_Some with (d := ""). by rewrite lookup_app_l by lia. }
        rewrite Forall_lookup in Hall. specialize (Hall _ _ He). simpl in Hall.
        congruence. }
      unfold bump_last. destruct (reverse repeat) as [|r front] eqn:Hr.
      { apply (f_equal reverse) in Hr. rewrite reverse_involutive in Hr. done. }
      simpl. rewrite Hlen. apply IH; [done|]. left. by destruct (reverse front).
  - rewrite Hlen. apply IH; [done|].
    destruct Hinv as [|Hall]; [by left|right].
    apply Forall_app. split; [done|]. by repeat constructor.
Qed.

Lemma decode_texts_total (texts : option string) : is_Some (decode_texts texts).
Proof.
  destruct texts as [s|]; simpl; [|done].
  destruct (collapse_loop_total (findall_quoted s) (findall_quoted s) [] [] [] eq_refl)
    as [[text repeat] H]; [right; constructor|].
  simpl in H. rewrite H. done.
Qed.

Section Decoder.
Variable py_int_of : string -> option Z.
Variable py_float_of : string -> option Q.
Variable folders : option (list string).

Local Abbreviation decode := (info_to_params py_int_of py_float_of folders).

(** Peel the first [field] (or the texts) off a chain of binds in [H]. *)
Ltac peel H x E :=
  match type of H with
  | (?m ≫= _) = _ => destruct m as [x|] eqn:E; simpl in H; [|discriminate H]
  end.

Lemma info_to_params_defaults (data : gmap string string) (r : Params) :
  decode (Data data) = Some r -> defaults_substituted data r.
Proof.
  intros H. unfold info_to_params in H.
  peel H v1 E1. peel H v2 E2. peel H v3 E3. peel H v4 E4. peel H v5 E5.
  peel H v6 E6. peel H v7 E7. peel H v8 E8. peel H v9 E9.
  destruct v9 as [[text repeat] uniq]. simpl in H.
  peel H v10 E10. peel H v11 E11. peel H v12 E12. peel H v13 E13.
  peel H v14 E14. peel H v15 E15. peel H v16 E16. peel H v17 E17.
  peel H v18 E18. peel H v19 E19.
  injection H as <-. unfold defaults_substituted. simpl.
  repeat match goal with |- _ /\ _ => split end; intros Hk;
    try (rewrite Hk in E9; simpl in E9; injection E9 as <- <- <-);
    repeat match goal with |- _ /\ _ => split end;
    try reflexivity; eapply field_missing; eassumption.
Qed.

Lemma info_to_params_raises (data : gmap string string) :
  decode (Data data) = None ->
  exists k v, data !! k = Some v /\ rejected_value py_int_of py_float_of folders k v.
Proof.
  unfold info_to_params, rejected_value.
  destruct (field data "bpm" _ false) as [struc|] eqn:E1; simpl.
  2:{ apply field_raises in E1 as (v & _ & [=]). }
  destruct (field data "global_prompt" _ _) as [gp|] eqn:E2; simpl.
  2:{ apply field_raises in E2 as (v & _ & [=]). }
  destruct (field data "bpm" _ 120) as [bpm|] eqn:E3; simpl.
  2:{ apply field_raises in E3 as (v & Hv & Hf). exists "bpm", v. split; [done|].
      left. split; [set_solver|]. by destruct (String.eqb v "none"). }
  destruct (field data "key" _ _) as [key|] eqn:E4; simpl.
  2:{ apply field_raises in E4 as (v & _ & [=]). }
  destruct (field data "scale" _ _) as [scale|] eqn:E5; simpl.
  2:{ apply field_raises in E5 as (v & _ & [=]). }
  destruct (field data "model" _ _) as [model|] eqn:E6; simpl.
  2:{ apply field_raises in E6 as (v & _ & [=]). }
  destruct (field data "custom_model" _ _) as [cm|] eqn:E7; simpl.
  2:{ apply field_raises in E7 as (v & Hv & Hf). exists "custom_model", v.
      split; [done|]. right. right. split; [done|]. by destruct folders. }
  destruct (field data "decoder" _ _) as [dec|] eqn:E8; simpl.
  2:{ apply field_raises in E8 as (v & _ & [=]). }
  destruct (decode_texts_total (data !! "texts")) as [[[text repeat] uniq] ->]. simpl.
  destruct (field data "audio_mode" _ _) as [am|] eqn:E10; simpl.
  2:{ apply field_raises in E10 as (v & _ & [=]). }
  destruct (field data "duration" _ _) as [dur|] eqn:E11; simpl.
  2:{ apply field_raises in E11 as (v & Hv & Hf). exists "duration", v.
      split; [done|]. left. split; [set_solver|done]. }
  destruct (field data "topk" _ _) as [topk|] eqn:E12; simpl.
  2:{ apply field_raises in E12 as (v & Hv & Hf). exists "topk", v.
      split; [done|]. right. left. split; [set_solver|done]. }
  destruct (field data "topp" _ _) as [topp|] eqn:E13; simpl.
  2:{ apply field_raises in E13 as (v & Hv & Hf). exists "topp", v.
      split; [done|]. right. left. split; [set_solver|done]. }
  destruct (field data "temperature" _ _) as [temp|] eqn:E14; simpl.
  2:{ apply field_raises in E14 as (v & Hv & Hf). exists "temperature", v.
      split; [done|]. right. left. split; [set_solver|done]. }
  destruct (field data "cfg_coef" _ _) as [cfg|] eqn:E15; simpl.
  2:{ apply field_raises in E15 as (v & Hv & Hf). exists "cfg_coef", v.
      split; [done|]. right. left. split; [set_solver|done]. }
  destruct (field data "seed" _ _) as [seed|] eqn:E16; simpl.
  2:{ apply field_raises in E16 as (v & Hv & Hf). exists "seed", v.
      split; [done|]. left. split; [set_solver|done]. }
  destruct (field data "overlap" _ _) as [ov|] eqn:E17; simpl.
  2:{ apply field_raises in E17 as (v & Hv & Hf). exists "overlap", v.
      split; [done|]. left. split; [set_solver|done]. }
  destruct (field data "channel" _ _) as [ch|] eqn:E18; simpl.
  2:{ apply field_raises in E18 as (v & _ & [=]). }
  destruct (field data "sr_select" _ _) as [sr|] eqn:E19; simpl.
  2:{ apply field_raises in E19 as (v & _ & [=]). }
  discriminate.
Qed.

(** C6.  Whatever the built-ins [int] and [float] do, decoding substitutes
    the documented default for every key that is missing (bpm 120, decoder
    "Default", duration 10, topk 250, topp 0, temperature 1.0, cfg_coef 5.0,
    seed -1, overlap 12, channel "stereo", sr_select "48000", and ten empty
    prompts with repeat 1 for texts); a missing key never makes the decoder
    raise: it raises only on a key that is present with an unreadable
    value; and a record without any key, or no record at all, decodes to
    the complete default tuple. *)
Theorem missing_keys_get_defaults (data : gmap string string) :
  (forall r, decode (Data data) = Some r -> defaults_substituted data r) /\
  (decode (Data data) = None ->
     exists k v, data !! k = Some v /\
                 rejected_value py_int_of py_float_of folders k v) /\
  decode (Data ∅) = Some default_params /\
  decode NoComment = Some default_params /\
  decode Unsupported = Some default_params /\
  decode NoFile = Some default_params.
Proof.
  split; [apply info_to_params_defaults|].
  split; [apply info_to_params_raises|].
  repeat split; reflexivity.
Qed.
End Decoder.

Lemma lookup_list_to_map_assoc (l : list (string * string)) (k : string) :
  (list_to_map l : gmap string string) !! k = assoc k l.
Proof.
  induction l as [|[k' v] l IH]; [done|].
  cbn [list_to_map foldr assoc]. simpl fst. simpl snd.
  destruct (String.eqb_spec k' k) as [->|Hne].
  - by rewrite lookup_insert_eq.
  - by rewrite lookup_insert_ne.
Qed.



Section Collapse.
Variable s : list string.



End Collapse.

Lemma strip_truthy_nonempty (p : string) : strip_truthy p = true -> nonempty p = true.
Proof. by destruct p. Qed.




Section Roundtrip.
Variable py_int_of : string -> option Z.
Variable py_float_of : string -> option Q.
Variable py_str_float : Q -> string.







End Roundtrip.

(** The trim bounds are not part of the record: they cannot be read back. *)
Lemma encode_ignores_trims (py_str_float : Q -> string) (a : Args)
  (ts te : Q) (seed_used : Z) (input_length : Q) :
  encode py_str_float (with_trims a ts te) seed_used input_length
  = encode py_str_float a seed_used input_length.
Proof.
  unfold encode, tags_of.
  by rewrite OrchestratorFacts.assemble_with_trims.
Qed.



Import OrchestratorFacts PyStringFacts.

Lemma field_present {A} (data : gmap string string) (k v : string)
  (f : string -> option A) (d : A) :
  data !! k = Some v -> field data k f d = f v.
Proof. intros H. unfold field. by rewrite H. Qed.

Lemma bump_last_inv (repeat repeat' : list Z) :
  bump_last repeat = Some repeat' ->
  exists front r, repeat = front ++ [r] /\ repeat' = front ++ [r + 1].
Proof.
  unfold bump_last. destruct (reverse repeat) as [|r front] eqn:Hr; [done|].
  intros [= <-]. exists (reverse front), r. split; [|done].
  apply (f_equal reverse) in Hr. rewrite reverse_involutive in Hr.
  by rewrite Hr, reverse_cons.
Qed.

Lemma collapse_loop_shape (s : list string) (rest : list string) :
  forall (i : nat) (text : list string) (repeat : list Z) (text' : list string)
         (repeat' : list Z),
    collapse_loop s i rest text repeat = Some (text', repeat') ->
    length text = length repeat ->
    Forall (fun t => strip_truthy t = true) text ->
    Forall (fun r => 1 <= r) repeat ->
    length text' = length repeat' /\
    Forall (fun t => strip_truthy t = true) text' /\
    Forall (fun r => 1 <= r) repeat'.
Proof.
  induction rest as [|elem rest IH]; intros i text repeat text' repeat' H Hlen Ht Hr.
  { injection H as <- <-. done. }
  cbn [collapse_loop] in H.
  destruct (strip_truthy elem) eqn:Helem; [|by eapply IH].
  destruct ((i =? 0)%nat || negb (String.eqb elem (nth (i - 1) s ""))).
  - eapply IH; [exact H| | |].
    + rewrite !length_app. cbn. lia.
    + apply Forall_app. split; [done|]. by repeat constructor.
    + apply Forall_app. split; [done|]. by repeat constructor.
  - destruct (bump_last repeat) as [repeat1|] eqn:Hb; [|done]. cbn in H.
    destruct (bump_last_inv _ _ Hb) as (front & r & -> & ->).
    eapply IH; [exact H| |done|].
    + rewrite length_app in Hlen. rewrite length_app. exact Hlen.
    + apply Forall_app in Hr as [Hf Hr1]. apply Forall_app. split; [done|].
      rewrite Forall_singleton in Hr1. apply Forall_singleton. lia.
Qed.

Lemma take_pad10_length {A} (x : A) (l : list A) : length (take 10 (pad10 x l)) = 10%nat.
Proof. unfold pad10. rewrite length_take, length_app, length_replicate. lia. Qed.

Lemma take_pad10_lookup_l {A} (x : A) (l : list A) (i : nat) :
  (i < length l)%nat -> (i < 10)%nat -> take 10 (pad10 x l) !! i = l !! i.
Proof.
  intros Hi H10. unfold pad10. rewrite lookup_take_lt by done. by rewrite lookup_app_l.
Qed.

Lemma take_pad10_lookup_r {A} (x : A) (l : list A) (i : nat) :
  (length l <= i)%nat -> (i < 10)%nat -> take 10 (pad10 x l) !! i = Some x.
Proof.
  intros Hi H10. unfold pad10. rewrite lookup_take_lt by done.
  rewrite lookup_app_r by done. apply lookup_replicate_2. lia.
Qed.

Lemma count_nonempty_pad10 (text : list string) :
  Forall (fun t => strip_truthy t = true) text ->
  length (filter (fun t => nonempty t = true) (pad10 "" text)) = length text.
Proof.
  intros Ht. unfold pad10. rewrite filter_app.
  rewrite (CleanerFacts.filter_all (fun t => nonempty t = true)).
  2:{ eapply Forall_impl; [exact Ht|]. intros p Hp. by apply strip_truthy_nonempty. }
  rewrite (CleanerFacts.filter_none (fun t => nonempty t = true)).
  2:{ by apply Forall_replicate. }
  by rewrite app_nil_r.
Qed.

(** X7.  Reading the ['texts'] field never raises, whatever string it
    holds, and always yields exactly ten texts and ten repeat counts, each
    count at least one; with [n] the prompt count returned, the slots below
    [n] hold non-blank texts and the slots from [n] on hold the empty text
    with repeat 1 ([n] is not capped at ten). *)
Theorem decode_texts_shape (texts : option string) :
  exists (text : list string) (repeat : list Z) (n : Z),
    decode_texts texts = Some (text, repeat, n) /\
    length text = 10%nat /\ length repeat = 10%nat /\
    Forall (fun r => 1 <= r) repeat /\ 0 <= n /\
    (is_Some texts -> forall i : nat, Z.of_nat i < n -> (i < 10)%nat ->
       exists t, text !! i = Some t /\ strip_truthy t = true) /\
    (forall i : nat, n <= Z.of_nat i -> (i < 10)%nat ->
       text !! i = Some "" /\ repeat !! i = Some 1).
Proof.
  destruct texts as [s|]; cbn [decode_texts].
  2:{ eexists _, _, _. split; [reflexivity|].
      split; [by rewrite length_replicate|]. split; [by rewrite length_replicate|].
      split; [by apply Forall_replicate|]. split; [lia|]. split.
      - by intros [? [=]].
      - intros i Hi H10. split; apply lookup_replicate_2; lia. }
  destruct (collapse_loop_total (findall_quoted s) (findall_quoted s) [] [] [] eq_refl)
    as [[text repeat] H]; [right; constructor|].
  cbn in H. rewrite H. cbn.
  destruct (collapse_loop_shape _ _ _ _ _ _ _ H eq_refl) as (Hlen & Ht & Hr);
    [constructor..|].
  eexists _, _, _. split; [reflexivity|].
  rewrite count_nonempty_pad10 by done.
  split; [apply take_pad10_length|]. split; [apply take_pad10_length|].
  split.
  { apply Forall_take. unfold pad10. apply Forall_app. split; [done|].
    by apply Forall_replicate. }
  split; [lia|]. split.
  - intros _ i Hi H10. rewrite take_pad10_lookup_l by lia.
    destruct (lookup_lt_is_Some_2 text i) as [t Ht']; [lia|].
    exists t. split; [done|]. rewrite Forall_lookup in Ht. by apply (Ht i).
  - intros i Hi H10. by rewrite !take_pad10_lookup_r by lia.
Qed.



Section DecoderA.
Variable py_int_of : string -> option Z.
Variable py_float_of : string -> option Q.

Ltac peel H x E :=
  match type of H with
  | (?m ≫= _) = _ => destruct m as [x|] eqn:E; simpl in H; [|discriminate H]
  end.

(** X9.  The decoder of the audio tab reads a subset of what the decoder
    of the music tab reads: whenever [info_to_params] returns for a record,
    [info_to_params_a] returns for it too, with the same decoder, global
    prompt, prompt count, texts, repeats, duration, sampling parameters,
    seed, overlap, channel and sample rate; its structured flag does not
    come from ['bpm'] but is set exactly when the record holds a non-empty
    global prompt. *)
Theorem audio_decoder_agrees (folders : option (list string))
  (data : gmap string string) (r : Params) :
  info_to_params py_int_of py_float_of folders (Data data) = Some r ->
  exists r' : ParamsA,
    info_to_params_a py_int_of py_float_of (Data data) = Some r' /\
    same_shared_fields r r' /\
    (a_struc_prompt r' = true <->
     exists v, data !! "global_prompt" = Some v /\ v <> "").
Proof.
  intros H. cbn [info_to_params] in H.
  peel H v1 E1. peel H v2 E2. peel H v3 E3. peel H v4 E4. peel H v5 E5.
  peel H v6 E6. peel H v7 E7. peel H v8 E8.
  destruct (decode_texts (data !! "texts")) as [[[text repeat] uniq]|] eqn:Et;
    simpl in H; [|discriminate H].
  peel H v9 E9. peel H v10 E10. peel H v11 E11. peel H v12 E12. peel H v13 E13.
  peel H v14 E14. peel H v15 E15. peel H v16 E16. peel H v17 E17. peel H v18 E18.
  injection H as <-.
  cbn [info_to_params_a].
  rewrite E2, E8, Et. cbn [mbind option_bind].
  rewrite E10, E11, E12, E13, E14, E15, E16, E17, E18.
  unfold field at 1.
  destruct (data !! "global_prompt") as [g|] eqn:Eg; cbn [mbind option_bind].
  - eexists. split; [reflexivity|]. split; [by repeat split|]. cbn.
    split.
    + intros Hne. exists g. split; [done|]. intros ->. done.
    + intros (v & [= <-] & Hv). by destruct (String.eqb_spec g "").
  - eexists. split; [reflexivity|]. split; [by repeat split|]. cbn.
    split; [done|]. by intros (v & [=] & _).
Qed.

(** X10.  What the audio tab's decoder makes of a record that
    [predict_full] wrote: its structured flag is set exactly when the
    persisted global prompt is not empty.  An unstructured request whose
    prompt loop ran persists the global prompt ["none"], so it is read
    back as structured with global prompt ["none"]; a structured request
    with an empty global prompt is read back as unstructured. *)
Theorem audio_decoder_structure_flag (py_str_float : Q -> string) (a : Args)
  (seed_used : Z) (input_length : Q) (d : gmap string string) (r' : ParamsA) :
  encode py_str_float a seed_used input_length = Some d ->
  info_to_params_a py_int_of py_float_of (Data d) = Some r' ->
  a_global_prompt r'
  = (if negb (struc_prompt a) && loop_ran a then "none" else global_prompt a) /\
  a_struc_prompt r' = nonempty (a_global_prompt r') /\
  (struc_prompt a = false -> loop_ran a = true ->
   a_struc_prompt r' = true /\ a_global_prompt r' = "none") /\
  (struc_prompt a = true -> global_prompt a = "" -> a_struc_prompt r' = false).
Proof.
  intros Henc Hdec. unfold encode, tags_of in Henc.
  destruct (assemble _ _ _ _) as [[texts raw]|]; [|discriminate Henc].
  cbn [mbind option_bind] in Henc. unfold add_tags_data in Henc.
  injection Henc as Hd.
  assert (Hg : d !! "global_prompt"
               = Some (if negb (struc_prompt a) && loop_ran a then "none"
                       else global_prompt a)).
  { rewrite <- Hd. by rewrite lookup_insert_eq. }
  clear Hd. cbn [info_to_params_a] in Hdec.
  rewrite (field_present _ _ _ _ _ Hg) in Hdec. cbn [mbind option_bind] in Hdec.
  rewrite (field_present _ _ _ _ _ Hg) in Hdec. cbn [mbind option_bind] in Hdec.
  peel Hdec v1 E1.
  destruct (decode_texts _) as [[[text repeat] uniq]|]; simpl in Hdec; [|discriminate Hdec].
  peel Hdec v2 E2. peel Hdec v3 E3. peel Hdec v4 E4. peel Hdec v5 E5. peel Hdec v6 E6.
  peel Hdec v7 E7. peel Hdec v8 E8. peel Hdec v9 E9. peel Hdec v10 E10.
  injection Hdec as <-. cbn [a_global_prompt a_struc_prompt].
  split; [done|]. split; [done|]. split.
  - intros -> ->. done.
  - intros -> ->. done.
Qed.

End DecoderA.

Lemma audio_decoder_agrees_witness :
  exists r' : ParamsA,
    info_to_params_a py_int int_float_of (Data sample_record) = Some r' /\
    a_struc_prompt r' = true /\ a_duration r' = 40 /\
    a_text r' = ["lofi"; "jazz"; ""; ""; ""; ""; ""; ""; ""; ""] /\
    a_repeat r' = [2; 1; 1; 1; 1; 1; 1; 1; 1; 1].
Proof.
  destruct (info_to_params py_int int_float_of (Some []) (Data sample_record))
    as [r|] eqn:E; [|by vm_compute in E].
  destruct (audio_decoder_agrees py_int int_float_of (Some []) sample_record r E)
    as (r' & Hr' & Hsame & Hflag).
  exists r'. split; [exact Hr'|]. split.
  { apply Hflag. exists "dreamy". split; [reflexivity|discriminate]. }
  vm_compute in E. injection E as <-.
  destruct Hsame as (_ & _ & _ & Ht & Hr & Hd & _).
  split; [exact Hd|]. split; [exact Ht|exact Hr].
Defined.

Lemma audio_decoder_structure_flag_witness :
  exists (d : gmap string string) (r' : ParamsA),
    encode int_str_float apostrophe_request 7 0 = Some d /\
    info_to_params_a py_int int_float_of (Data d) = Some r' /\
    struc_prompt apostrophe_request = false /\
    a_struc_prompt r' = true /\ a_global_prompt r' = "none".
Proof.
  destruct (encode int_str_float apostrophe_request 7 0
              ≫= fun d => info_to_params_a py_int int_float_of (Data d))
    as [r'|] eqn:Hr; [|by vm_compute in Hr].
  revert Hr.
  destruct (encode int_str_float apostrophe_request 7 0) as [d|] eqn:Hd; [|discriminate].
  intros Hr. exists d, r'. split; [reflexivity|]. split; [exact Hr|].
  split; [reflexivity|].
  destruct (audio_decoder_structure_flag py_int int_float_of int_str_float
              apostrophe_request 7 0 d r' Hd Hr) as (_ & _ & Hu & _).
  by apply Hu.
Defined.

Lemma assemble_flat (a : Args) (it : string) (todo : nat) :
  forall (ind : nat) (texts raw : list string),
    assemble a it ind todo = Some (texts, raw) ->
    raw = flat (take todo (drop ind (zip (prompts a) (repeats a)))) /\
    texts = map (rendered_prompt a it) raw.
Proof.
  induction todo as [|todo IH]; intros ind texts raw H.
  { injection H as <- <-. done. }
  cbn [assemble] in H.
  destruct (prompts a !! ind) as [p|] eqn:Ep; [|done].
  destruct (repeats a !! ind) as [d|] eqn:Ed; [|done].
  cbn in H.
  destruct (assemble a it (S ind) todo) as [[texts' raw']|] eqn:Erec; [|done].
  cbn in H. injection H as <- <-.
  destruct (IH _ _ _ Erec) as [-> ->].
  assert (Hz : zip (prompts a) (repeats a) !! ind = Some (p, d)).
  { apply lookup_zip_with_Some. by exists p, d. }
  rewrite (drop_S _ _ _ Hz). cbn [take].
  unfold flat at 2. cbn [map concat fst snd]. fold (flat (take todo (drop (S ind) (zip (prompts a) (repeats a))))).
  split; [done|].
  rewrite map_app. f_equal. unfold copies.
  induction (Z.to_nat d) as [|n IHn]; [done|]. cbn. by rewrite IHn.
Qed.


Ltac texts_leaf :=
  repeat case_match; simpl;
  repeat (apply List.Forall_cons; [by (intros ? [=]) |]);
  apply List.Forall_nil.

(** X11.  Whenever [predict_full] reaches [_do_predictions], the prompts it
    hands over are, in order, one rendered prompt per repeat of each of
    the first [prompt_amount] segments (none for a repeat count below
    one): the rendering of exactly the raw texts that are written, as a
    printed list, into the ['texts'] tag. *)
Theorem prompts_follow_segments (env : Env) (a : Args) :
  Forall (fun ev => forall texts, texts_passed ev = Some texts ->
            texts = map (rendered_prompt a (instrument_text_of (instrument a)))
                        (flat (segments a)))
         (fst (predict_full env a)) /\
  (forall (py_str_float : Q -> string) (seed_used : Z) (input_length : Q)
          (tags : list string),
     tags_of py_str_float a seed_used input_length = Some tags ->
     tags !! 4%nat = Some (py_str_list (flat (segments a)))).
Proof.
  split.
  2:{ intros py_str_float seed_used input_length tags H. unfold tags_of in H.
      destruct (assemble _ _ _ _) as [[texts raw]|] eqn:Easm; [|discriminate H].
      destruct (assemble_flat _ _ _ _ _ _ Easm) as [Hraw _].
      rewrite drop_0 in Hraw. fold (segments a) in Hraw.
      cbn [mbind option_bind] in H. injection H as <-. by rewrite Hraw. }
  unfold predict_full.
  apply log_bind; [texts_leaf|intros ?].
  apply log_bind.
  { unfold maybe_generate_image, generate_image_from_prompt. texts_leaf. }
  intros img. apply log_bind; [rewrite validate_sampling_log; constructor|].
  intros _. unfold generate.
  repeat (apply log_bind; [texts_leaf|intros ?]).
  destruct (assemble _ _ _ _) as [[texts raw]|] eqn:Easm; [|constructor].
  destruct (assemble_flat _ _ _ _ _ _ Easm) as [Hraw Htexts].
  rewrite drop_0 in Hraw. fold (segments a) in Hraw.
  apply log_bind.
  { apply List.Forall_cons; [|constructor]. intros texts' [= <-]. by rewrite Htexts, Hraw. }
  intros ?. repeat (apply log_bind; [texts_leaf|intros ?]).
  destruct (targets env) as [[? ?] ?]. constructor.
Qed.

End MetadataFacts.

Module AudioInfoFacts.
Import PyString PyFormatFacts PyStringFacts Metadata MetadataFacts AudioInfo.

Lemma info_text_version (data : gmap string string) :
  exists rest, info_text data = "Version: " +:+ rest.
Proof.
  unfold info_text. destruct (data !! "version") as [v|].
  - eexists. rewrite !append_assoc. reflexivity.
  - eexists. change "Version: Unknown" with ("Version: " +:+ "Unknown").
    rewrite !append_assoc. reflexivity.
Qed.

(** X12.  The text shown for a record always starts with the version line,
    so the fallback message for an empty text can never be returned: a
    tagged media file and a JSON file with the same record show the same
    text, and a record without any known key shows "Version: Unknown". *)
Theorem info_never_empty (data : gmap string string) :
  (exists rest,
     get_audio_info (InfoMedia data) = Some ("Version: " +:+ rest) /\
     get_audio_info (InfoJson data) = Some ("Version: " +:+ rest)) /\
  get_audio_info (InfoMedia data) <> Some no_tags_media /\
  get_audio_info (InfoJson data) <> Some no_tags_json /\
  get_audio_info (InfoJson ∅) = Some "Version: Unknown".
Proof.
  destruct (info_text_version data) as [rest Hrest].
  assert (Hm : get_audio_info (InfoMedia data) = Some ("Version: " +:+ rest)).
  { unfold get_audio_info. by rewrite Hrest. }
  assert (Hj : get_audio_info (InfoJson data) = Some ("Version: " +:+ rest)).
  { unfold get_audio_info. by rewrite Hrest. }
  split; [by exists rest|]. rewrite Hm, Hj.
  split; [discriminate|]. split; [discriminate|]. reflexivity.
Qed.

Lemma add_tags_data_inv (tags : list string) (d : gmap string string) :
  add_tags_data tags = Some d ->
  exists t0 t1 t2 t3 t4 t5 t6 t7 t8 t9 t10 t11 t12 t13 t14 t15 t16 t17 t18 t19,
    tags = [t0; t1; t2; t3; t4; t5; t6; t7; t8; t9;
            t10; t11; t12; t13; t14; t15; t16; t17; t18; t19].
Proof.
  intros H.
  do 20 (destruct tags as [|? tags]; [discriminate H|]).
  destruct tags; [|discriminate H].
  by do 20 eexists.
Qed.

(** X13.  Every tag that [add_tags] writes is shown by [get_audio_info],
    for the tagged media file and for the JSON file alike: the version
    first, then one line per tag in a fixed order, with "none" for an
    empty global prompt or an empty list of texts and the generator kind
    in front of the model name. *)
Theorem written_tags_are_shown (tags : list string) (d : gmap string string) :
  add_tags_data tags = Some d ->
  get_audio_info (InfoJson d) = Some (shown_tags tags) /\
  get_audio_info (InfoMedia d) = Some (shown_tags tags).
Proof.
  intros H.
  destruct (add_tags_data_inv tags d H)
    as (t0&t1&t2&t3&t4&t5&t6&t7&t8&t9&t10&t11&t12&t13&t14&t15&t16&t17&t18&t19&->).
  unfold add_tags_data in H. apply (inj Some) in H. rename H into Hd.
  assert (Hinfo : info_text d = shown_tags [t0; t1; t2; t3; t4; t5; t6; t7; t8; t9;
            t10; t11; t12; t13; t14; t15; t16; t17; t18; t19]).
  { rewrite <- Hd. unfold info_text, info_line.
    rewrite !lookup_list_to_map_assoc.
    cbn [assoc String.eqb Ascii.eqb Bool.eqb].
    unfold shown_tags. cbn [lookup list_lookup default].
    rewrite !append_assoc. reflexivity. }
  destruct (info_text_version d) as [rest Hrest].
  unfold get_audio_info. rewrite Hrest. cbn [String.eqb append].
  rewrite <- Hrest, Hinfo. done.
Qed.

Lemma written_tags_are_shown_witness :
  exists d : gmap string string,
    add_tags_data ["none"; "none"; "none"; "none"; "['lofi']"; "10"; "12"; "7";
                   "none"; "0"; "stereo"; "48000"; "large"; "none"; "Default";
                   "250"; "0"; "1"; "3"; "music"] = Some d /\
    exists rest,
      get_audio_info (InfoJson d)
      = Some ("Version: 2.0.1" +:+ String newline ("Global Prompt: none" +:+ rest)).
Proof.
  destruct (add_tags_data ["none"; "none"; "none"; "none"; "['lofi']"; "10"; "12"; "7";
                   "none"; "0"; "stereo"; "48000"; "large"; "none"; "Default";
                   "250"; "0"; "1"; "3"; "music"]) as [d|] eqn:Hd;
    [|unfold add_tags_data in Hd; discriminate Hd].
  exists d. split; [reflexivity|].
  destruct (written_tags_are_shown _ d Hd) as [Hj _].
  eexists. rewrite Hj. unfold shown_tags. cbn. reflexivity.
Defined.
End AudioInfoFacts.

Module PersistenceFacts.
Import PyFormat PyFormatFacts PyString PyStringFacts Orchestrator OrchestratorFacts Persistence.

(** *** Strings *)

Lemma length_append (s t : string) :
  String.length (s +:+ t) = (String.length s + String.length t)%nat.
Proof.
  induction s as [|c s IH]; [done|].
  rewrite append_cons. cbn [String.length]. by rewrite IH.
Qed.

Lemma append_inj_length (s1 s2 t1 t2 : string) :
  String.length t1 = String.length t2 ->
  s1 +:+ t1 = s2 +:+ t2 -> s1 = s2 /\ t1 = t2.
Proof.
  revert s2. induction s1 as [|c s1 IH]; intros s2 Hlen H.
  - destruct s2 as [|c2 s2]; [done|].
    apply (f_equal String.length) in H. rewrite append_nil_l, length_append in H.
    cbn [String.length] in H. lia.
  - destruct s2 as [|c2 s2].
    + apply (f_equal String.length) in H. rewrite append_nil_l, length_append in H.
      cbn [String.length] in H. lia.
    + rewrite !append_cons in H. injection H as -> H.
      destruct (IH _ Hlen H) as [-> ->]. done.
Qed.

Lemma append_inv_tail (s1 s2 t : string) : s1 +:+ t = s2 +:+ t -> s1 = s2.
Proof. intros H. by destruct (append_inj_length s1 s2 t t eq_refl H). Qed.

Lemma has_char_cons (a c : ascii) (s : string) :
  has_char a (String c s) = Ascii.eqb c a || has_char a s.
Proof. done. Qed.

Lemma has_char_false_app (a : ascii) (s t : string) :
  has_char a (s +:+ t) = false <-> has_char a s = false /\ has_char a t = false.
Proof. rewrite has_char_app. apply orb_false_iff. Qed.

Lemma string_of_uint_numeric (d : Decimal.uint) :
  all_numeric (NilEmpty.string_of_uint d) = true.
Proof. induction d; cbn; auto. Qed.

Lemma py_str_int_numeric (z : Z) : all_numeric (py_str_int z) = true.
Proof.
  unfold py_str_int, NilZero.string_of_int, NilZero.string_of_uint.
  destruct (Z.to_int z) as [d|d]; destruct d; cbn [all_numeric];
    try apply string_of_uint_numeric; try reflexivity;
    cbn; apply string_of_uint_numeric.
Qed.

Lemma numeric_has_char (a : ascii) (s : string) :
  numeric a = false -> all_numeric s = true -> has_char a s = false.
Proof.
  intros Ha. induction s as [|c s IH]; [done|].
  cbn [all_numeric has_char]. intros [Hc Hs]%andb_true_iff.
  rewrite (IH Hs), orb_false_r.
  destruct (Ascii.eqb_spec c a) as [->|]; [congruence|done].
Qed.

Lemma py_str_int_has_char (a : ascii) (z : Z) :
  numeric a = false -> has_char a (py_str_int z) = false.
Proof. intros Ha. apply numeric_has_char; [done|apply py_str_int_numeric]. Qed.

Lemma suffix_inj (k n : Z) : suffix k = suffix n -> k = n.
Proof.
  unfold suffix. destruct (Z.eqb_spec k 0) as [->|Hk], (Z.eqb_spec n 0) as [->|Hn];
    try done.
  rewrite !append_cons, !append_nil_l. intros [= H].
  apply append_inv_tail in H. by apply py_str_int_inj.
Qed.

(** *** [str.replace] *)

Lemma prefix_length (old s : string) :
  String.prefix old s = true -> (String.length old <= String.length s)%nat.
Proof.
  revert s. induction old as [|a old IH]; intros s H; [cbn; lia|].
  destruct s as [|c s]; [done|]. cbn in H.
  destruct (ascii_dec a c); [|done]. apply IH in H. cbn. lia.
Qed.

Lemma prefix_app_other (old x y : string) (c : ascii) :
  has_char c old = false ->
  String.prefix old (x +:+ String c y) = String.prefix old x.
Proof.
  revert x. induction old as [|a old IH]; intros x Hc.
  { by destruct x. }
  cbn [has_char] in Hc. apply orb_false_iff in Hc as [Ha Hold].
  destruct x as [|b x].
  - rewrite append_nil_l. cbn. destruct (ascii_dec a c) as [->|]; [|done].
    by rewrite Ascii.eqb_refl in Ha.
  - rewrite append_cons. cbn. destruct (ascii_dec a b); [|done]. by apply IH.
Qed.

(** A character that does not occur in [old] cuts the text in two parts
    that are replaced independently. *)
Lemma replace_split (old new x y : string) (c : ascii) :
  old <> "" -> has_char c old = false ->
  forall k : nat, (k <= String.length x)%nat ->
  replace_from old new k (x +:+ String c y)
  = replace_from old new k x +:+ String c (replace_from old new 0 y).
Proof.
  intros Hne Hc. induction x as [|b x IH]; intros k Hk.
  - cbn in Hk. assert (k = 0%nat) as -> by lia.
    rewrite append_nil_l. cbn [replace_from].
    change (String c y) with ("" +:+ String c y).
    rewrite (prefix_app_other old "" y c Hc).
    destruct old; [done|]. cbn. done.
  - rewrite append_cons. destruct k as [|k]; cbn [replace_from].
    + rewrite <- append_cons, (prefix_app_other old (String b x) y c Hc).
      destruct (String.prefix old (String b x)) eqn:Hp.
      * apply prefix_length in Hp. cbn [String.length] in Hp.
        rewrite IH by lia. by rewrite append_assoc.
      * rewrite IH by lia. by rewrite append_cons.
    + cbn [String.length] in Hk. apply IH. lia.
Qed.

(** A text without the first character of [old] is left alone. *)
Lemma replace_absent (a : ascii) (old new s : string) :
  has_char a s = false -> replace_from (String a old) new 0 s = s.
Proof.
  induction s as [|c s IH]; [done|].
  cbn [has_char]. intros [Hc Hs]%orb_false_iff.
  cbn [replace_from String.prefix].
  destruct (ascii_dec a c) as [->|]; [by rewrite Ascii.eqb_refl in Hc|].
  by rewrite IH.
Qed.

Lemma replace_length (old new : string) :
  old <> "" -> (String.length old <= String.length new)%nat ->
  forall (s : string) (k : nat), (k <= String.length s)%nat ->
  (String.length s - k <= String.length (replace_from old new k s))%nat.
Proof.
  intros Hne Hlen. induction s as [|c s IH]; intros k Hk; [cbn; lia|].
  cbn [String.length] in Hk. destruct k as [|k]; cbn [replace_from].
  - destruct (String.prefix old (String c s)) eqn:Hp.
    + apply prefix_length in Hp. cbn [String.length] in Hp.
      rewrite length_append.
      specialize (IH (String.length old - 1)%nat ltac:(lia)).
      destruct old; [done|]. cbn [String.length] in *. lia.
    + specialize (IH 0%nat ltac:(lia)). cbn [String.length]. lia.
  - specialize (IH k ltac:(lia)). cbn [String.length]. lia.
Qed.

(** *** The names of the results *)

Lemma join2_prefix (path b : string) :
  starts_with_sep b = false -> join2 path b = dir_prefix path +:+ b.
Proof.
  intros Hb. unfold join2, dir_prefix. rewrite Hb.
  destruct path as [|c path]; [done|].
  destruct (ends_with_sep (String c path)); [done|].
  by rewrite append_assoc.
Qed.

Lemma starts_with_sep_numeric (s t : string) :
  s <> "" -> all_numeric s = true -> starts_with_sep (s +:+ t) = false.
Proof.
  destruct s as [|c s]; [done|]. intros _. cbn [all_numeric].
  intros [Hc _]%andb_true_iff. rewrite append_cons. cbn [starts_with_sep].
  destruct (Ascii.eqb_spec c sep) as [->|]; [done|done].
Qed.

Lemma py_str_int_nonempty (z : Z) : py_str_int z <> "".
Proof.
  intros H. pose proof (py_int_str_int z) as Hz. rewrite H in Hz. done.
Qed.

Section Names.
Variables (wav_directory : string) (seed : Z).

Local Abbreviation seed_tag := (py_str_int seed).
Local Abbreviation stem := (dir_prefix wav_directory +:+ py_str_int seed).

Lemma wav_name_shape (n : Z) :
  wav_name wav_directory seed_tag n = stem +:+ suffix n +:+ ".wav".
Proof.
  unfold wav_name. rewrite join2_prefix.
  - by rewrite append_assoc.
  - apply starts_with_sep_numeric; [apply py_str_int_nonempty|apply py_str_int_numeric].
Qed.

Lemma replace_suffix (a : ascii) (old new ext ext' body : string) (n : Z) :
  numeric a = false ->
  has_char "." (String a old) = false ->
  has_char "(" (String a old) = false ->
  has_char ")" (String a old) = false ->
  replace_from (String a old) new 0 ext = ext' ->
  replace_from (String a old) new 0 (body +:+ suffix n +:+ String "." ext)
  = replace_from (String a old) new 0 body +:+ suffix n +:+ String "." ext'.
Proof.
  intros Ha Hdot Hopen Hclose Hext. unfold suffix.
  destruct (n =? 0).
  - rewrite append_nil_l. rewrite replace_split by (done || lia). by rewrite Hext.
  - rewrite !append_cons, !append_nil_l, !append_assoc, !append_cons, append_nil_l.
    rewrite replace_split by (done || lia). f_equal. f_equal.
    rewrite replace_split by (done || lia).
    rewrite replace_absent by by apply py_str_int_has_char.
    f_equal. f_equal.
    change (String "." ext) with ("" +:+ String "." ext).
    rewrite replace_split by (done || cbn; lia). cbn [replace_from]. by rewrite Hext.
Qed.

Lemma mp4_name_shape (n : Z) :
  mp4_name wav_directory seed_tag n
  = str_replace "wav" "mp4" stem +:+ suffix n +:+ ".mp4".
Proof.
  unfold mp4_name. rewrite wav_name_shape. unfold str_replace.
  by apply (replace_suffix "w" "av" "mp4" "wav" "mp4").
Qed.

Lemma json_name_shape (n : Z) :
  json_name wav_directory seed_tag n
  = str_replace "mp4" "json" (str_replace "wav" "mp4" stem) +:+ suffix n +:+ ".json".
Proof.
  unfold json_name. rewrite mp4_name_shape. unfold str_replace.
  by apply (replace_suffix "m" "p4" "json" "mp4" "json").
Qed.

Lemma wav_name_inj (k n : Z) :
  wav_name wav_directory seed_tag k = wav_name wav_directory seed_tag n -> k = n.
Proof.
  rewrite !wav_name_shape. intros H. apply (inj _) in H.
  apply append_inv_tail in H. by apply suffix_inj.
Qed.

Lemma mp4_name_inj (k n : Z) :
  mp4_name wav_directory seed_tag k = mp4_name wav_directory seed_tag n -> k = n.
Proof.
  rewrite !mp4_name_shape. intros H. apply (inj _) in H.
  apply append_inv_tail in H. by apply suffix_inj.
Qed.

Lemma json_name_inj (k n : Z) :
  json_name wav_directory seed_tag k = json_name wav_directory seed_tag n -> k = n.
Proof.
  rewrite !json_name_shape. intros H. apply (inj _) in H.
  apply append_inv_tail in H. by apply suffix_inj.
Qed.

(** Names with different extensions are different. *)
Lemma wav_not_mp4 (k n : Z) :
  wav_name wav_directory seed_tag k <> mp4_name wav_directory seed_tag n.
Proof.
  rewrite wav_name_shape, mp4_name_shape, <- !append_assoc. intros H.
  by apply append_inj_length in H as [_ [=]].
Qed.

Lemma wav_not_json (k n : Z) :
  wav_name wav_directory seed_tag k <> json_name wav_directory seed_tag n.
Proof.
  rewrite wav_name_shape, json_name_shape.
  change ".json" with ("." +:+ "json"). rewrite <- !append_assoc. intros H.
  by apply append_inj_length in H as [_ [=]].
Qed.

Lemma mp4_not_json (k n : Z) :
  mp4_name wav_directory seed_tag k <> json_name wav_directory seed_tag n.
Proof.
  rewrite mp4_name_shape, json_name_shape.
  change ".json" with ("." +:+ "json"). rewrite <- !append_assoc. intros H.
  by apply append_inj_length in H as [_ [=]].
Qed.

(** The scratch file [seed.json] of [add_tags] is none of the results. *)
Lemma scratch_not_wav (n : Z) :
  seed_tag +:+ ".json" <> wav_name wav_directory seed_tag n.
Proof.
  intros H. symmetry in H. revert H. rewrite <- (append_nil_l (seed_tag +:+ ".json")).
  rewrite wav_name_shape. change ".json" with ("." +:+ "json").
  rewrite <- !append_assoc. intros H.
  by apply append_inj_length in H as [_ [=]].
Qed.

Lemma scratch_not_mp4 (n : Z) :
  seed_tag +:+ ".json" <> mp4_name wav_directory seed_tag n.
Proof.
  intros H. symmetry in H. revert H.
  rewrite mp4_name_shape. change ".json" with ("." +:+ "json").
  rewrite <- !append_assoc. intros H.
  by apply append_inj_length in H as [_ [=]].
Qed.

Lemma dir_prefix_length :
  wav_directory <> "" -> (1 <= String.length (dir_prefix wav_directory))%nat.
Proof.
  unfold dir_prefix. destruct wav_directory as [|c d]; [done|]. intros _.
  destruct (ends_with_sep (String c d)); [cbn; lia|].
  rewrite length_append. cbn. lia.
Qed.

Lemma scratch_not_json (n : Z) :
  wav_directory <> "" ->
  seed_tag +:+ ".json" <> json_name wav_directory seed_tag n.
Proof.
  intros Hd H. apply (f_equal String.length) in H. revert H.
  rewrite json_name_shape, !length_append.
  pose proof (replace_length "mp4" "json" ltac:(done) ltac:(cbn; lia)
                (str_replace "wav" "mp4" stem) 0 ltac:(lia)) as H2.
  pose proof (replace_length "wav" "mp4" ltac:(done) ltac:(cbn; lia)
                stem 0 ltac:(lia)) as H1.
  unfold str_replace in *. rewrite length_append in H1.
  pose proof (dir_prefix_length Hd). cbn [String.length]. lia.
Qed.
End Names.

(** *** The search for a free name *)

Section Search.
Variables (fs : fsys) (wav_directory : string) (seed : Z).

Local Abbreviation name := (wav_name wav_directory (py_str_int seed)).

Lemma next_name (c : Z) :
  0 <= c ->
  join2 wav_directory
    (py_str_int seed +:+ "(" +:+ py_str_int (c + 1) +:+ ")" +:+ ".wav")
  = name (c + 1).
Proof.
  intros Hc. unfold wav_name, suffix.
  destruct (Z.eqb_spec (c + 1) 0) as [|_]; [lia|].
  by rewrite !append_assoc.
Qed.

Lemma while_exists_spec (fuel : nat) : forall (c : Z) (X : gset string),
  0 <= c ->
  X ⊆ dom fs ->
  (forall p, p ∈ X -> exists k, 0 <= k < c /\ p = name k) ->
  (forall k, 0 <= k < c -> is_Some (fs !! name k)) ->
  (size (dom fs) < size X + fuel)%nat ->
  exists n, c <= n /\
    while_exists fuel wav_directory (py_str_int seed) (name c) (c + 1) fs
    = (fs, inr (name n)) /\
    fs !! name n = None /\
    (forall k, 0 <= k < n -> is_Some (fs !! name k)).
Proof.
  induction fuel as [|fuel IH]; intros c X Hc HX Hnames Hbelow Hsize.
  { apply subseteq_size in HX. lia. }
  cbn [while_exists]. unfold mbind, IO_bind, path_exists.
  destruct (fs !! name c) as [nd|] eqn:Hlook.
  - rewrite bool_decide_true by by eexists.
    rewrite next_name by done.
    assert (Hfresh : name c ∉ X).
    { intros Hin. destruct (Hnames _ Hin) as (k & Hk & Heq).
      apply wav_name_inj in Heq. lia. }
    destruct (IH (c + 1) (X ∪ {[name c]})) as (n & Hn & Hrun & Hfree & Hall).
    + lia.
    + apply union_subseteq. split; [done|].
      apply singleton_subseteq_l, elem_of_dom. by eexists.
    + intros p [Hp| ->%elem_of_singleton]%elem_of_union.
      * destruct (Hnames _ Hp) as (k & Hk & ->). exists k. split; [lia|done].
      * exists c. split; [lia|done].
    + intros k Hk. destruct (decide (k = c)) as [->|]; [by eexists|].
      apply Hbelow. lia.
    + rewrite size_union by set_solver. rewrite size_singleton. lia.
    + exists n. split; [lia|]. by replace (c + 1 + 1) with (c + 1 + 1) in Hrun by lia.
  - rewrite bool_decide_false by (intros [? ?]; congruence).
    exists c. split; [lia|]. split; [done|]. split; [done|exact Hbelow].
Qed.

Lemma find_target_spec :
  exists n, 0 <= n /\
    find_target wav_directory (py_str_int seed) fs = (fs, inr (name n)) /\
    fs !! name n = None /\
    (forall k, 0 <= k < n -> is_Some (fs !! name k)).
Proof.
  unfold find_target.
  destruct (while_exists_spec (S (size fs)) 0 ∅) as (n & Hn & Hrun & Hfree & Hall).
  - lia.
  - set_solver.
  - set_solver.
  - intros k Hk. lia.
  - rewrite size_dom, size_empty. lia.
  - exists n. split; [done|]. split; [exact Hrun|]. done.
Qed.
End Search.

(** *** What a step leaves alone *)

Lemma keeps_ret {A} (p : string) (x : A) : keeps p (mret x : IO A).
Proof. by intros fs _. Qed.

Lemma keeps_throw {A} (p : string) (e : oserror) : keeps p (throw e : IO A).
Proof. by intros fs _. Qed.

Lemma keeps_bind {A B} (p : string) (m : IO A) (k : A -> IO B) :
  keeps p m -> (forall x, keeps p (k x)) -> keeps p (m ≫= k).
Proof.
  intros Hm Hk fs Hp. specialize (Hm fs Hp).
  unfold mbind, IO_bind. destruct (m fs) as [fs1 [e|x]]; cbn in *; [done|].
  rewrite <- Hm. apply Hk. by rewrite Hm.
Qed.

Lemma keeps_from_option {A} (p : string) (e : oserror) (o : option A) :
  keeps p (from_option e o).
Proof. destruct o; [apply keeps_ret|apply keeps_throw]. Qed.

Lemma keeps_path_exists (p q : string) : keeps p (path_exists q).
Proof. by intros fs _. Qed.

Lemma keeps_makedirs (p d : string) : keeps p (makedirs d).
Proof.
  intros fs Hp. unfold makedirs.
  destruct (fs !! d) as [[|pl c]|] eqn:Hd; cbn; try done.
  apply lookup_insert_ne. intros ->. rewrite Hd in Hp. by destruct Hp.
Qed.

Lemma keeps_write_file (p q payload : string) (comment : option string) :
  p <> q -> keeps p (write_file q payload comment).
Proof.
  intros Hne fs _. unfold write_file.
  destruct (fs !! q) as [[|pl c]|]; cbn; try done;
    destruct (has_parent fs q); cbn; try done; by apply lookup_insert_ne.
Qed.

Lemma keeps_copyfile (p src dst : string) : p <> dst -> keeps p (copyfile src dst).
Proof.
  intros Hne fs Hp. unfold copyfile.
  destruct (fs !! src) as [[|pl c]|]; cbn; try done.
  destruct (String.eqb src dst); cbn; [done|].
  by apply keeps_write_file.
Qed.

Lemma keeps_set_comment (p q value : string) : p <> q -> keeps p (set_comment q value).
Proof.
  intros Hne fs _. unfold set_comment.
  destruct (fs !! q) as [[|pl c]|]; cbn; try done. by apply lookup_insert_ne.
Qed.

Lemma keeps_remove (p q : string) : p <> q -> keeps p (remove q).
Proof.
  intros Hne fs _. unfold remove.
  destruct (fs !! q) as [[|pl c]|]; cbn; try done. by apply lookup_delete_ne.
Qed.

Lemma keeps_while_exists (p : string) (fuel : nat) :
  forall (wav_directory seed_tag target : string) (counter : Z),
    keeps p (while_exists fuel wav_directory seed_tag target counter).
Proof.
  induction fuel as [|fuel IH]; intros; cbn [while_exists]; [apply keeps_throw|].
  apply keeps_bind; [apply keeps_path_exists|].
  intros []; [apply IH|apply keeps_ret].
Qed.

Lemma keeps_find_target (p wav_directory seed_tag : string) :
  keeps p (find_target wav_directory seed_tag).
Proof. intros fs Hp. unfold find_target. by apply keeps_while_exists. Qed.

Lemma keeps_bind_ret {A B} (p : string) (x : A) (k : A -> IO B) :
  keeps p (k x) -> keeps p (mret x ≫= k).
Proof. intros H fs Hp. exact (H fs Hp). Qed.

Lemma keeps_bind_yields {A B} (p : string) (Q : A -> Prop) (m : IO A) (k : A -> IO B) :
  keeps p m -> yields m Q -> (forall x, Q x -> keeps p (k x)) -> keeps p (m ≫= k).
Proof.
  intros Hm HQ Hk fs Hp. specialize (Hm fs Hp). specialize (HQ fs).
  unfold mbind, IO_bind. destruct (m fs) as [fs1 [e|x]]; cbn in *; [done|].
  rewrite <- Hm. apply Hk; [by eapply HQ|]. by rewrite Hm.
Qed.

Lemma yields_ret {A} (x : A) (Q : A -> Prop) : Q x -> yields (mret x : IO A) Q.
Proof. intros H fs fs' y [= _ <-]. done. Qed.

Lemma yields_bind {A B} (Q : B -> Prop) (m : IO A) (k : A -> IO B) :
  (forall x, yields (k x) Q) -> yields (m ≫= k) Q.
Proof.
  intros Hk fs fs' y. unfold mbind, IO_bind.
  destruct (m fs) as [fs1 [e|x]]; [done|]. apply Hk.
Qed.

Lemma yields_bind_ret {A B} (Q : B -> Prop) (x : A) (k : A -> IO B) :
  yields (k x) Q -> yields (mret x ≫= k) Q.
Proof. intros H fs fs' y. apply H. Qed.

Section Frame.
Variable json_dumps : gmap string string -> string.

Lemma add_tags_yields (filename seed_tag : string) (tags : list string) :
  tags !! 7%nat = Some seed_tag ->
  yields (add_tags json_dumps filename tags) (fun name => name = seed_tag +:+ ".json").
Proof.
  intros Htag. unfold add_tags.
  apply yields_bind. intros data. apply yields_bind. intros present.
  apply yields_bind. intros _. rewrite Htag. apply yields_bind_ret.
  apply yields_bind. intros _. by apply yields_ret.
Qed.

Lemma keeps_add_tags (p filename seed_tag : string) (tags : list string) :
  tags !! 7%nat = Some seed_tag ->
  p <> filename -> p <> seed_tag +:+ ".json" ->
  keeps p (add_tags json_dumps filename tags).
Proof.
  intros Htag Hf Hs. unfold add_tags.
  apply keeps_bind; [apply keeps_from_option|intros data].
  apply keeps_bind; [apply keeps_path_exists|intros present].
  apply keeps_bind.
  { destruct present; [by apply keeps_set_comment|apply keeps_ret]. }
  intros _. rewrite Htag. apply keeps_bind_ret.
  apply keeps_bind; [by apply keeps_write_file|intros; apply keeps_ret].
Qed.

Lemma keeps_store_outputs (p mp4 wav_tmp seed_tag target : string) (tags : list string) :
  tags !! 7%nat = Some seed_tag ->
  p <> target -> p <> str_replace "wav" "mp4" target ->
  p <> str_replace "mp4" "json" (str_replace "wav" "mp4" target) ->
  p <> seed_tag +:+ ".json" ->
  keeps p (store_outputs json_dumps mp4 wav_tmp tags target).
Proof.
  intros Htag Hw Hm Hj Hs. unfold store_outputs.
  apply keeps_bind; [by apply keeps_copyfile|intros _].
  eapply keeps_bind_yields;
    [by apply (keeps_add_tags _ _ seed_tag)|by apply add_tags_yields|].
  intros json_file ->.
  apply keeps_bind; [by apply keeps_copyfile|intros _].
  apply keeps_bind; [by apply (keeps_add_tags _ _ seed_tag)|intros json_file'].
  apply keeps_bind; [by apply keeps_write_file|intros _].
  apply keeps_bind; [by apply keeps_copyfile|intros _].
  apply keeps_bind; [by apply keeps_remove|intros; apply keeps_ret].
Qed.

Lemma store_outputs_yields (mp4 wav_tmp target : string) (tags : list string) :
  yields (store_outputs json_dumps mp4 wav_tmp tags target)
    (fun r => r = (target, str_replace "wav" "mp4" target,
                   str_replace "mp4" "json" (str_replace "wav" "mp4" target))).
Proof.
  unfold store_outputs. repeat (apply yields_bind; intros ?). by apply yields_ret.
Qed.
End Frame.

(** *** [save_outputs] *)

Lemma starts_with_sep_literal (kind : string) :
  kind ∈ ["wav"; "mp4"; "json"] -> starts_with_sep kind = false.
Proof.
  rewrite !elem_of_cons, elem_of_nil. intros [->|[->|[->|[]]]]; reflexivity.
Qed.

Lemma dir_prefix_longer (path : string) :
  (String.length path <= String.length (dir_prefix path))%nat.
Proof.
  unfold dir_prefix. destruct path as [|c path]; [done|].
  destruct (ends_with_sep _); [done|]. rewrite length_append. lia.
Qed.

Lemma bind_apply {A B} (m : IO A) (k : A -> IO B) (fs : fsys) :
  (m ≫= k) fs
  = match m fs with
    | (fs', inl e) => (fs', inl e)
    | (fs', inr x) => k x fs'
    end.
Proof. reflexivity. Qed.

Lemma bind_returns {A B} (m : IO A) (k : A -> IO B) (fs fs' : fsys) (r : B) :
  (m ≫= k) fs = (fs', inr r) ->
  exists x fs1, m fs = (fs1, inr x) /\ k x fs1 = (fs', inr r).
Proof.
  rewrite bind_apply. destruct (m fs) as [fs1 [e|x]]; [done|].
  intros H. by exists x, fs1.
Qed.

Lemma write_file_returns (q payload : string) (comment : option string)
  (fs fs' : fsys) (x : unit) :
  write_file q payload comment fs = (fs', inr x) ->
  fs' = <[q := File payload comment]> fs.
Proof.
  unfold write_file. destruct (fs !! q) as [[|pl c]|];
    try destruct (has_parent fs q); by intros [= <-].
Qed.

Lemma copyfile_returns (src dst : string) (fs fs' : fsys) (x : unit) :
  copyfile src dst fs = (fs', inr x) ->
  exists payload comment,
    fs !! src = Some (File payload comment) /\ src <> dst /\
    fs' = <[dst := File payload comment]> fs.
Proof.
  unfold copyfile. destruct (fs !! src) as [[|pl c]|]; try done.
  destruct (String.eqb_spec src dst) as [|Hne]; [done|].
  intros H%write_file_returns. by exists pl, c.
Qed.

Lemma set_comment_returns (q value : string) (fs fs' : fsys) (x : unit) :
  set_comment q value fs = (fs', inr x) ->
  exists payload comment,
    fs !! q = Some (File payload comment) /\
    fs' = <[q := File payload (Some value)]> fs.
Proof.
  unfold set_comment. destruct (fs !! q) as [[|pl c]|]; try done.
  intros [= <-]. by exists pl, c.
Qed.

Lemma remove_returns (q : string) (fs fs' : fsys) (x : unit) :
  remove q fs = (fs', inr x) -> fs' = delete q fs.
Proof.
  unfold remove. destruct (fs !! q) as [[|pl c]|]; try done. by intros [= <-].
Qed.

Ltac look_up :=
  repeat first
    [ rewrite lookup_insert_eq
    | rewrite lookup_delete_eq
    | rewrite lookup_insert_ne by congruence
    | rewrite lookup_delete_ne by congruence ].

Section SaveOutputs.
Variable json_dumps : gmap string string -> string.
Variables (cwd current_date : string).
Variables (mp4 wav_tmp gen_type : string) (tags : list string) (seed : Z).
Hypothesis Htag : tags !! 7%nat = Some (py_str_int seed).

Local Abbreviation base := (path_join cwd ["output"; current_date; gen_type]).
Local Abbreviation directory := (output_directory cwd current_date gen_type).
Local Abbreviation wav_directory := (output_directory cwd current_date gen_type "wav").
Local Abbreviation seed_tag := (py_str_int seed).
Local Abbreviation save :=
  (save_outputs json_dumps cwd current_date mp4 wav_tmp tags gen_type).

Lemma directory_shape (kind : string) :
  kind ∈ ["wav"; "mp4"; "json"] -> directory kind = dir_prefix base +:+ kind.
Proof.
  intros Hk. unfold output_directory, path_join. cbn [fold_left].
  by rewrite join2_prefix by by apply starts_with_sep_literal.
Qed.

Lemma wav_directory_nonempty : wav_directory <> "".
Proof.
  rewrite directory_shape by set_solver. intros H.
  apply (f_equal String.length) in H. rewrite length_append in H. cbn in H. lia.
Qed.

Lemma name_not_directory (n : Z) (kind : string) :
  kind ∈ ["wav"; "mp4"; "json"] ->
  wav_name wav_directory seed_tag n <> directory kind.
Proof.
  intros Hk H. apply (f_equal String.length) in H. revert H.
  rewrite wav_name_shape, !length_append.
  pose proof (dir_prefix_longer wav_directory) as Hlong.
  rewrite (directory_shape "wav") in Hlong at 1 by set_solver.
  rewrite length_append in Hlong.
  rewrite (directory_shape kind Hk), length_append.
  revert Hk. rewrite !elem_of_cons, elem_of_nil.
  intros [->|[->|[->|[]]]]; cbn [String.length] in *; lia.
Qed.

Local Abbreviation prepared := (after_makedirs cwd current_date gen_type).

Lemma prepared_refl (fs : fsys) : prepared fs fs.
Proof. by split. Qed.

Lemma prepared_makedirs (fs fs1 : fsys) (kind : string) :
  kind ∈ ["wav"; "mp4"; "json"] ->
  prepared fs fs1 -> prepared fs (fst (makedirs (directory kind) fs1)).
Proof.
  intros Hk [Hold Hother]. split.
  - intros p Hp. rewrite keeps_makedirs by by rewrite Hold. by apply Hold.
  - intros p Hp. rewrite <- Hother by done. unfold makedirs.
    destruct (fs1 !! directory kind) as [[|pl c]|]; cbn; try done.
    apply lookup_insert_ne. intros <-. apply Hp.
    revert Hk. rewrite !elem_of_cons, elem_of_nil.
    intros [->|[->|[->|[]]]]; set_solver.
Qed.

Lemma makedirs_result (d : string) (fs : fsys) :
  snd (makedirs d fs) = inl FileExistsError \/ snd (makedirs d fs) = inr tt.
Proof. unfold makedirs. destruct (fs !! d) as [[|pl c]|]; cbn; auto. Qed.

(** Either a file stands where a directory is needed, and the call raises
    at once; or the call goes on, from a prepared state, with the search
    and the storing. *)
Lemma save_outputs_cases (fs : fsys) :
  (exists fs0, save fs = (fs0, inl FileExistsError) /\ prepared fs fs0) \/
  (exists fs1, prepared fs fs1 /\
     save fs = (find_target wav_directory seed_tag
                ≫= store_outputs json_dumps mp4 wav_tmp tags) fs1).
Proof.
  unfold save_outputs. rewrite Htag.
  pose proof (prepared_makedirs fs fs "wav" ltac:(set_solver) (prepared_refl fs)) as H1.
  pose proof (makedirs_result (directory "wav") fs) as E1.
  rewrite bind_apply.
  destruct (makedirs (directory "wav") fs) as [fs1 [e1|[]]]; cbn in E1, H1.
  { left. exists fs1. destruct E1 as [[= ->]|[=]]. done. }
  pose proof (prepared_makedirs fs fs1 "mp4" ltac:(set_solver) H1) as H2.
  pose proof (makedirs_result (directory "mp4") fs1) as E2.
  rewrite bind_apply.
  destruct (makedirs (directory "mp4") fs1) as [fs2 [e2|[]]]; cbn in E2, H2.
  { left. exists fs2. destruct E2 as [[= ->]|[=]]. done. }
  pose proof (prepared_makedirs fs fs2 "json" ltac:(set_solver) H2) as H3.
  pose proof (makedirs_result (directory "json") fs2) as E3.
  rewrite bind_apply.
  destruct (makedirs (directory "json") fs2) as [fs3 [e3|[]]]; cbn in E3, H3.
  { left. exists fs3. destruct E3 as [[= ->]|[=]]. done. }
  right. exists fs3. split; [exact H3|]. reflexivity.
Qed.

Lemma prepared_names (fs fs1 : fsys) (k : Z) :
  prepared fs fs1 ->
  fs1 !! wav_name wav_directory seed_tag k = fs !! wav_name wav_directory seed_tag k.
Proof.
  intros [_ Hother]. apply Hother.
  rewrite !elem_of_cons, elem_of_nil.
  intros [H|[H|[H|[]]]]; revert H; apply name_not_directory; set_solver.
Qed.

(** A call that returns gives back the names of the smallest free
    index. *)
Lemma save_returns_free_names (fs fs' : fsys) (r : string * string * string) (n : Z) :
  0 <= n ->
  fs !! wav_name wav_directory seed_tag n = None ->
  (forall k, 0 <= k < n -> is_Some (fs !! wav_name wav_directory seed_tag k)) ->
  save fs = (fs', inr r) ->
  r = (wav_name wav_directory seed_tag n, mp4_name wav_directory seed_tag n,
       json_name wav_directory seed_tag n).
Proof.
  intros Hn Hfree Hall Hsave.
  destruct (save_outputs_cases fs) as [(fs0 & H0 & _)|(fs1 & Hprep & H1)];
    [congruence|].
  destruct (find_target_spec fs1 wav_directory seed) as (m & Hm & Hrun1 & Hfree1 & Hall1).
  assert (m = n) as ->.
  { destruct (Z.lt_trichotomy m n) as [Hlt|[->|Hgt]]; [|done|].
    - destruct (Hall m ltac:(lia)) as [nd Hnd].
      rewrite <- (prepared_names fs fs1 m Hprep), Hfree1 in Hnd. done.
    - destruct (Hall1 n ltac:(lia)) as [nd Hnd].
      rewrite (prepared_names fs fs1 n Hprep), Hfree in Hnd. done. }
  rewrite H1 in Hsave. unfold mbind, IO_bind in Hsave. rewrite Hrun1 in Hsave.
  by apply store_outputs_yields in Hsave.
Qed.

(** X14.  [save_outputs] stores the wav file under the first free name
    among [seed.wav], [seed(1).wav], [seed(2).wav], ...: the search for it
    always ends, at the smallest index whose name does not exist, and a
    call that returns gives back the wav, mp4 and json names of that
    index. *)
Theorem save_outputs_first_free_name (fs : fsys) :
  exists n : Z,
    0 <= n /\
    fs !! wav_name wav_directory seed_tag n = None /\
    (forall k, 0 <= k < n -> is_Some (fs !! wav_name wav_directory seed_tag k)) /\
    find_target wav_directory seed_tag fs = (fs, inr (wav_name wav_directory seed_tag n)) /\
    (forall fs' r, save fs = (fs', inr r) ->
       r = (wav_name wav_directory seed_tag n, mp4_name wav_directory seed_tag n,
            json_name wav_directory seed_tag n)).
Proof.
  destruct (find_target_spec fs wav_directory seed) as (n & Hn & Hrun & Hfree & Hall).
  exists n. split; [done|]. split; [done|]. split; [done|]. split; [done|].
  intros fs' r Hsave.
  by apply (save_returns_free_names fs fs' r n).
Qed.


(** X15.  [save_outputs] never overwrites an earlier result: when the wav
    file of an earlier result for the same seed, day and generator kind
    exists, the call leaves that wav file and the mp4 and json files of the
    same index exactly as they are, whether it returns or raises. *)
Theorem save_outputs_keeps_earlier_results (fs : fsys) (k : Z) (p : string) :
  0 <= k ->
  is_Some (fs !! wav_name wav_directory seed_tag k) ->
  p ∈ [wav_name wav_directory seed_tag k; mp4_name wav_directory seed_tag k;
       json_name wav_directory seed_tag k] ->
  is_Some (fs !! p) ->
  fst (save fs) !! p = fs !! p.
Proof.
  intros Hk Hwav Hp Hexists.
  destruct (save_outputs_cases fs) as [(fs0 & H0 & Hprep)|(fs1 & Hprep & H1)].
  { rewrite H0. cbn. by apply (proj1 Hprep). }
  destruct (find_target_spec fs1 wav_directory seed) as (n & Hn & Hrun & Hfree & _).
  assert (Hkn : k <> n).
  { intros ->. rewrite (prepared_names fs fs1 n Hprep) in Hfree.
    rewrite Hfree in Hwav. by destruct Hwav. }
  rewrite H1. unfold mbind, IO_bind. rewrite Hrun.
  rewrite <- (proj1 Hprep p Hexists).
  apply (keeps_store_outputs json_dumps p mp4 wav_tmp seed_tag); [done| | | | |].
  - revert Hp. rewrite !elem_of_cons, elem_of_nil. intros [->|[->|[->|[]]]].
    + intros H. by apply wav_name_inj in H.
    + intros H. symmetry in H. revert H. apply wav_not_mp4.
    + intros H. symmetry in H. revert H. apply wav_not_json.
  - change (str_replace "wav" "mp4" (wav_name wav_directory seed_tag n))
      with (mp4_name wav_directory seed_tag n).
    revert Hp. rewrite !elem_of_cons, elem_of_nil. intros [->|[->|[->|[]]]].
    + apply wav_not_mp4.
    + intros H. by apply mp4_name_inj in H.
    + intros H. symmetry in H. revert H. apply mp4_not_json.
  - change (str_replace "mp4" "json" (str_replace "wav" "mp4"
              (wav_name wav_directory seed_tag n)))
      with (json_name wav_directory seed_tag n).
    revert Hp. rewrite !elem_of_cons, elem_of_nil. intros [->|[->|[->|[]]]].
    + apply wav_not_json.
    + apply mp4_not_json.
    + intros H. by apply json_name_inj in H.
  - revert Hp. rewrite !elem_of_cons, elem_of_nil. intros [->|[->|[->|[]]]].
    + intros H. symmetry in H. revert H. apply scratch_not_wav.
    + intros H. symmetry in H. revert H. apply scratch_not_mp4.
    + intros H. symmetry in H. revert H. apply scratch_not_json.
      apply wav_directory_nonempty.
  - rewrite (proj1 Hprep p Hexists). done.
Qed.

Lemma add_tags_returns (filename payload : string) (comment : option string)
  (fs fs' : fsys) (x : string) :
  fs !! filename = Some (File payload comment) ->
  add_tags json_dumps filename tags fs = (fs', inr x) ->
  exists data,
    tag_data tags = Some data /\
    x = seed_tag +:+ ".json" /\
    fs' = <[seed_tag +:+ ".json" := File (json_dumps data) None]>
            (<[filename := File payload (Some (json_dumps data))]> fs).
Proof.
  intros Hfile. unfold add_tags. rewrite Htag.
  destruct (tag_data tags) as [data|]; [|done]. cbn [from_option].
  intros H. change (mret data ≫= ?k) with (k data) in H. cbv beta in H.
  apply bind_returns in H as (present & fs1 & Hex & H).
  unfold path_exists in Hex. injection Hex as <- <-.
  rewrite bool_decide_true in H by by eexists.
  apply bind_returns in H as ([] & fs2 & Hset & H).
  apply set_comment_returns in Hset as (pl & c & Hq & ->).
  rewrite Hfile in Hq. injection Hq as <- <-.
  change (mret seed_tag ≫= ?k) with (k seed_tag) in H. cbv beta in H.
  apply bind_returns in H as ([] & fs3 & Hw & H).
  apply write_file_returns in Hw as ->. injection H as <- <-.
  by exists data.
Qed.

(** X16.  A call of [save_outputs] that returns has stored what it was
    given: the wav result holds the payload of the temporary wav file and
    the mp4 result the payload of the rendered video, both tagged with the
    JSON text of the tags; the json result holds that text; the scratch
    file [seed.json] is gone; and nothing else has changed but the three
    directories. *)
Theorem save_outputs_stores (fs fs' : fsys) (r : string * string * string)
  (wav_payload mp4_payload : string) (c1 c2 : option string) :
  fs !! wav_tmp = Some (File wav_payload c1) ->
  fs !! ("./" +:+ mp4) = Some (File mp4_payload c2) ->
  save fs = (fs', inr r) ->
  exists data,
    tag_data tags = Some data /\
    fs' !! r.1.1 = Some (File wav_payload (Some (json_dumps data))) /\
    fs' !! r.1.2 = Some (File mp4_payload (Some (json_dumps data))) /\
    fs' !! r.2 = Some (File (json_dumps data) None) /\
    fs' !! (seed_tag +:+ ".json") = None /\
    (forall p, p ∉ [r.1.1; r.1.2; r.2; seed_tag +:+ ".json";
                    directory "wav"; directory "mp4"; directory "json"] ->
               fs' !! p = fs !! p).
Proof.
  intros Hwav Hmp4 Hsave.
  destruct (find_target_spec fs wav_directory seed) as (n & Hn & _ & Hfree & Hall).
  pose proof (save_returns_free_names fs fs' r n Hn Hfree Hall Hsave) as Hret.
  subst r. cbn [fst snd].
  destruct (save_outputs_cases fs) as [(fs0 & H0 & _)|(fs1 & Hprep & H1)];
    [congruence|].
  rewrite H1 in Hsave. clear H1.
  destruct (find_target_spec fs1 wav_directory seed) as (m & Hm & Hrun & Hfree1 & Hall1).
  rewrite bind_apply, Hrun in Hsave.
  pose proof (store_outputs_yields json_dumps _ _ _ _ _ _ _ Hsave) as Hr.
  injection Hr as Hr _ _. apply wav_name_inj in Hr. subst m.
  set (W := wav_name wav_directory seed_tag n) in *.
  set (M := mp4_name wav_directory seed_tag n) in *.
  set (J := json_name wav_directory seed_tag n) in *.
  set (scratch := seed_tag +:+ ".json") in *.
  assert (HWM : W <> M) by apply wav_not_mp4.
  assert (HWJ : W <> J) by apply wav_not_json.
  assert (HMJ : M <> J) by apply mp4_not_json.
  assert (HsW : scratch <> W) by apply scratch_not_wav.
  assert (HsM : scratch <> M) by apply scratch_not_mp4.
  assert (HsJ : scratch <> J) by (apply scratch_not_json, wav_directory_nonempty).
  assert (Hwav1 : fs1 !! wav_tmp = Some (File wav_payload c1)).
  { by rewrite (proj1 Hprep) by by eexists. }
  assert (Hmp41 : fs1 !! ("./" +:+ mp4) = Some (File mp4_payload c2)).
  { by rewrite (proj1 Hprep) by by eexists. }
  assert (HsrcW : "./" +:+ mp4 <> W).
  { intros E. rewrite E, Hfree1 in Hmp41. done. }
  assert (Hsrcs : "./" +:+ mp4 <> scratch).
  { unfold scratch. intros E. pose proof (py_str_int_numeric seed) as Hnum.
    destruct seed_tag as [|c t] eqn:Es; [by apply py_str_int_nonempty in Es|].
    cbn in E. injection E as <- _. cbn in Hnum. done. }
  unfold store_outputs in Hsave.
  fold M in Hsave. change (str_replace "mp4" "json" M) with J in Hsave.
  apply bind_returns in Hsave as ([] & fs2 & Hc1 & Hsave).
  apply copyfile_returns in Hc1 as (pl1 & cm1 & Hsrc1 & _ & ->).
  rewrite Hwav1 in Hsrc1. injection Hsrc1 as <- <-.
  apply bind_returns in Hsave as (jf & fs3 & Ht1 & Hsave).
  apply (add_tags_returns W wav_payload c1) in Ht1 as (data & Hdata & -> & ->);
    [|by rewrite lookup_insert_eq].
  fold scratch in Hsave.
  apply bind_returns in Hsave as ([] & fs4 & Hc2 & Hsave).
  apply copyfile_returns in Hc2 as (pl2 & cm2 & Hsrc2 & _ & ->).
  rewrite !lookup_insert_ne in Hsrc2 by done.
  rewrite Hmp41 in Hsrc2. injection Hsrc2 as <- <-.
  apply bind_returns in Hsave as (jf & fs5 & Ht2 & Hsave).
  apply (add_tags_returns M mp4_payload c2) in Ht2 as (data' & Hdata' & _ & ->);
    [|by rewrite lookup_insert_eq].
  rewrite Hdata in Hdata'. injection Hdata' as <-.
  fold scratch in Hsave.
  apply bind_returns in Hsave as ([] & fs6 & Hw & Hsave).
  apply write_file_returns in Hw as ->.
  apply bind_returns in Hsave as ([] & fs7 & Hc3 & Hsave).
  apply copyfile_returns in Hc3 as (pl3 & cm3 & Hsrc3 & _ & ->).
  rewrite lookup_insert_ne, lookup_insert_eq in Hsrc3 by done.
  injection Hsrc3 as <- <-.
  apply bind_returns in Hsave as ([] & fs8 & Hrm & Hsave).
  apply remove_returns in Hrm as ->. injection Hsave as <-.
  change (str_replace "mp4" "json" (str_replace "wav" "mp4" W)) with J.
  change (str_replace "wav" "mp4" W) with M.
  exists data. split; [done|].
  split; [by look_up|]. split; [by look_up|]. split; [by look_up|].
  split; [by look_up|].
  intros p Hp. rewrite !elem_of_cons, elem_of_nil in Hp.
  rewrite <- (proj2 Hprep p) by (rewrite !elem_of_cons, elem_of_nil; tauto).
  assert (p <> W /\ p <> M /\ p <> J /\ p <> scratch) as (? & ? & ? & ?) by tauto.
  by look_up.
Qed.
End SaveOutputs.

Lemma save_outputs_first_free_name_witness :
  let fs := fst (sample_save fresh_disk) in
  exists n : Z,
    n = 1 /\
    find_target sample_directory (py_str_int 195123182343465) fs
    = (fs, inr (wav_name sample_directory (py_str_int 195123182343465) n)).
Proof.
  intros fs.
  destruct (save_outputs_first_free_name seed_only "/home/u/app" "20261104"
              "BgnJtr4Pn1AJ.mp4" "/tmp/tmp4ermrebs.wav" "music" sample_tags
              195123182343465 ltac:(vm_compute; reflexivity) fs)
    as (n & Hn & Hfree & Hall & Hfind & _).
  assert (n = 1) as ->.
  { destruct (decide (n = 0)) as [->|]; [by vm_compute in Hfree|].
    destruct (decide (n = 1)) as [->|]; [done|].
    destruct (Hall 1 ltac:(lia)) as [nd Hnd]. by vm_compute in Hnd. }
  exists 1. split; [done|]. exact Hfind.
Defined.

Lemma save_outputs_keeps_earlier_results_witness :
  let fs := fst (sample_save fresh_disk) in
  let first := wav_name sample_directory (py_str_int 195123182343465) 0 in
  fst (sample_save fs) !! first = fs !! first.
Proof.
  intros fs first.
  apply (save_outputs_keeps_earlier_results seed_only "/home/u/app" "20261104"
           "BgnJtr4Pn1AJ.mp4" "/tmp/tmp4ermrebs.wav" "music" sample_tags
           195123182343465 ltac:(vm_compute; reflexivity) fs 0 first).
  - lia.
  - vm_compute. by eexists.
  - rewrite elem_of_cons. by left.
  - vm_compute. by eexists.
Defined.

Lemma save_outputs_stores_witness :
  exists (fs' : fsys) (r : string * string * string),
    sample_save fresh_disk = (fs', inr r) /\
    fs' !! r.1.1 = Some (File "audio" (Some "{seed: 195123182343465}")) /\
    fs' !! r.2 = Some (File "{seed: 195123182343465}" None).
Proof.
  assert (Hret : exists r, snd (sample_save fresh_disk) = inr r)
    by (eexists; vm_compute; reflexivity).
  assert (Hjson : seed_only <$> tag_data sample_tags = Some "{seed: 195123182343465}")
    by (vm_compute; reflexivity).
  destruct Hret as [r Hret].
  destruct (sample_save fresh_disk) as [fs' res] eqn:E. cbn in Hret. subst res.
  exists fs', r. split; [done|].
  destruct (save_outputs_stores seed_only "/home/u/app" "20261104"
              "BgnJtr4Pn1AJ.mp4" "/tmp/tmp4ermrebs.wav" "music" sample_tags
              195123182343465 ltac:(vm_compute; reflexivity)
              fresh_disk fs' r "audio" "video" None None)
    as (data & Hdata & Hw & _ & Hj & _);
    [vm_compute; reflexivity|vm_compute; reflexivity|exact E|].
  rewrite Hdata in Hjson.
  change (Some (seed_only data) = Some "{seed: 195123182343465}") in Hjson.
  apply (inj Some) in Hjson.
  rewrite Hjson in Hw, Hj. by split.
Defined.
End PersistenceFacts.


(** ** The model cache *)

Module ModelCacheFacts.
Import ModelCache.

Lemma lookup_move (r i : nat) (d : device) (st : State) :
  objects (move r d st) !! i
  = (fun m => if decide (r = i)
              then {| family := family m; name := name m; placed := d |} else m)
    <$> objects st !! i.
Proof.
  unfold move. cbn. rewrite list_lookup_alter.
  destruct (decide (r = i)) as [->|]; by destruct (objects st !! i).
Qed.

Lemma lookup_move_name (r i : nat) (d : device) (st : State) (m : model) :
  objects st !! i = Some m ->
  exists m', objects (move r d st) !! i = Some m' /\ name m' = name m.
Proof.
  intros Hm. rewrite lookup_move, Hm. cbn. eexists. split; [done|].
  by destruct (decide _).
Qed.

Lemma park_current (st : State) :
  (forall r m, objects st !! r = Some m -> placed m = Cuda -> MODEL st = Some r) ->
  all_parked (match MODEL st with Some r => move r Cpu st | None => st end).
Proof.
  intros Hhot. destruct (MODEL st) as [r|] eqn:HM.
  - intros i m. rewrite lookup_move.
    destruct (objects st !! i) as [m'|] eqn:Hm'; [|done]. cbn. intros [= <-].
    destruct (decide (r = i)) as [<-|Hne]; [done|].
    destruct (placed m') eqn:Hp; [done|].
    specialize (Hhot i m' Hm' Hp). congruence.
  - intros i m Hm. destruct (placed m) eqn:Hp; [done|].
    by specialize (Hhot i m Hm Hp).
Qed.

Lemma park_fields (st : State) :
  let st1 := match MODEL st with Some r => move r Cpu st | None => st end in
  MODEL st1 = MODEL st /\ MODELS st1 = MODELS st /\ disk_loads st1 = disk_loads st.
Proof. destruct (MODEL st) eqn:E; cbn; by rewrite ?E. Qed.

Lemma park_names (st : State) (i : nat) (m : model) :
  objects st !! i = Some m ->
  exists m', objects (match MODEL st with Some r => move r Cpu st | None => st end) !! i
             = Some m' /\ name m' = name m.
Proof.
  intros Hm. destruct (MODEL st); [by apply lookup_move_name|by exists m].
Qed.

Lemma parked_inv (st : State) :
  cache_inv st ->
  cache_inv (match MODEL st with Some r => move r Cpu st | None => st end).
Proof.
  intros (cache & Hc & Hnames & Hhot & Hcustom & Hnd & Hkeys).
  pose proof (park_current st Hhot) as Hpark.
  pose proof (park_fields st) as (HM & HMS & HL).
  exists cache. rewrite HMS, HL. split; [done|]. split; [|split; [|done]].
  - intros v r Hv. destruct (Hnames v r Hv) as (m & Hm & Hn).
    destruct (park_names st r m Hm) as (m' & Hm' & Hn'). exists m'. split; [exact Hm'|congruence].
  - intros r m Hm Hp. pose proof (Hpark r m Hm). congruence.
Qed.

(** A version the cache has: the cached object becomes the current model,
    on the accelerator, and nothing is read from disk. *)
Lemma load_cached (version custom_model gen_type : string) (st : State)
    (cache : gmap string nat) (r : nat) :
  MODELS st = Some cache -> cache !! version = Some r ->
  let st1 := match MODEL st with Some r => move r Cpu st | None => st end in
  load_model version custom_model gen_type st = (set_MODEL r (move r Cuda st1), inr tt).
Proof.
  intros Hc Hr. unfold load_model. rewrite Hc, Hr.
  rewrite (bool_decide_eq_true_2 (is_Some (Some r))) by by eexists.
  cbn [negb]. by rewrite andb_false_r.
Qed.

Lemma load_keeps_inv (version custom_model gen_type : string) (st : State) :
  cache_inv st -> cache_inv (fst (load_model version custom_model gen_type st)).
Proof.
  intros Hinv. pose proof (parked_inv st Hinv) as Hparked.
  destruct Hinv as (cache & Hc & Hnames & Hhot & Hcustom & Hnd & Hkeys).
  pose proof (park_current st Hhot) as Hpark.
  pose proof (park_fields st) as (HM & HMS & HL).
  unfold load_model. rewrite Hc.
  set (st1 := match MODEL st with Some r => move r Cpu st | None => st end) in *.
  assert (Hnames1 : forall v r, cache !! v = Some r ->
            exists m, objects st1 !! r = Some m /\ name m = v).
  { intros v r Hv. destruct (Hnames v r Hv) as (m & Hm & Hn).
    destruct (park_names st r m Hm) as (m' & Hm' & Hn'). exists m'. split; [exact Hm'|congruence]. }
  assert (Hfresh : forall cls, version <> custom -> cache !! version = None ->
    cache_inv (set_MODEL (length (objects st1))
      (set_MODELS (<[version := length (objects st1)]> cache)
        (get_pretrained cls version st1).2))).
  { intros cls Hv Hnone. exists (<[version := length (objects st1)]> cache). cbn.
    split; [done|]. split; [|split; [|split; [|split]]].
    - intros v r. destruct (decide (v = version)) as [->|Hne].
      + rewrite lookup_insert_eq. intros [= <-]. exists {| family := cls; name := version; placed := Cuda |}.
        split; [|done]. rewrite lookup_app_r by lia. by rewrite Nat.sub_diag.
      + rewrite lookup_insert_ne by done. intros Hv'.
        destruct (Hnames1 v r Hv') as (m & Hm & Hn). exists m. split; [|done].
        by apply lookup_app_l_Some.
    - intros r m Hm Hp. apply lookup_app_Some in Hm as [Hm|[Hlen Hm]].
      + by rewrite (Hpark r m Hm) in Hp.
      + apply list_lookup_singleton_Some in Hm as [Hr _]. f_equal. lia.
    - by rewrite lookup_insert_ne.
    - rewrite HL, map_app. cbn. apply NoDup_app. split; [done|]. split.
      + intros v Hin Hin'. apply list_elem_of_singleton in Hin' as ->.
        apply Hkeys in Hin. rewrite Hnone in Hin. by destruct Hin.
      + apply NoDup_singleton.
    - intros v. rewrite HL, map_app. cbn. rewrite elem_of_app, list_elem_of_singleton.
      destruct (decide (v = version)) as [->|Hne].
      + rewrite lookup_insert_eq. split; [by eexists|by right].
      + rewrite lookup_insert_ne by done. rewrite Hkeys. naive_solver. }
  destruct (String.eqb version custom) eqn:Hv; cbn [negb andb].
  - apply String.eqb_eq in Hv as ->. rewrite Hcustom. exact Hparked.
  - apply String.eqb_neq in Hv.
    destruct (cache !! version) as [r|] eqn:Hr.
    + rewrite bool_decide_eq_true_2 by by eexists. cbn [negb].
      exists cache. split; [by rewrite <- Hc, <- HMS|].
      split; [|split; [|by rewrite <- HL in Hnd, Hkeys]].
      * intros v r' Hv'. destruct (Hnames1 v r' Hv') as (m & Hm & Hn).
        destruct (lookup_move_name r r' Cuda st1 m Hm) as (m' & Hm' & Hn').
        exists m'. split; [exact Hm'|congruence].
      * intros i m Hm. change (objects (move r Cuda st1) !! i = Some m) in Hm.
        rewrite lookup_move in Hm.
        destruct (objects st1 !! i) as [m'|] eqn:Hm'; [|done]. cbn in Hm.
        injection Hm as <-.
        destruct (decide (r = i)) as [<-|Hne]; [done|].
        intros Hp. by rewrite (Hpark i m' Hm') in Hp.
    + rewrite bool_decide_eq_false_2 by (by intros [? ?]). cbn [negb].
      destruct (String.eqb gen_type "music"); [by apply Hfresh|].
      destruct (String.eqb gen_type "audio"); [by apply Hfresh|].
      exact Hparked.
Qed.

Lemma started_inv : cache_inv started_with_cache.
Proof.
  exists ∅. cbn. repeat split; try done.
  - apply NoDup_nil_2.
  - by intros ?%elem_of_nil.
  - rewrite lookup_empty. by intros [? ?].
Qed.

Lemma serve_inv (reqs : list request) (st : State) :
  cache_inv st -> cache_inv (serve st reqs).
Proof.
  revert st. induction reqs as [|[[v c] g] reqs IH]; intros st Hst; [done|].
  cbn. apply IH. by apply load_keeps_inv.
Qed.


(** X18.  With the cache on, no version is read from disk twice, whatever
    the sequence of [load_model] calls: a call for a version that was read
    before succeeds, reads nothing, and makes the object cached under that
    name the current model, on the accelerator. *)
Theorem cache_loads_each_version_once (reqs : list request) :
  let st := serve started_with_cache reqs in
  NoDup (map snd (disk_loads st)) /\
  forall version custom_model gen_type,
    version ∈ map snd (disk_loads st) ->
    exists st' r m,
      load_model version custom_model gen_type st = (st', inr tt) /\
      disk_loads st' = disk_loads st /\
      MODEL st' = Some r /\ objects st' !! r = Some m /\
      name m = version /\ placed m = Cuda.
Proof.
  intros st.
  pose proof (serve_inv reqs _ started_inv) as Hinv. fold st in Hinv.
  pose proof (parked_inv st Hinv) as Hparked.
  pose proof (park_fields st) as (HM & HMS & HL).
  destruct Hinv as (cache & Hc & Hnames & Hhot & Hcustom & Hnd & Hkeys).
  split; [done|]. intros version custom_model gen_type Hin.
  apply Hkeys in Hin as [r Hr].
  destruct (Hnames version r Hr) as (m & Hm & Hn).
  destruct (park_names st r m Hm) as (m1 & Hm1 & Hn1).
  rewrite (load_cached version custom_model gen_type st cache r Hc Hr).
  eexists _, r, _. split; [done|]. split; [exact HL|]. split; [done|].
  change (objects (set_MODEL r ?s)) with (objects s).
  rewrite lookup_move, Hm1. cbn. rewrite decide_True by done.
  split; [done|]. split; [cbn; congruence|done].
Qed.



End ModelCacheFacts.


(** ** The rates of the written files *)

Module OutputFacts.
Import PyFormat Output.

Lemma delay_samples_positive (rate : Z) :
  100 <= rate -> (Qfloor ((1 # 100) * inject_Z rate) =? 0) = false.
Proof.
  intros Hr. apply Z.eqb_neq. unfold Qfloor, Qmult, inject_Z. cbn [Qnum Qden].
  change (Z.pos (100 * 1)) with 100. rewrite Z.mul_1_l.
  pose proof (Z.div_le_lower_bound rate 100 1 ltac:(lia) ltac:(lia)). lia.
Qed.

Lemma resampled (a b : Z) :
  a <> 0 -> (inject_Z b == inject_Z a * inject_Z b / inject_Z a)%Q.
Proof.
  intros Ha. field. intros H. apply Ha.
  unfold Qeq in H. cbn in H. lia.
Qed.

Lemma target_sr_cases (gen_type : string) (M : Z) :
  target_sr gen_type = Some M ->
  (gen_type = "music" /\ M = 32000) \/ (gen_type = "audio" /\ M = 16000).
Proof.
  unfold target_sr.
  destruct (String.eqb gen_type "music") eqn:Hm.
  - apply String.eqb_eq in Hm. intros [= <-]. by left.
  - destruct (String.eqb gen_type "audio") eqn:Ha; [|done].
    apply String.eqb_eq in Ha. intros [= <-]. by right.
Qed.

(** X20.  For the three channel settings and a rate of 100 or more, with a
    model whose rate is the one the code takes for its kind: a file is
    written, with one channel for mono and two otherwise; its header
    declares the selected rate, save for the stereo effect at "32000",
    which keeps the rate of the model; and the header is the rate of the
    samples in every case but one, mono at "32000" for a model that is
    not a music model, where the samples of the model are written
    unconverted under a header of 32000. *)
Theorem written_file_rates (MODEL_sample_rate n : Z) (gen_type channel sr_select : string) :
  target_sr gen_type = Some MODEL_sample_rate ->
  py_int sr_select = Some n -> 100 <= n ->
  channel ∈ ["mono"; "stereo"; "stereo effect"] ->
  exists f,
    written MODEL_sample_rate gen_type channel sr_select = Some f /\
    channels (content f) = (if String.eqb channel "mono" then 1 else 2) /\
    header f = (if String.eqb channel "stereo effect" && String.eqb sr_select "32000"
                then MODEL_sample_rate else n) /\
    (plays_true f <->
       (channel = "mono" -> sr_select = "32000" -> gen_type = "music")).
Proof.
  intros Hsr Hn Hbig Hch.
  assert (HM : MODEL_sample_rate <> 0 /\ 100 <= MODEL_sample_rate).
  { destruct (target_sr_cases _ _ Hsr) as [[_ ->]|[_ ->]]; lia. }
  destruct HM as [HM0 HM100].
  unfold written. rewrite Hsr, Hn.
  rewrite !elem_of_cons in Hch. destruct Hch as [->|[->|[->|Hch]]];
    [| | |by apply elem_of_nil in Hch].
  - (* mono *)
    change (String.eqb "mono" "stereo") with false.
    change (String.eqb "mono" "mono") with true.
    change (String.eqb "mono" "stereo effect") with false.
    cbn [andb]. destruct (String.eqb sr_select "32000") eqn:H32; cbn [negb].
    + apply String.eqb_eq in H32. subst sr_select.
      eexists. split; [reflexivity|]. split; [done|]. split; [done|].
      unfold plays_true. cbn.
      assert (n = 32000) as -> by (vm_compute in Hn; congruence).
      destruct (target_sr_cases _ _ Hsr) as [[-> ->]|[-> ->]].
      * split; [done|]. intros _. reflexivity.
      * split; [intros Hq; vm_compute in Hq; discriminate|].
        intros Hg. by specialize (Hg eq_refl eq_refl).
    + cbn. eexists. split; [reflexivity|]. split; [done|]. split; [done|].
      unfold plays_true. cbn [header content sampled_at audio_write convert_audio generated].
      split; [intros _ _ H32'; subst; by vm_compute in H32|].
      intros _. by apply resampled.
  - (* stereo *)
    change (String.eqb "stereo" "stereo") with true.
    change (String.eqb "stereo" "stereo effect") with false.
    change (String.eqb "stereo" "mono") with false.
    cbn. eexists. split; [reflexivity|]. split; [done|]. split; [done|].
    unfold plays_true. cbn [header content sampled_at audio_write convert_audio generated].
    split; [done|]. intros _. by apply resampled.
  - (* stereo effect *)
    change (String.eqb "stereo effect" "stereo") with false.
    change (String.eqb "stereo effect" "stereo effect") with true.
    change (String.eqb "stereo effect" "mono") with false.
    cbn [andb mbind option_bind]. unfold make_pseudo_stereo.
    destruct (String.eqb sr_select "32000") eqn:H32; cbn [negb].
    + cbn [mbind option_bind header content audio_write].
      rewrite delay_samples_positive by done.
      eexists. split; [reflexivity|]. split; [done|]. split; [done|].
      unfold plays_true. cbn. split; [done|]. intros _. reflexivity.
    + rewrite Hn. cbn [fmap option_fmap option_map mbind option_bind header content
                       set_frame_rate audio_write].
      rewrite delay_samples_positive by done.
      eexists. split; [reflexivity|]. split; [done|]. split; [done|].
      unfold plays_true. cbn [header content sampled_at generated].
      split; [done|]. intros _. by apply resampled.
Qed.

Lemma written_file_rates_witness :
  exists f,
    written 16000 "audio" "mono" "32000" = Some f /\
    channels (content f) = 1 /\ header f = 32000 /\
    (plays_true f <-> ("mono" = "mono" -> "32000" = "32000" -> "audio" = "music")).
Proof.
  apply (written_file_rates 16000 32000 "audio" "mono" "32000");
    [reflexivity|reflexivity|lia|].
  rewrite elem_of_cons. by left.
Defined.

End OutputFacts.
